(** * CodeSphere: the entity-extraction and graph-construction engine

    A shallow embedding of [src/services/parser.ts] (class [CodeParser],
    with the types of [src/types.ts]) and the properties of the graph that
    [analyzeFiles] builds.

    - Strings are sequences of 8-bit code units ([string]).
    - Regular expressions are syntax trees run by the backtracking matcher
      of ECMA-262; every pattern of the code is written out in [Patterns].
    - A JavaScript [Map] is the list of its entries in insertion order.
    - The mutable fields of [CodeParser] are the fields of the record
      [Parser], which every method takes and returns.
    - A result of type [option] is [None] when the JavaScript code does not
      return: an exception, or a loop that never ends.
    - The pattern of the call sites is built at run time from the name of
      an entity; [analyzeFiles] takes the function [regExpExec] that runs
      it, and the properties of every run hold whatever that function is.
      [Patterns.callSites] is that function for the names made of
      characters that stand for themselves in a pattern, of [.] and of
      [$]: the names that the patterns of the code read for entities, and
      the import aliases that are identifiers. For a name with another
      character of the pattern syntax it is [None] because the pattern is
      not modelled, not because the code does not return; it is used
      only where it returns a list.

    The definitions come first, in the order of the source; then the
    facts about maps and loops, the invariant of a run, and the
    properties. *)

From Stdlib Require Import Strings.String Strings.Ascii Lists.List.
From Stdlib Require Import Arith.Arith Bool.Bool ZArith.ZArith Lia.
Import ListNotations.
Open Scope string_scope.
Open Scope list_scope.
Open Scope nat_scope.

Set Implicit Arguments.

(* ================================================================== *)
(** * JavaScript strings *)
(* ================================================================== *)

Module JsString.

Definition code (c : ascii) : nat := nat_of_ascii c.

Definition inRange (lo hi : ascii) (c : ascii) : bool :=
  (code lo <=? code c) && (code c <=? code hi).

(** [\s], also the characters that [trim] removes: TAB, LF, VT, FF, CR,
    SPACE and NBSP (the code units below 256 of the WhiteSpace and
    LineTerminator productions). *)
Definition isSpace (c : ascii) : bool :=
  let n := code c in
  ((9 <=? n) && (n <=? 13)) || (n =? 32) || (n =? 160).

(** The word characters of [\b]: [[A-Za-z0-9_]]. *)
Definition isWord (c : ascii) : bool :=
  inRange "a" "z" c || inRange "A" "Z" c || inRange "0" "9" c
  || Ascii.eqb c "_".

(** [[a-zA-Z0-9_]] and [[a-zA-Z0-9_$]]. *)
Definition isIdent (c : ascii) : bool := isWord c.
Definition isIdentD (c : ascii) : bool := isWord c || Ascii.eqb c "$".

(** A line terminator below 256: what [.] refuses. *)
Definition isLineTerminator (c : ascii) : bool :=
  (code c =? 10) || (code c =? 13).

Fixpoint rev_onto (acc : string) (s : string) : string :=
  match s with
  | EmptyString => acc
  | String c tl => rev_onto (String c acc) tl
  end.

(** The characters of [s] in reverse order. *)
Definition rev (s : string) : string := rev_onto "" s.

(** [s.startsWith(p)] *)
Definition startsWith (p s : string) : bool := String.prefix p s.

(** [s.endsWith(p)] *)
Definition endsWith (p s : string) : bool := String.prefix (rev p) (rev s).

(** [s.includes(p)] *)
Fixpoint includes (p s : string) : bool :=
  String.prefix p s ||
  match s with
  | EmptyString => false
  | String _ tl => includes p tl
  end.

(** [s.substring(0, n)] for [0 <= n]. *)
Definition substring0 (n : nat) (s : string) : string :=
  String.substring 0 n s.

(** [s.substring(i, j)]; the code only calls it with [i <= j]. *)
Definition substring (i j : nat) (s : string) : string :=
  String.substring i (j - i) s.

(** [s[i]], [None] for [undefined]. *)
Definition charAt (i : nat) (s : string) : option ascii := String.get i s.

(** [s.split(sep)] for a separator of one character, also
    [s.split(/[...]/)] for a class of one character: the pieces between
    the separators, empty pieces included. [cur] holds the piece being
    read, reversed. *)
Fixpoint splitWith (isSep : ascii -> bool) (cur : string) (s : string)
  : list string :=
  match s with
  | EmptyString => [rev cur]
  | String c tl =>
      if isSep c then rev cur :: splitWith isSep "" tl
      else splitWith isSep (String c cur) tl
  end.

Definition split (sep : ascii) (s : string) : list string :=
  splitWith (Ascii.eqb sep) "" s.

Definition splitClass (isSep : ascii -> bool) (s : string) : list string :=
  splitWith isSep "" s.

(** [s.split(/[...]+/)]: a separator is a maximal run of class
    characters. [inSep] says that the previous character was one. *)
Fixpoint splitRunsWith (isSep : ascii -> bool) (cur : string)
         (inSep : bool) (s : string) : list string :=
  match s with
  | EmptyString => [rev cur]
  | String c tl =>
      if isSep c then
        if inSep then splitRunsWith isSep cur true tl
        else rev cur :: splitRunsWith isSep "" true tl
      else splitRunsWith isSep (String c cur) false tl
  end.

Definition splitRuns (isSep : ascii -> bool) (s : string) : list string :=
  splitRunsWith isSep "" false s.

(** [parts.join(sep)] *)
Definition join (sep : string) (parts : list string) : string :=
  String.concat sep parts.

Fixpoint dropSpace (s : string) : string :=
  match s with
  | String c tl => if isSpace c then dropSpace tl else s
  | EmptyString => EmptyString
  end.

(** [s.trim()] *)
Definition trim (s : string) : string := rev (dropSpace (rev (dropSpace s))).

(** The truth value of a string: the empty string is falsy. *)
Definition truthy (s : string) : bool :=
  match s with EmptyString => false | _ => true end.

(** [a || b] on values that are a string or [undefined]. *)
Definition orElse (a b : option string) : option string :=
  match a with
  | Some s => if truthy s then a else b
  | None => b
  end.

End JsString.

(* ================================================================== *)
(** * JavaScript regular expressions *)
(* ================================================================== *)

(** The backtracking matcher of ECMA-262: a pattern is run against a
    matcher state with a continuation for the rest of the pattern, and the
    first way of matching that the continuation accepts is the result. *)

Module JsRegExp.
Import JsString.

Inductive regex : Type :=
| Eps                         (* the empty pattern *)
| Chr (p : ascii -> bool)     (* one character of a class *)
| Seq (r1 r2 : regex)         (* r1 r2 *)
| Alt (r1 r2 : regex)         (* r1 | r2 *)
| Star (r : regex)            (* r*  (greedy) *)
| Opt (r : regex)             (* r?  (greedy) *)
| Group (i : nat) (r : regex) (* capture group number i *)
| WordB                       (* \b *)
| EndOfInput.                 (* $ without the m flag *)

(** r+ *)
Definition Plus (r : regex) : regex := Seq r (Star r).

Definition Lit (c : ascii) : regex := Chr (Ascii.eqb c).
Definition Not (c : ascii) : regex := Chr (fun x => negb (Ascii.eqb c x)).

(** A literal word. *)
Fixpoint Str (s : string) : regex :=
  match s with
  | EmptyString => Eps
  | String c EmptyString => Lit c
  | String c tl => Seq (Lit c) (Str tl)
  end.

Fixpoint seqs (rs : list regex) : regex :=
  match rs with
  | [] => Eps
  | [r] => r
  | r :: tl => Seq r (seqs tl)
  end.

Fixpoint alts (rs : list regex) : regex :=
  match rs with
  | [] => Eps
  | [r] => r
  | r :: tl => Alt r (alts tl)
  end.

(** [\s] *)
Definition ws : regex := Chr isSpace.

(** The state of a match: the index reached, the text from there on, the
    character before it, and what the capture groups hold. *)
Record mstate : Type := MState {
  pos : nat;
  rest : string;
  prev : option ascii;
  caps : list (nat * string)
}.

Definition cont : Type := mstate -> option mstate.

Definition isWordOpt (c : option ascii) : bool :=
  match c with Some x => isWord x | None => false end.

Definition next (st : mstate) : option ascii :=
  match rest st with String c _ => Some c | EmptyString => None end.

Fixpoint removeCap (i : nat) (cs : list (nat * string)) : list (nat * string) :=
  match cs with
  | [] => []
  | (j, s) :: tl => if i =? j then removeCap i tl else (j, s) :: removeCap i tl
  end.

Definition setCap (i : nat) (s : string) (st : mstate) : mstate :=
  MState (pos st) (rest st) (prev st) ((i, s) :: removeCap i (caps st)).

(** The numbers of the capture groups of a pattern. *)
Fixpoint groupsOf (r : regex) : list nat :=
  match r with
  | Seq r1 r2 | Alt r1 r2 => groupsOf r1 ++ groupsOf r2
  | Star r1 | Opt r1 => groupsOf r1
  | Group i r1 => i :: groupsOf r1
  | _ => []
  end.

(** A quantifier forgets the captures of its body at every iteration. *)
Definition clearCaps (gs : list nat) (st : mstate) : mstate :=
  MState (pos st) (rest st) (prev st)
         (fold_right removeCap (caps st) gs).

(** The iterations of [r*]: [runBody] runs [r], [gs] are its capture
    groups. An iteration that matches the empty string is refused, so
    there are at most as many iterations as characters left; [n] counts
    them down. *)
Fixpoint starLoop (runBody : mstate -> cont -> option mstate) (gs : list nat)
         (k : cont) (n : nat) (st0 : mstate) {struct n} : option mstate :=
  match n with
  | 0 => k st0
  | S n' =>
      match runBody (clearCaps gs st0)
                    (fun st1 => if pos st0 <? pos st1
                                then starLoop runBody gs k n' st1
                                else None) with
      | Some res => Some res
      | None => k st0
      end
  end.

Fixpoint run (r : regex) (st : mstate) (k : cont) {struct r} : option mstate :=
  match r with
  | Eps => k st
  | Chr p =>
      match rest st with
      | String c tl =>
          if p c then k (MState (S (pos st)) tl (Some c) (caps st)) else None
      | EmptyString => None
      end
  | Seq r1 r2 => run r1 st (fun st1 => run r2 st1 k)
  | Alt r1 r2 =>
      match run r1 st k with
      | Some res => Some res
      | None => run r2 st k
      end
  | Star r1 =>
      starLoop (run r1) (groupsOf r1) k (String.length (rest st)) st
  | Opt r1 =>
      match run r1 (clearCaps (groupsOf r1) st)
                (fun st1 => if pos st <? pos st1 then k st1 else None) with
      | Some res => Some res
      | None => k st
      end
  | Group i r1 =>
      run r1 st (fun st1 =>
        k (setCap i (substring0 (pos st1 - pos st) (rest st)) st1))
  | WordB =>
      if xorb (isWordOpt (prev st)) (isWordOpt (next st)) then k st else None
  | EndOfInput =>
      match rest st with
      | EmptyString => k st
      | String _ _ => None
      end
  end.

(** One result of [exec]: [index] is [match.index], [text] is
    [match[0]], [stop] is the state at the end of the match (its [pos] is
    the new [lastIndex], its [caps] are [match[1]], [match[2]], ...). *)
Record rmatch : Type := RMatch {
  index : nat;
  text : string;
  stop : mstate
}.

(** [match[i]]; [None] is [undefined]. *)
Definition group (i : nat) (m : rmatch) : option string :=
  option_map snd (find (fun c => fst c =? i) (caps (stop m))).

(** The match of [r] at index [p] exactly. *)
Definition matchAt (r : regex) (p : nat) (pv : option ascii) (s : string)
  : option rmatch :=
  match run r (MState p s pv []) Some with
  | Some st => Some (RMatch p (substring0 (pos st - p) s) st)
  | None => None
  end.

(** The leftmost match of [r] at an index from [p] on; [s] is the text
    from [p] on and [pv] the character before it. *)
Fixpoint search (r : regex) (p : nat) (pv : option ascii) (s : string)
  : option rmatch :=
  match matchAt r p pv s with
  | Some m => Some m
  | None =>
      match s with
      | String c tl => search r (S p) (Some c) tl
      | EmptyString => None
      end
  end.

(** The loop [while (true) { m = re.exec(s); if (!m) break; ... }] for a
    pattern with the g flag: every match, each search starting where the
    previous match stopped. A pattern that matches the empty string
    leaves [lastIndex] where it is and the loop never ends: the fuel
    runs out and the result is [None]. *)
Fixpoint execLoop (fuel : nat) (r : regex) (p : nat) (pv : option ascii)
         (s : string) : option (list rmatch) :=
  match fuel with
  | 0 => None
  | S fuel' =>
      match search r p pv s with
      | None => Some []
      | Some m =>
          match execLoop fuel' r (pos (stop m)) (prev (stop m))
                         (rest (stop m)) with
          | Some ms => Some (m :: ms)
          | None => None
          end
      end
  end.

Definition execAll (r : regex) (s : string) : option (list rmatch) :=
  execLoop (String.length s + 2) r 0 None s.

(** [s.replace(re, '')] for a pattern without the g flag. *)
Definition removeFirst (r : regex) (s : string) : string :=
  match search r 0 None s with
  | Some m => (substring0 (index m) s ++ rest (stop m))%string
  | None => s
  end.

(** [s.split(re)] for a pattern without capture groups, as
    RegExp.prototype[Symbol.split] does it: [p] is the start of the piece
    being read and [cur] that piece, reversed; the pattern is tried at
    every index [q]; a match that ends at [p] is passed over. *)
Fixpoint splitLoop (fuel : nat) (r : regex) (p : nat) (cur : string)
         (q : nat) (pv : option ascii) (sq : string) : option (list string) :=
  match fuel with
  | 0 => None
  | S fuel' =>
      match sq with
      | EmptyString => Some [rev cur]
      | String c tl =>
          let skip := splitLoop fuel' r p (String c cur) (S q) (Some c) tl in
          match matchAt r q pv sq with
          | None => skip
          | Some m =>
              let e := pos (stop m) in
              if e =? p then skip
              else
                match splitLoop fuel' r e "" e (prev (stop m))
                                (rest (stop m)) with
                | Some pieces => Some (rev cur :: pieces)
                | None => None
                end
          end
      end
  end.

Definition split (r : regex) (s : string) : option (list string) :=
  match s with
  | EmptyString =>
      match matchAt r 0 None s with
      | Some _ => Some []
      | None => Some [s]
      end
  | _ => splitLoop (2 * String.length s + 2) r 0 "" 0 None s
  end.

End JsRegExp.

(* ================================================================== *)
(** * JavaScript maps and loops *)
(* ================================================================== *)

(** A [Map<string, V>]: the entries in insertion order. [set] on a key
    that is present replaces the value and keeps the entry's place. *)
Module JsMap.

Definition t (V : Type) : Type := list (string * V).

Definition empty {V : Type} : t V := [].

Fixpoint get {V : Type} (k : string) (m : t V) : option V :=
  match m with
  | [] => None
  | (k', v) :: tl => if String.eqb k k' then Some v else get k tl
  end.

Definition has {V : Type} (k : string) (m : t V) : bool :=
  match get k m with Some _ => true | None => false end.

Fixpoint set {V : Type} (k : string) (v : V) (m : t V) : t V :=
  match m with
  | [] => [(k, v)]
  | (k', v') :: tl =>
      if String.eqb k k' then (k, v) :: tl else (k', v') :: set k v tl
  end.

Definition keys {V : Type} (m : t V) : list string := map fst m.
Definition values {V : Type} (m : t V) : list V := map snd m.
Definition entries {V : Type} (m : t V) : list (string * V) := m.
Definition size {V : Type} (m : t V) : nat := List.length m.

End JsMap.

Definition obind {A B : Type} (o : option A) (f : A -> option B) : option B :=
  match o with
  | Some a => f a
  | None => None
  end.

Notation "x <- e ;; k" := (obind e (fun x => k))
  (at level 61, e at next level, right associativity).

(** [for (const x of xs) body], the body threading a state and possibly
    not returning. *)
Fixpoint forEachM {A S : Type} (body : S -> A -> option S) (xs : list A)
         (s : S) : option S :=
  match xs with
  | [] => Some s
  | x :: tl => s' <- body s x ;; forEachM body tl s'
  end.

(** [for (const x of xs) body] with a body that always returns. *)
Definition forEach {A S : Type} (body : S -> A -> S) (xs : list A) (s : S) : S :=
  fold_left body xs s.

(** [xs.sort(cmp)] for a comparator given as [before x y], true when
    [cmp(x, y) <= 0]; the sort is stable. *)
Fixpoint insertSorted {A : Type} (before : A -> A -> bool) (x : A) (l : list A)
  : list A :=
  match l with
  | [] => [x]
  | y :: tl => if before x y then x :: l else y :: insertSorted before x tl
  end.

Definition sort {A : Type} (before : A -> A -> bool) (l : list A) : list A :=
  fold_right (insertSorted before) [] l.

(* ================================================================== *)
(** * The data model ([src/types.ts]) *)
(* ================================================================== *)

Inductive SupportedLanguage : Type :=
  typescript | javascript | python | go | java | rust.

Definition languageTag (l : SupportedLanguage) : string :=
  match l with
  | typescript => "typescript"
  | javascript => "javascript"
  | python => "python"
  | go => "go"
  | java => "java"
  | rust => "rust"
  end.

Definition SupportedLanguage_eqb (a b : SupportedLanguage) : bool :=
  match a, b with
  | typescript, typescript | javascript, javascript | python, python
  | go, go | java, java | rust, rust => true
  | _, _ => false
  end.

Inductive NodeType : Type :=
  Tfunction | Tmethod | Tclass | Tfile | Tlibrary | Tinterface | Ttype.

Definition isFile (t : NodeType) : bool :=
  match t with Tfile => true | _ => false end.

Inductive LinkType : Type := Lcall | Lstructure | Limport.

(** [size] is a double in the code; the only arithmetic on it is
    [size += 0.3]. The record keeps the initial value and the number of
    times 0.3 was added. *)
Module Node.
Record CodeNode : Type := Build {
  id : string;
  name : string;
  file : string;
  line : nat;
  size : Z;
  sizeAdds : nat;
  color : string;
  language : string;
  linesOfCode : nat;
  type : NodeType;
  isType : option bool
}.

(** [node.size += 0.3] *)
Definition addSize (n : CodeNode) : CodeNode :=
  Build (id n) (name n) (file n) (line n) (size n) (S (sizeAdds n))
        (color n) (language n) (linesOfCode n) (type n) (isType n).
End Node.
Definition CodeNode : Type := Node.CodeNode.

Module Link.
Record CodeLink : Type := Build {
  source : string;
  target : string;
  value : nat;
  type : option LinkType
}.
End Link.
Definition CodeLink : Type := Link.CodeLink.

Record GraphData : Type := {
  graphNodes : list CodeNode;
  graphLinks : list CodeLink
}.

(** What the code reads of a browser [File]: [name], the optional
    [webkitRelativePath], and the text that [text()] resolves to. *)
Record File : Type := {
  fileName : string;
  webkitRelativePath : option string;
  fileText : string
}.

Record ImportMeta : Type := {
  sourceFile : string;
  originalName : string
}.

Record FileContent : Type := {
  fcName : string;
  fcPath : string;
  fcContent : string;
  fcLang : SupportedLanguage
}.

(** The fields of [CodeParser]. *)
Record Parser : Type := {
  nodes : JsMap.t CodeNode;
  links : list CodeLink;
  folderColors : JsMap.t string;
  importRegistry : JsMap.t (JsMap.t ImportMeta);
  classMethods : JsMap.t (JsMap.t (JsMap.t string))
}.

Definition withNodes (st : Parser) (ns : JsMap.t CodeNode) : Parser :=
  Build_Parser ns (links st) (folderColors st) (importRegistry st)
               (classMethods st).

Definition withLinks (st : Parser) (ls : list CodeLink) : Parser :=
  Build_Parser (nodes st) ls (folderColors st) (importRegistry st)
               (classMethods st).

Definition withFolderColors (st : Parser) (fc : JsMap.t string) : Parser :=
  Build_Parser (nodes st) (links st) fc (importRegistry st) (classMethods st).

Definition withImportRegistry (st : Parser) (r : JsMap.t (JsMap.t ImportMeta))
  : Parser :=
  Build_Parser (nodes st) (links st) (folderColors st) r (classMethods st).

Definition withClassMethods (st : Parser)
           (c : JsMap.t (JsMap.t (JsMap.t string))) : Parser :=
  Build_Parser (nodes st) (links st) (folderColors st) (importRegistry st) c.

(** [this.nodes.set(id, node)] and [this.links.push(link)]. *)
Definition setNode (st : Parser) (n : CodeNode) : Parser :=
  withNodes st (JsMap.set (Node.id n) n (nodes st)).

Definition pushLink (st : Parser) (l : CodeLink) : Parser :=
  withLinks st (links st ++ [l]).

(* ================================================================== *)
(** * The patterns of [CodeParser] *)
(* ================================================================== *)

Module Patterns.
Import JsString JsRegExp.

Definition ident : regex := Chr isIdent.
Definition identD : regex := Chr isIdentD.

(** The patterns are quoted with blanks between their parts; the blanks
    are not part of the pattern.

    rust:
    [\b (?: pub (?: \( [^)]+ \) )? \s+ )? (?: async \s+ )? fn \s+
     ([a-zA-Z0-9_]+) \s* (?: < [^>]* > )? \s* \(]   with the g flag *)
Definition rustPattern : regex :=
  seqs [ WordB;
         Opt (seqs [Str "pub"; Opt (seqs [Lit "("; Plus (Not ")"); Lit ")"]);
                    Plus ws]);
         Opt (seqs [Str "async"; Plus ws]);
         Str "fn"; Plus ws;
         Group 1 (Plus ident);
         Star ws;
         Opt (seqs [Lit "<"; Star (Not ">"); Lit ">"]);
         Star ws;
         Lit "(" ].

(** javascript and typescript:
    [(?: export \s+ )?
     (?: function \s+ ([a-zA-Z0-9_$]+)
       | (?: const | let | var ) \s+ ([a-zA-Z0-9_$]+) \s* = \s*
         (?: async \s* )? (?: \( [^)]* \) | [a-zA-Z0-9_$]+ ) \s* => )]
    with the g flag *)
Definition scriptPattern : regex :=
  seqs [ Opt (seqs [Str "export"; Plus ws]);
         Alt (seqs [Str "function"; Plus ws; Group 1 (Plus identD)])
             (seqs [ alts [Str "const"; Str "let"; Str "var"];
                     Plus ws;
                     Group 2 (Plus identD);
                     Star ws; Lit "="; Star ws;
                     Opt (seqs [Str "async"; Star ws]);
                     Alt (seqs [Lit "("; Star (Not ")"); Lit ")"])
                         (Plus identD);
                     Star ws; Str "=>" ]) ].

(** python: [def \s+ ([a-zA-Z0-9_]+) \s* \(]   with the g flag *)
Definition pythonPattern : regex :=
  seqs [Str "def"; Plus ws; Group 1 (Plus ident); Star ws; Lit "("].

(** The object [patterns] of [extractEntities]: no entry for [go] and
    [java]. *)
Definition patterns (lang : SupportedLanguage) : option regex :=
  match lang with
  | rust => Some rustPattern
  | javascript => Some scriptPattern
  | typescript => Some scriptPattern
  | python => Some pythonPattern
  | go | java => None
  end.

(** [(?: export \s+ )? (?: interface | type ) \s+ ([a-zA-Z0-9_$]+)]
    with the g flag *)
Definition interfacePattern : regex :=
  seqs [ Opt (seqs [Str "export"; Plus ws]);
         Alt (Str "interface") (Str "type");
         Plus ws;
         Group 1 (Plus identD) ].

(** [class \s+ ([a-zA-Z0-9_$]+) \s* (?: extends \s+ [a-zA-Z0-9_$]+ )?
     \s* \{]   with the g flag *)
Definition classPattern : regex :=
  seqs [ Str "class"; Plus ws;
         Group 1 (Plus identD);
         Star ws;
         Opt (seqs [Str "extends"; Plus ws; Plus identD]);
         Star ws;
         Lit "{" ].

(** [(?: async \s+ )? (?: private \s+ | protected \s+ | public \s+ )?
     (?: static \s+ )? (?: async \s+ )? ([a-zA-Z0-9_$]+) \s*
     \( [^)]* \) \s* (?: : \s* [^{]+ )? \s* \{]   with the g flag *)
Definition methodPattern : regex :=
  seqs [ Opt (seqs [Str "async"; Plus ws]);
         Opt (alts [ seqs [Str "private"; Plus ws];
                     seqs [Str "protected"; Plus ws];
                     seqs [Str "public"; Plus ws] ]);
         Opt (seqs [Str "static"; Plus ws]);
         Opt (seqs [Str "async"; Plus ws]);
         Group 1 (Plus identD);
         Star ws;
         Lit "("; Star (Not ")"); Lit ")";
         Star ws;
         Opt (seqs [Lit ":"; Star ws; Plus (Not "{")]);
         Star ws;
         Lit "{" ].

(** The class of the single and the double quote, Q below. *)
Definition isQuote (c : ascii) : bool :=
  Ascii.eqb c "'" || (code c =? 34).

(** [import \s+
     (?: ([a-zA-Z0-9_$]+) | (?: \{ ([^}]+) \} )
       | (?: \* \s+ as \s+ ([a-zA-Z0-9_$]+) ) )
     \s+ from \s+ Q ([^Q]+) Q]   with the g flag *)
Definition importRegex : regex :=
  seqs [ Str "import"; Plus ws;
         alts [ Group 1 (Plus identD);
                seqs [Lit "{"; Group 2 (Plus (Not "}")); Lit "}"];
                seqs [Lit "*"; Plus ws; Str "as"; Plus ws;
                      Group 3 (Plus identD)] ];
         Plus ws; Str "from"; Plus ws;
         Chr isQuote;
         Group 4 (Plus (Chr (fun c => negb (isQuote c))));
         Chr isQuote ].

(** [\s+ as \s+] *)
Definition asPattern : regex := seqs [Plus ws; Str "as"; Plus ws].

(** [\. (ts|js) x? $] *)
Definition extensionPattern : regex :=
  seqs [Lit "."; Group 1 (Alt (Str "ts") (Str "js")); Opt (Lit "x");
        EndOfInput].

(** The class of the backslash and the slash. *)
Definition isSlash (c : ascii) : bool := Ascii.eqb c "\" || Ascii.eqb c "/".

(** The characters that the pattern syntax gives a meaning to. *)
Definition isSyntaxCharacter (c : ascii) : bool :=
  existsb (Ascii.eqb c)
          ["^"; "$"; "\"; "."; "*"; "+"; "?"; "("; ")"; "["; "]"; "{"; "}";
           "|"]%char.

(** The pattern that the source text [callName] denotes, for a name made
    of characters that stand for themselves, of [.] and of [$]. For a
    name with another syntax character the result is [None]: its pattern
    is outside the fragment of the pattern syntax that is modelled, and
    [None] says nothing about what [new RegExp] does with it. *)
Fixpoint namePattern (callName : string) : option (list regex) :=
  match callName with
  | EmptyString => Some []
  | String c tl =>
      atom <- (if Ascii.eqb c "." then
                 Some (Chr (fun x => negb (isLineTerminator x)))
               else if Ascii.eqb c "$" then Some EndOfInput
               else if isSyntaxCharacter c then None
               else Some (Lit c)) ;;
      atoms <- namePattern tl ;;
      Some (atom :: atoms)
  end.

(** The pattern [\b callName \s* \(] with the g flag, built by
    [new RegExp]; [None] for a name outside the fragment of
    [namePattern]. *)
Definition callRegex (callName : string) : option regex :=
  atoms <- namePattern callName ;;
  Some (seqs ([WordB] ++ atoms ++ [Star ws; Lit "("])).

(** The values of [match.index] in the [exec] loop of [extractCalls],
    for a name of the fragment of [namePattern]; the loop returns for
    every such name. For any other name the result is [None], with no
    meaning for the code. *)
Definition callSites (callName content : string) : option (list nat) :=
  re <- callRegex callName ;;
  ms <- execAll re content ;;
  Some (map index ms).

End Patterns.

(* ================================================================== *)
(** * [CodeParser] *)
(* ================================================================== *)

Import JsString.

Definition greenPalette : list string :=
  [ "#00ff41"; "#00ff9f"; "#ccff00"; "#00ffff"; "#a0ff00";
    "#39ff14"; "#7fff00"; "#00ffcc"; "#f0ff00"; "#adff2f" ].

(** The body of the loop of [normalizePath]. *)
Definition normalizeStep (stack : list string) (part : string) : list string :=
  if negb (truthy part) || String.eqb part "." then stack
  else if String.eqb part ".." then removelast stack
  else stack ++ [part].

Definition normalizePath (rawPath : string) : string :=
  let parts := splitRuns Patterns.isSlash rawPath in
  join "/" (forEach normalizeStep parts []).

Definition resolveImportPath (filePath importPath : string) : string :=
  if negb (startsWith "." importPath) then importPath
  else
    let baseDir := join "/" (removelast (split "/" filePath)) in
    normalizePath (baseDir ++ "/" ++ importPath)%string.

(** Returns the colour and the parser with [folderColors] updated. *)
Definition getFolderColor (st : Parser) (path : string) : string * Parser :=
  let segments := removelast (splitClass Patterns.isSlash path) in
  let joined := join "/" segments in
  let folder := if truthy joined then joined else "root" in
  let st' :=
    if negb (JsMap.has folder (folderColors st)) then
      let colorIdx := JsMap.size (folderColors st) mod List.length greenPalette in
      withFolderColors st
        (JsMap.set folder (nth colorIdx greenPalette "") (folderColors st))
    else st in
  let color := JsMap.get folder (folderColors st') in
  (match orElse color (Some (nth 0 greenPalette "")) with
   | Some c => c
   | None => ""
   end, st').

Definition generateId (file name : string) : string :=
  (file ++ ":" ++ name)%string.

Definition detectLanguage (fileName : string) (fallback : SupportedLanguage)
  : SupportedLanguage :=
  if endsWith ".ts" fileName || endsWith ".tsx" fileName then typescript
  else if endsWith ".js" fileName || endsWith ".jsx" fileName then javascript
  else if endsWith ".py" fileName then python
  else if endsWith ".go" fileName then go
  else if endsWith ".java" fileName then java
  else if endsWith ".rs" fileName then rust
  else fallback.

(** [content.substring(0, index).split('\n').length] *)
Definition lineAt (content : string) (index : nat) : nat :=
  List.length (split (ascii_of_nat 10) (substring0 index content)).

(** [match[i]] where the group takes part in every match. *)
Definition capture (i : nat) (m : JsRegExp.rmatch) : string :=
  match JsRegExp.group i m with
  | Some s => s
  | None => ""
  end.

Definition reservedNames : list string := ["if"; "while"; "for"; "loop"; "match"].

Definition includesName (names : list string) (name : string) : bool :=
  existsb (String.eqb name) names.

(** ** [extractTypeScriptTypes] *)

Definition typeStep (content path : string) (st : Parser) (m : JsRegExp.rmatch)
  : Parser :=
  let typeName := capture 1 m in
  let isInterface := includes "interface" (JsRegExp.text m) in
  let lineNum := lineAt content (JsRegExp.index m) in
  let typeId := (path ++ ":" ++ typeName)%string in
  if negb (JsMap.has typeId (nodes st)) then
    setNode st
      (Node.Build typeId typeName path lineNum 6 0
         (if isInterface then "#00bfff" else "#ff69b4")
         "typescript" 0
         (if isInterface then Tinterface else Ttype)
         (Some true))
  else st.

Definition extractTypeScriptTypes (st : Parser) (content path folderColor : string)
  : option Parser :=
  ms <- JsRegExp.execAll Patterns.interfacePattern content ;;
  Some (forEach (typeStep content path) ms st).

(** ** [extractClassMethods] *)

(** The walk that looks for the end of a class body, one iteration of the
    [while] loop per unit of fuel. *)
Fixpoint scanBraces (fuel : nat) (content : string) (braceCount : Z)
         (classEndIdx : nat) : option nat :=
  match fuel with
  | 0 => None
  | S fuel' =>
      if (0 <? braceCount)%Z && (classEndIdx <? String.length content) then
        let c := charAt classEndIdx content in
        let braceCount1 :=
          if match c with Some x => Ascii.eqb x "{" | None => false end
          then (braceCount + 1)%Z else braceCount in
        let braceCount2 :=
          if match c with Some x => Ascii.eqb x "}" | None => false end
          then (braceCount1 - 1)%Z else braceCount1 in
        scanBraces fuel' content braceCount2 (S classEndIdx)
      else Some classEndIdx
  end.

(** The inner loop: one method node per match of [methodPattern] in the
    text of the class. The state is the parser and the map [classMethods]
    of the class at hand. *)
Definition methodStep (content path : string) (lang : SupportedLanguage)
           (folderColor className : string) (classStartIdx : nat)
           (acc : Parser * JsMap.t string) (m : JsRegExp.rmatch)
  : Parser * JsMap.t string :=
  let (st, methods) := acc in
  let methodName := capture 1 m in
  let methodLine := lineAt content (classStartIdx + JsRegExp.index m) in
  let methodId := (path ++ ":" ++ className ++ "." ++ methodName)%string in
  (setNode st
     (Node.Build methodId (className ++ "." ++ methodName)%string path methodLine
        8 0 folderColor (languageTag lang) 0 Tmethod None),
   JsMap.set methodName methodId methods).

Definition classStep (content path : string) (lang : SupportedLanguage)
           (folderColor : string) (st : Parser) (classMatch : JsRegExp.rmatch)
  : option Parser :=
  let className := capture 1 classMatch in
  let classStartIdx := JsRegExp.index classMatch in
  classEndIdx <- scanBraces (S (String.length content)) content 1
                   (classStartIdx + String.length (JsRegExp.text classMatch)) ;;
  let classContent := substring classStartIdx classEndIdx content in
  ms <- JsRegExp.execAll Patterns.methodPattern classContent ;;
  let (st1, methods) :=
    forEach (methodStep content path lang folderColor className classStartIdx)
            ms (st, JsMap.empty) in
  let registry :=
    if negb (JsMap.has path (classMethods st1))
    then JsMap.set path JsMap.empty (classMethods st1)
    else classMethods st1 in
  Some (withClassMethods st1
          (match JsMap.get path registry with
           | Some fileClassMethods =>
               JsMap.set path (JsMap.set className methods fileClassMethods)
                         registry
           | None => registry
           end)).

Definition extractClassMethods (st : Parser) (content path : string)
           (lang : SupportedLanguage) (folderColor : string) : option Parser :=
  cs <- JsRegExp.execAll Patterns.classPattern content ;;
  forEachM (classStep content path lang folderColor) cs st.

(** ** [extractEntities] *)

Definition entityStep (content path : string) (lang : SupportedLanguage)
           (folderColor : string) (st : Parser) (m : JsRegExp.rmatch) : Parser :=
  match orElse (JsRegExp.group 1 m) (JsRegExp.group 2 m) with
  | None => st
  | Some name =>
      if negb (truthy name) || includesName reservedNames name then st
      else
        let lineNum := lineAt content (JsRegExp.index m) in
        let id := generateId path name in
        setNode st
          (Node.Build id name path lineNum 8 0 folderColor (languageTag lang)
                      0 Tfunction None)
  end.

Definition extractEntities (st : Parser) (content path : string)
           (lang : SupportedLanguage) : option Parser :=
  let (folderColor, st0) := getFolderColor st path in
  st1 <- match Patterns.patterns lang with
         | Some regex =>
             ms <- JsRegExp.execAll regex content ;;
             Some (forEach (entityStep content path lang folderColor) ms st0)
         | None => Some st0
         end ;;
  match lang with
  | typescript =>
      st2 <- extractClassMethods st1 content path lang folderColor ;;
      extractTypeScriptTypes st2 content path folderColor
  | javascript => extractClassMethods st1 content path lang folderColor
  | _ => Some st1
  end.

(** ** [extractImports] *)

(** The body of [for (const p of namedImports.split(','))]. *)
Definition namedImportStep (resolvedPath : string)
           (fileImports : JsMap.t ImportMeta) (p : string)
  : option (JsMap.t ImportMeta) :=
  pieces <- JsRegExp.split Patterns.asPattern (trim p) ;;
  let orig := nth 0 pieces "" in
  let alias := nth_error pieces 1 in
  match orElse alias (Some orig) with
  | Some localName =>
      Some (JsMap.set localName (Build_ImportMeta resolvedPath orig) fileImports)
  | None => Some fileImports
  end.

Definition importStep (path : string) (fileImports : JsMap.t ImportMeta)
           (m : JsRegExp.rmatch) : option (JsMap.t ImportMeta) :=
  let defaultImport := JsRegExp.group 1 m in
  let namedImports := JsRegExp.group 2 m in
  let starImport := JsRegExp.group 3 m in
  let importPath := capture 4 m in
  let resolvedPath := resolveImportPath path importPath in
  let fi1 :=
    match defaultImport with
    | Some d => if truthy d
                then JsMap.set d (Build_ImportMeta resolvedPath "default") fileImports
                else fileImports
    | None => fileImports
    end in
  let fi2 :=
    match starImport with
    | Some s => if truthy s
                then JsMap.set s (Build_ImportMeta resolvedPath "*") fi1
                else fi1
    | None => fi1
    end in
  match namedImports with
  | Some named =>
      if truthy named
      then forEachM (namedImportStep resolvedPath) (split "," named) fi2
      else Some fi2
  | None => Some fi2
  end.

Definition extractImports (st : Parser) (content path : string)
           (lang : SupportedLanguage) : option Parser :=
  match lang with
  | typescript | javascript =>
      ms <- JsRegExp.execAll Patterns.importRegex content ;;
      fileImports <- forEachM (importStep path) ms JsMap.empty ;;
      Some (withImportRegistry st (JsMap.set path fileImports (importRegistry st)))
  | _ => Some st
  end.

(** ** [findEnclosingEntity] *)

Definition findEnclosingEntity (st : Parser) (path : string) (line : nat)
  : option CodeNode :=
  find (fun n => Node.line n <=? line)
       (sort (fun a b => Node.line b <=? Node.line a)
             (filter (fun n => String.eqb (Node.file n) path
                               && negb (isFile (Node.type n)))
                     (JsMap.values (nodes st)))).

(** ** [createFileImportLinks] *)

Definition extensions : list string :=
  [ ""; ".ts"; ".tsx"; ".js"; ".jsx"; ".d.ts"; "/index.ts"; "/index.tsx";
    "/index.js"; "/index.jsx" ].

Definition sameEnds (source target : string) (l : CodeLink) : bool :=
  String.eqb (Link.source l) source && String.eqb (Link.target l) target.

(** [for (const ext of extensions)] up to its [break]. *)
Fixpoint probeExtensions (st : Parser) (importingFile resolvedPath : string)
         (exts : list string) : Parser :=
  match exts with
  | [] => st
  | ext :: tl =>
      let targetPath := (resolvedPath ++ ext)%string in
      if JsMap.has targetPath (nodes st) then
        match find (sameEnds importingFile targetPath) (links st) with
        | None => pushLink st (Link.Build importingFile targetPath 3 (Some Limport))
        | Some _ => st
        end
      else probeExtensions st importingFile resolvedPath tl
  end.

Definition importLinkStep (importingFile : string) (st : Parser)
           (entry : string * ImportMeta) : Parser :=
  probeExtensions st importingFile (sourceFile (snd entry)) extensions.

Definition importingFileStep (st : Parser)
           (entry : string * JsMap.t ImportMeta) : Parser :=
  let (importingFile, imports) := entry in
  if negb (JsMap.has importingFile (nodes st)) then st
  else forEach (importLinkStep importingFile) (JsMap.entries imports) st.

Definition createFileImportLinks (st : Parser) (filePaths : list string) : Parser :=
  forEach importingFileStep (JsMap.entries (importRegistry st)) st.

(** ** [extractCalls] *)

(** [x.replace(/\.(ts|js)x?$/, '').split('/').pop()] *)
Definition baseName (x : string) : string :=
  last (split "/" (JsRegExp.removeFirst Patterns.extensionPattern x)) "".

(** The loop over [fileImports.entries()] up to its [break]: the local
    name of the first binding that brings the target in. *)
Fixpoint importedAs (targetNode : CodeNode) (entries : list (string * ImportMeta))
  : option string :=
  match entries with
  | [] => None
  | (localName, meta) :: tl =>
      let targetBaseName := baseName (Node.file targetNode) in
      let importBaseName := baseName (sourceFile meta) in
      if (String.eqb targetBaseName importBaseName
          || includes (sourceFile meta) (Node.file targetNode))
         && (String.eqb (originalName meta) "*"
             || String.eqb (originalName meta) (Node.name targetNode))
      then Some localName
      else importedAs targetNode tl
  end.

(** The first half of the body of the loop over [allNodes]: [None] when
    the body ends in a [continue], the final [callName] otherwise. *)
Definition visibleAs (path : string) (lang : SupportedLanguage)
           (fileImports : option (JsMap.t ImportMeta)) (targetNode : CodeNode)
  : option string :=
  if isFile (Node.type targetNode) then None
  else
    let sameFile := String.eqb (Node.file targetNode) path in
    let imported :=
      match fileImports with
      | Some imports =>
          if negb sameFile then importedAs targetNode (JsMap.entries imports)
          else None
      | None => None
      end in
    let isVisible := sameFile || match imported with Some _ => true | None => false end in
    let callName := match imported with
                    | Some localName => localName
                    | None => Node.name targetNode
                    end in
    if negb isVisible && negb (SupportedLanguage_eqb lang python) then None
    else Some callName.

(** [node.size += 0.3] on the node that [this.nodes.get(id)] returns. *)
Definition bumpSize (st : Parser) (id : string) : Parser :=
  match JsMap.get id (nodes st) with
  | Some node => withNodes st (JsMap.set id (Node.addSize node) (nodes st))
  | None => st
  end.

(** The body of the [exec] loop for one match at [index]. *)
Definition callStep (content path : string) (targetNode : CodeNode)
           (st : Parser) (index : nat) : Parser :=
  let currentLine := lineAt content index in
  match findEnclosingEntity st path currentLine with
  | Some sourceNode =>
      if negb (String.eqb (Node.id sourceNode) (Node.id targetNode)) then
        match find (sameEnds (Node.id sourceNode) (Node.id targetNode)) (links st) with
        | None =>
            bumpSize
              (pushLink st (Link.Build (Node.id sourceNode) (Node.id targetNode)
                                       1 (Some Lcall)))
              (Node.id targetNode)
        | Some _ => st
        end
      else st
  | None => st
  end.

Section Calls.

(** [regExpExec callName content]: the values of [match.index] that the
    loop [while (true) { match = callRegex.exec(content); ... }] sees for
    the pattern built from [callName]; [None] when [new RegExp] throws
    or the loop never ends. [Patterns.callSites] computes it for the names
    whose pattern it can read, and only for those. *)
Variable regExpExec : string -> string -> option (list nat).

Definition targetStep (content path : string) (lang : SupportedLanguage)
           (fileImports : option (JsMap.t ImportMeta))
           (st : Parser) (targetNode : CodeNode) : option Parser :=
  match visibleAs path lang fileImports targetNode with
  | None => Some st
  | Some callName =>
      indices <- regExpExec callName content ;;
      Some (forEach (callStep content path targetNode) indices st)
  end.

Definition extractCalls (st : Parser) (content path : string)
           (lang : SupportedLanguage) : option Parser :=
  let fileImports := JsMap.get path (importRegistry st) in
  let allNodes := JsMap.values (nodes st) in
  forEachM (targetStep content path lang fileImports) allNodes st.

(** ** [analyzeFiles] *)

Definition readFile (mainLanguage : SupportedLanguage) (file : File)
  : FileContent :=
  let rawPath := match orElse (webkitRelativePath file) (Some (fileName file)) with
                 | Some p => p
                 | None => ""
                 end in
  Build_FileContent (fileName file) (normalizePath rawPath) (fileText file)
                    (detectLanguage (fileName file) mainLanguage).

Definition fileNodeStep (st : Parser) (f : FileContent) : Parser :=
  let (folderColor, st') := getFolderColor st (fcPath f) in
  setNode st'
    (Node.Build (fcPath f) (fcName f) (fcPath f) 0 15 0 folderColor "system"
                0 Tfile None).

Definition structureStep (all : JsMap.t CodeNode) (ls : list CodeLink)
           (node : CodeNode) : list CodeLink :=
  if negb (isFile (Node.type node)) && JsMap.has (Node.file node) all
  then ls ++ [Link.Build (Node.file node) (Node.id node) 2 (Some Lstructure)]
  else ls.

Definition emptyParser : Parser :=
  Build_Parser JsMap.empty [] JsMap.empty JsMap.empty JsMap.empty.

Definition analyzeFiles (files : list File) (mainLanguage : SupportedLanguage)
  : option GraphData :=
  let fileContents := map (readFile mainLanguage) files in
  let st1 := forEach fileNodeStep fileContents emptyParser in
  st2 <- forEachM (fun st f => extractEntities st (fcContent f) (fcPath f) (fcLang f))
                  fileContents st1 ;;
  st3 <- forEachM (fun st f => extractImports st (fcContent f) (fcPath f) (fcLang f))
                  fileContents st2 ;;
  let st4 := createFileImportLinks st3 (map fcPath fileContents) in
  st5 <- forEachM (fun st f => extractCalls st (fcContent f) (fcPath f) (fcLang f))
                  fileContents st4 ;;
  let st6 := withLinks st5
               (forEach (structureStep (nodes st5)) (JsMap.values (nodes st5))
                        (links st5)) in
  Some (Build_GraphData (JsMap.values (nodes st6)) (links st6)).

End Calls.

(* ================================================================== *)
(** * Definitions for the statements and the example projects *)
(* ================================================================== *)

Definition ends (l : CodeLink) : string * string := (Link.source l, Link.target l).

(** The kind and the two ends of an edge. *)
Definition triple (l : CodeLink) : option LinkType * string * string :=
  (Link.type l, Link.source l, Link.target l).

(** [P]: the paths of the files of the run. A node sits under its own
    id; a file node has the language [system]; any other node was
    declared in one of the files; a function node does not have a
    reserved name. *)
Definition nodeOk (P : list string) (e : string * CodeNode) : Prop :=
  Node.id (snd e) = fst e
  /\ (Node.type (snd e) = Tfile -> Node.language (snd e) = "system")
  /\ (Node.type (snd e) <> Tfile -> In (Node.file (snd e)) P)
  /\ (Node.type (snd e) = Tfunction ->
      includesName reservedNames (Node.name (snd e)) = false).

Definition nodesInv (P : list string) (ns : JsMap.t CodeNode) : Prop :=
  NoDup (JsMap.keys ns) /\ Forall (nodeOk P) ns.

(** Before the containment pass there is no containment edge, and a
    call edge is no loop. *)
Definition linkOk (l : CodeLink) : Prop :=
  Link.type l <> Some Lstructure
  /\ (Link.type l = Some Lcall -> Link.source l <> Link.target l).

Definition linksInv (ls : list CodeLink) : Prop :=
  NoDup (map ends ls) /\ Forall linkOk ls.

(** [K]: keys known to be in [nodes]. *)
Definition Inv (P K : list string) (st : Parser) : Prop :=
  nodesInv P (nodes st) /\ linksInv (links st)
  /\ (forall k, In k K -> JsMap.has k (nodes st) = true).

(** The normalized paths of the files handed to [analyzeFiles]. *)
Definition pathsOf (files : list File) (mainLanguage : SupportedLanguage)
  : list string :=
  map fcPath (map (readFile mainLanguage) files).

(** The containment edge of a node. *)
Definition structureLink (node : CodeNode) : CodeLink :=
  Link.Build (Node.file node) (Node.id node) 2 (Some Lstructure).

Definition structureLinks (all : JsMap.t CodeNode) (vs : list CodeNode)
  : list CodeLink :=
  flat_map (fun node =>
              if negb (isFile (Node.type node)) && JsMap.has (Node.file node) all
              then [structureLink node] else []) vs.

Definition newline : string := String (ascii_of_nat 10) "".

(** [a.ts] imports [helper] from [./b] under the name [h] and calls it in
    [run]; [b.ts] declares [helper]. *)
Definition aTs : File :=
  Build_File "a.ts" None
    ("import { helper as h } from './b'" ++ newline ++
     "function run() { h() }")%string.

Definition bTs : File :=
  Build_File "b.ts" None "export function helper() {}".

(** The same [a.ts] with the call written under the original name. *)
Definition aTsOriginalName : File :=
  Build_File "a.ts" None
    ("import { helper as h } from './b'" ++ newline ++
     "function run() { helper() }")%string.

Definition runNode : CodeNode :=
  Node.Build "a.ts:run" "run" "a.ts" 2 8 0 "#00ff41" "typescript" 0 Tfunction None.

Definition helperNode : CodeNode :=
  Node.Build "b.ts:helper" "helper" "b.ts" 1 8 1 "#00ff41" "typescript" 0
             Tfunction None.

Definition aTsNode : CodeNode :=
  Node.Build "a.ts" "a.ts" "a.ts" 0 15 0 "#00ff41" "system" 0 Tfile None.

Definition bTsNode : CodeNode :=
  Node.Build "b.ts" "b.ts" "b.ts" 0 15 0 "#00ff41" "system" 0 Tfile None.

Definition importEdge : CodeLink := Link.Build "a.ts" "b.ts" 3 (Some Limport).
Definition callEdge : CodeLink :=
  Link.Build "a.ts:run" "b.ts:helper" 1 (Some Lcall).

(** The graph of the project [a.ts], [b.ts]. *)
Definition exampleGraph : GraphData :=
  Build_GraphData
    [aTsNode; bTsNode; runNode; helperNode]
    [importEdge; callEdge; structureLink runNode; structureLink helperNode].

(** A file with a call on its first line and the only declaration on the
    second. *)
Definition lateDeclaration : string :=
  ("helper()" ++ newline ++ "function run() {}")%string.

Definition lateParser : Parser :=
  Build_Parser
    [ ("a.ts", aTsNode);
      ("a.ts:run", runNode);
      ("b.ts:helper",
       Node.Build "b.ts:helper" "helper" "b.ts" 1 8 0 "#00ff41" "typescript" 0
                  Tfunction None) ]
    [] [] [] [].

(** The languages whose imports [extractImports] does not read. *)
Definition withoutImports (lang : SupportedLanguage) : bool :=
  match lang with
  | typescript | javascript => false
  | _ => true
  end.

(** Two [python] files: [a.py] calls in [run] the function that [b.py]
    declares. *)
Definition aPy : File :=
  Build_File "a.py" None ("def run():" ++ newline ++ "  helper()")%string.

Definition bPy : File :=
  Build_File "b.py" None ("def helper():" ++ newline ++ "  pass")%string.

Definition helperPy : CodeNode :=
  Node.Build "b.py:helper" "helper" "b.py" 1 8 0 "#00ff41" "python" 0
             Tfunction None.

(** Two [rust] files: [a.rs] calls in [run] the function that [b.rs]
    declares. *)
Definition aRs : File := Build_File "a.rs" None "fn run() { helper(); }".
Definition bRs : File := Build_File "b.rs" None "fn helper() {}".

Definition helperRs : CodeNode :=
  Node.Build "b.rs:helper" "helper" "b.rs" 1 8 0 "#00ff41" "rust" 0
             Tfunction None.

Definition rustGraph : GraphData :=
  Build_GraphData
    [ Node.Build "a.rs" "a.rs" "a.rs" 0 15 0 "#00ff41" "system" 0 Tfile None;
      Node.Build "b.rs" "b.rs" "b.rs" 0 15 0 "#00ff41" "system" 0 Tfile None;
      Node.Build "a.rs:run" "run" "a.rs" 1 8 0 "#00ff41" "rust" 0 Tfunction None;
      helperRs ]
    [ Link.Build "a.rs" "a.rs:run" 2 (Some Lstructure);
      Link.Build "b.rs" "b.rs:helper" 2 (Some Lstructure) ].

(** The parser after [extractImports] has read [a.ts]. *)
Definition aTsImports : JsMap.t ImportMeta :=
  [("h", Build_ImportMeta "b" "helper")].

(** [helper] as [extractEntities] registers it. *)
Definition helperDeclared : CodeNode :=
  Node.Build "b.ts:helper" "helper" "b.ts" 1 8 0 "#00ff41" "typescript" 0
             Tfunction None.

(** A class with one method, whose body has an [if] statement. *)
Definition classTs : File :=
  Build_File "c.ts" None "class A { m() { if (x) { y(); } } }".

Definition ifNode : CodeNode :=
  Node.Build "c.ts:A.if" "A.if" "c.ts" 1 8 0 "#00ff41" "typescript" 0
             Tmethod None.

(** A pattern that cannot match the empty string, read off its syntax. *)
Fixpoint consumes (r : JsRegExp.regex) : bool :=
  match r with
  | JsRegExp.Chr _ => true
  | JsRegExp.Seq r1 r2 => consumes r1 || consumes r2
  | JsRegExp.Alt r1 r2 => consumes r1 && consumes r2
  | JsRegExp.Group _ r1 => consumes r1
  | JsRegExp.Eps | JsRegExp.Star _ | JsRegExp.Opt _ | JsRegExp.WordB
  | JsRegExp.EndOfInput => false
  end.

(** The number of characters from the index of a state on. *)
Definition remaining (st : JsRegExp.mstate) : nat :=
  String.length (JsRegExp.rest st).

(** [st'] is reached from [st], after at least [n] characters. *)
Definition reached (n : nat) (st st' : JsRegExp.mstate) : Prop :=
  remaining st' + n <= remaining st.

Definition cost (r : JsRegExp.regex) : nat := if consumes r then 1 else 0.

(** A class whose body is never closed: the walk stops at the end of the
    text, and the method before the stray brace is still found. *)
Definition unbalancedTs : File :=
  Build_File "u.ts" None "class A { m() { {".

(** The number of characters of [s] in the class [p]. *)
Fixpoint countChars (p : ascii -> bool) (s : string) : nat :=
  match s with
  | EmptyString => 0
  | String c tl => (if p c then 1 else 0) + countChars p tl
  end.

(** The nodes among which [findEnclosingEntity] looks: the entities of
    the file that are not the file node, in the order of [nodes]. *)
Definition candidates (st : Parser) (path : string) : list CodeNode :=
  filter (fun n => String.eqb (Node.file n) path && negb (isFile (Node.type n)))
         (JsMap.values (nodes st)).

(** The key under which [getFolderColor] keeps the colour of a path. *)
Definition folderOf (path : string) : string :=
  let joined := join "/" (removelast (splitClass Patterns.isSlash path)) in
  if truthy joined then joined else "root".

(** Of the elements of [l] whose key is at most [L], one of greatest key,
    and the first of those: what [find] meets first once [l] is sorted
    by decreasing key. *)
Fixpoint pick {A : Type} (key : A -> nat) (L : nat) (l : list A) : option A :=
  match l with
  | [] => None
  | x :: tl =>
      if key x <=? L then
        match pick key L tl with
        | Some y => if key x <? key y then Some y else Some x
        | None => Some x
        end
      else pick key L tl
  end.

(** Every character of [s] is in the class [p]. *)
Fixpoint allChars (p : ascii -> bool) (s : string) : bool :=
  match s with
  | EmptyString => true
  | String c tl => p c && allChars p tl
  end.

(** A segment of a normalized path: not empty, not [.] or [..], without
    slash or backslash. *)
Definition segmentOk (seg : string) : Prop :=
  seg <> "" /\ seg <> "." /\ seg <> ".."
  /\ allChars (fun c => negb (Patterns.isSlash c)) seg = true.

Definition isCall (l : CodeLink) : bool :=
  match Link.type l with
  | Some Lcall => true
  | _ => false
  end.

(** The number of call edges of [ls] into the entity [id]. *)
Definition callsTo (id : string) (ls : list CodeLink) : nat :=
  List.length (filter (fun l => isCall l && String.eqb (Link.target l) id) ls).

(** What every node under the key [k] looks like, kind by kind; [P] are
    the paths of the files of the run. *)
Definition nodeShape (P : list string) (k : string) (n : CodeNode) : Prop :=
  Node.id n = k /\ In (Node.file n) P /\ Node.linesOfCode n = 0
  /\ match Node.type n with
     | Tfile =>
         Node.file n = k /\ Node.line n = 0 /\ Node.size n = 15%Z
         /\ In (Node.color n) greenPalette /\ Node.isType n = None
     | Tfunction =>
         k = (Node.file n ++ ":" ++ Node.name n)%string
         /\ 1 <= Node.line n /\ Node.size n = 8%Z
         /\ In (Node.color n) greenPalette /\ Node.isType n = None
         /\ exists lang, Node.language n = languageTag lang
     | Tmethod =>
         k = (Node.file n ++ ":" ++ Node.name n)%string
         /\ 1 <= Node.line n /\ Node.size n = 8%Z
         /\ In (Node.color n) greenPalette /\ Node.isType n = None
         /\ (exists lang, Node.language n = languageTag lang)
         /\ exists className methodName,
              Node.name n = (className ++ "." ++ methodName)%string
     | Tinterface =>
         k = (Node.file n ++ ":" ++ Node.name n)%string
         /\ 1 <= Node.line n /\ Node.size n = 6%Z
         /\ Node.color n = "#00bfff" /\ Node.isType n = Some true
         /\ Node.language n = "typescript"
     | Ttype =>
         k = (Node.file n ++ ":" ++ Node.name n)%string
         /\ 1 <= Node.line n /\ Node.size n = 6%Z
         /\ Node.color n = "#ff69b4" /\ Node.isType n = Some true
         /\ Node.language n = "typescript"
     | Tclass | Tlibrary => False
     end.

(** The key [k] holds an entity that is not a file. *)
Definition nonFileAt (k : string) (ns : JsMap.t CodeNode) : Prop :=
  exists n, JsMap.get k ns = Some n /\ Node.type n <> Tfile.

(** An edge before the containment pass: both ends are keys of [ns]; it
    is an import edge of value 3, or a call edge of value 1 between two
    entities that are not files. *)
Definition linkShape (ns : JsMap.t CodeNode) (l : CodeLink) : Prop :=
  JsMap.has (Link.source l) ns = true
  /\ JsMap.has (Link.target l) ns = true
  /\ ((Link.type l = Some Limport /\ Link.value l = 3)
      \/ (Link.type l = Some Lcall /\ Link.value l = 1
          /\ nonFileAt (Link.source l) ns /\ nonFileAt (Link.target l) ns)).

(** The second invariant of a run: the shape of the nodes, the count of
    the additions to [size], the shape of the edges, and the colours of
    the folders. *)
Definition Shape (P : list string) (st : Parser) : Prop :=
  (forall k n, JsMap.get k (nodes st) = Some n ->
               nodeShape P k n /\ Node.sizeAdds n = callsTo k (links st))
  /\ Forall (linkShape (nodes st)) (links st)
  /\ (forall folder c, JsMap.get folder (folderColors st) = Some c ->
                       In c greenPalette).

Definition isStructure (l : CodeLink) : bool :=
  match Link.type l with
  | Some Lstructure => true
  | _ => false
  end.

(** ** [updateStats] of [src/App.tsx]: the three counts

    [totalFiles] is [new Set(data.nodes.map(n => n.file)).size],
    [totalFunctions] is [data.nodes.filter(n => n.type !== 'file').length],
    [totalCalls] is [data.links.filter(l => l.type === 'call').length]. *)
Definition totalFiles (data : GraphData) : nat :=
  List.length (nodup string_dec (map Node.file (graphNodes data))).

Definition totalFunctions (data : GraphData) : nat :=
  List.length (filter (fun n => negb (isFile (Node.type n))) (graphNodes data)).

Definition totalCalls (data : GraphData) : nat :=
  List.length (filter isCall (graphLinks data)).

(** A file from which nothing is extracted: its text is empty, or its
    language is [go] or [java], which have no pattern. *)
Definition silentFile (mainLanguage : SupportedLanguage) (f : File) : Prop :=
  fileText f = ""
  \/ detectLanguage (fileName f) mainLanguage = go
  \/ detectLanguage (fileName f) mainLanguage = java.

(** A parser with file nodes only, no edge, and no import binding. *)
Definition quiet (st : Parser) : Prop :=
  (forall n, In n (JsMap.values (nodes st)) -> Node.type n = Tfile)
  /\ links st = []
  /\ (forall entry, In entry (importRegistry st) -> snd entry = []).

(** ** [PARSER_CONFIG] of [src/constants.tsx] and the filter of
    [handleFilesSelected] of [src/App.tsx] *)

Definition ignoreDirs : list string :=
  [ "node_modules"; ".git"; "dist"; "build"; "venv"; "__pycache__"; "out";
    "target"; ".vscode"; "coverage"; "tests"; "target" ].

Definition supportedExtensions : list string :=
  [ ".ts"; ".tsx"; ".js"; ".jsx"; ".py"; ".go"; ".java"; ".rs" ].

(** [f.webkitRelativePath || f.name] *)
Definition filePathOf (f : File) : string :=
  match orElse (webkitRelativePath f) (Some (fileName f)) with
  | Some p => p
  | None => ""
  end.

(** The test of the filter: no ignored name occurs in the path, and the
    path ends with a supported extension. *)
Definition isSelected (f : File) : bool :=
  negb (existsb (fun d => includes d (filePathOf f)) ignoreDirs)
  && existsb (fun ext => endsWith ext (filePathOf f)) supportedExtensions.

Definition selectFiles (fileList : list File) : list File :=
  filter isSelected fileList.

(** The brace count after the characters of [s], from the count [bc]:
    the two updates of the loop of [extractClassMethods], character by
    character. *)
Fixpoint braceDepth (bc : Z) (s : string) : Z :=
  match s with
  | EmptyString => bc
  | String c tl =>
      let bc1 := if Ascii.eqb c "{" then (bc + 1)%Z else bc in
      let bc2 := if Ascii.eqb c "}" then (bc1 - 1)%Z else bc1 in
      braceDepth bc2 tl
  end.

(** A parser that has given the folder [src] its colour. *)
Definition colorParser : Parser :=
  Build_Parser [] [] [("src", "#00ff9f")] [] [].

(** The parser of the example project before [createFileImportLinks]:
    the two file nodes and the binding of [a.ts]. *)
Definition importParser : Parser :=
  Build_Parser [("a.ts", aTsNode); ("b.ts", bTsNode)] [] []
               [("a.ts", aTsImports)] [].

(** An empty file and a [go] file. *)
Definition emptyTs : File := Build_File "e.ts" None "".
Definition mainGo : File := Build_File "main.go" None "func main() { run() }".

(** [b.ts] picked in the folder [src]. *)
Definition srcBTs : File :=
  Build_File "b.ts" (Some "src/b.ts") "export function helper() {}".

(** A parser that has registered the function [Foo] of [t.ts]. *)
Definition fooNode : CodeNode :=
  Node.Build "t.ts:Foo" "Foo" "t.ts" 1 8 0 "#00ff41" "typescript" 0
             Tfunction None.

Definition fooParser : Parser :=
  Build_Parser [("t.ts:Foo", fooNode)] [] [] [] [].

(** A class with text after its closing brace. *)
Definition classText : string := "class A { m() {} } x".

(** A node without the count of the additions to its size. *)
Definition unsized (n : CodeNode) : CodeNode :=
  Node.Build (Node.id n) (Node.name n) (Node.file n) (Node.line n)
             (Node.size n) 0 (Node.color n) (Node.language n)
             (Node.linesOfCode n) (Node.type n) (Node.isType n).

(** The entities of a parser, sizes apart. *)
Definition entities (st : Parser) : list CodeNode :=
  map unsized (JsMap.values (nodes st)).

(** The parser of the example project before and after [extractCalls]
    has read [a.ts]. *)
Definition callParser : Parser :=
  Build_Parser
    [ ("a.ts", aTsNode); ("b.ts", bTsNode); ("a.ts:run", runNode);
      ("b.ts:helper", helperDeclared) ]
    [importEdge] [] [("a.ts", aTsImports); ("b.ts", [])] [].

Definition calledParser : Parser :=
  Build_Parser
    [ ("a.ts", aTsNode); ("b.ts", bTsNode); ("a.ts:run", runNode);
      ("b.ts:helper", helperNode) ]
    [importEdge; callEdge] [] [("a.ts", aTsImports); ("b.ts", [])] [].

(** The character is not a colon. *)
Definition notColon (c : ascii) : bool := negb (Ascii.eqb c ":").






(** The names whose pattern [Patterns.namePattern] reads: every character
    stands for itself in a pattern, or is [.] or [$]. *)
Definition readable (callName : string) : bool :=
  allChars (fun c => Ascii.eqb c "." || Ascii.eqb c "$"
                     || negb (Patterns.isSyntaxCharacter c))
           callName.

(** The parser when [analyzeFiles] reaches the loop over [extractCalls]:
    the file nodes, the entities, the import bindings and the import
    edges are there. *)
Definition parseFiles (files : list File) (mainLanguage : SupportedLanguage)
  : option Parser :=
  let fileContents := map (readFile mainLanguage) files in
  let st1 := forEach fileNodeStep fileContents emptyParser in
  st2 <- forEachM (fun st f => extractEntities st (fcContent f) (fcPath f) (fcLang f))
                  fileContents st1 ;;
  st3 <- forEachM (fun st f => extractImports st (fcContent f) (fcPath f) (fcLang f))
                  fileContents st2 ;;
  Some (createFileImportLinks st3 (map fcPath fileContents)).

(** The names under which [extractCalls] looks for the entities of [st]
    in the file [f]: the [callName] of every node that the loop over
    [allNodes] does not skip. *)
Definition callNames (st : Parser) (f : FileContent) : list string :=
  flat_map (fun targetNode =>
              match visibleAs (fcPath f) (fcLang f)
                              (JsMap.get (fcPath f) (importRegistry st))
                              targetNode with
              | Some callName => [callName]
              | None => []
              end)
           (JsMap.values (nodes st)).

(* ================================================================== *)
(** * Facts about maps and loops *)
(* ================================================================== *)

Section MapFacts.
Context {V : Type}.
Implicit Types (m : JsMap.t V) (k : string) (v : V).

Lemma get_set k k' v m :
  JsMap.get k (JsMap.set k' v m) =
  if String.eqb k k' then Some v else JsMap.get k m.
Proof.
  induction m as [|[k0 v0] tl IH]; simpl.
  - destruct (String.eqb_spec k k'); reflexivity.
  - destruct (String.eqb_spec k' k0) as [->|Hne]; simpl.
    + destruct (String.eqb_spec k k0); reflexivity.
    + rewrite IH.
      destruct (String.eqb_spec k k0) as [->|]; [|reflexivity].
      destruct (String.eqb_spec k0 k'); congruence.
Qed.

Lemma has_set k k' v m :
  JsMap.has k (JsMap.set k' v m) = String.eqb k k' || JsMap.has k m.
Proof.
  unfold JsMap.has. rewrite get_set.
  destruct (String.eqb k k'); reflexivity.
Qed.

Lemma has_keys k m : JsMap.has k m = true <-> In k (JsMap.keys m).
Proof.
  unfold JsMap.has.
  induction m as [|[k0 v0] tl IH]; simpl.
  - split; [discriminate | tauto].
  - destruct (String.eqb_spec k k0) as [->|Hne].
    + split; auto.
    + rewrite IH. split; [auto | intros [E|H]; congruence].
Qed.

Lemma get_In k v m : JsMap.get k m = Some v -> In (k, v) m.
Proof.
  induction m as [|[k0 v0] tl IH]; simpl; [discriminate|].
  destruct (String.eqb_spec k k0) as [->|Hne].
  - intros [= ->]. now left.
  - intros H. right. now apply IH.
Qed.

Lemma In_set k v k' v' m :
  In (k', v') (JsMap.set k v m) -> (k' = k /\ v' = v) \/ In (k', v') m.
Proof.
  induction m as [|[k0 v0] tl IH]; simpl.
  - intros [[= <- <-]|[]]. now left.
  - destruct (String.eqb_spec k k0) as [->|Hne]; simpl.
    + intros [[= <- <-]|H]; [now left | right; now right].
    + intros [E|H]; [right; now left|].
      destruct (IH H) as [?|?]; [now left | right; now right].
Qed.

Lemma keys_set k v m :
  JsMap.keys (JsMap.set k v m) =
  if JsMap.has k m then JsMap.keys m else JsMap.keys m ++ [k].
Proof.
  unfold JsMap.has, JsMap.keys.
  induction m as [|[k0 v0] tl IH]; simpl; [reflexivity|].
  destruct (String.eqb_spec k k0) as [->|Hne]; simpl; [reflexivity|].
  rewrite IH. destruct (JsMap.get k tl); reflexivity.
Qed.

Lemma NoDup_keys_set k v m :
  NoDup (JsMap.keys m) -> NoDup (JsMap.keys (JsMap.set k v m)).
Proof.
  intros Hnd. rewrite keys_set.
  destruct (JsMap.has k m) eqn:Hh; [assumption|].
  apply NoDup_app; [assumption | constructor; [intros [] | constructor] |].
  intros x Hx [<-|[]]. apply has_keys in Hx. congruence.
Qed.

End MapFacts.

Section LoopFacts.
Context {A S : Type}.

(** An invariant of the body is an invariant of the loop. *)
Lemma forEach_inv (I : S -> Prop) (body : S -> A -> S) (xs : list A) :
  (forall s x, In x xs -> I s -> I (body s x)) ->
  forall s, I s -> I (forEach body xs s).
Proof.
  unfold forEach. induction xs as [|x tl IH]; simpl; intros Hb s Hs.
  - assumption.
  - apply IH; [intros; apply Hb; auto | apply Hb; auto].
Qed.

Lemma forEachM_inv (I : S -> Prop) (body : S -> A -> option S) (xs : list A) :
  (forall s x s', In x xs -> I s -> body s x = Some s' -> I s') ->
  forall s s', I s -> forEachM body xs s = Some s' -> I s'.
Proof.
  induction xs as [|x tl IH]; simpl; intros Hb s s' Hs Hr.
  - injection Hr as <-. assumption.
  - destruct (body s x) as [s1|] eqn:E; simpl in Hr; [|discriminate].
    apply (IH (fun s0 y s0' Hy => Hb s0 y s0' (or_intror Hy)) s1 s');
      [eapply Hb; eauto; now left | assumption].
Qed.

(** A loop whose body always returns, returns. *)
Lemma forEachM_total (body : S -> A -> option S) (xs : list A) :
  (forall s x, In x xs -> exists s', body s x = Some s') ->
  forall s, exists s', forEachM body xs s = Some s'.
Proof.
  induction xs as [|x tl IH]; simpl; intros Hb s.
  - eauto.
  - destruct (Hb s x (or_introl eq_refl)) as [s1 ->]. simpl.
    apply IH. intros; apply Hb; auto.
Qed.

End LoopFacts.

Lemma obind_Some {A B : Type} (o : option A) (f : A -> option B) (b : B) :
  obind o f = Some b -> exists a, o = Some a /\ f a = Some b.
Proof. destruct o as [a|]; simpl; [eauto | discriminate]. Qed.

(** Splits the hypothesis [x <- e ;; k = Some r]. *)
Ltac bind_inv H :=
  let a := fresh "a" in
  let Ha := fresh "Ha" in
  apply obind_Some in H; destruct H as (a & Ha & H).

Lemma In_insertSorted {A : Type} (before : A -> A -> bool) (x y : A) (l : list A) :
  In y (insertSorted before x l) -> y = x \/ In y l.
Proof.
  induction l as [|z tl IH]; simpl.
  - intros [<-|[]]; now left.
  - destruct (before x z); simpl.
    + intros [<-|H]; [now left | now right].
    + intros [<-|H]; [right; now left|].
      destruct (IH H); [now left | right; now right].
Qed.

Lemma In_sort {A : Type} (before : A -> A -> bool) (y : A) (l : list A) :
  In y (sort before l) -> In y l.
Proof.
  unfold sort. induction l as [|x tl IH]; simpl; [tauto|].
  intros H. apply In_insertSorted in H. destruct H; [now left | right; auto].
Qed.

(* ================================================================== *)
(** * The invariant of an analysis run *)
(* ================================================================== *)

Section Invariant.

Variable P : list string.

Lemma Inv_same K st st' :
  nodes st' = nodes st -> links st' = links st -> Inv P K st -> Inv P K st'.
Proof. unfold Inv. intros -> ->. tauto. Qed.

Lemma Inv_weaken K K' st :
  (forall k, In k K' -> In k K) -> Inv P K st -> Inv P K' st.
Proof.
  unfold Inv. intros H (Hn & Hl & Hk).
  split; [exact Hn | split; [exact Hl | intros k Hin; apply Hk; auto]].
Qed.

Lemma Inv_setNode K st n :
  nodeOk P (Node.id n, n) -> Inv P K st -> Inv P K (setNode st n).
Proof.
  intros Hok ((Hnd & Hall) & Hl & Hk). unfold setNode, Inv; simpl.
  split; [split | split; [exact Hl|]].
  - now apply NoDup_keys_set.
  - apply Forall_forall. intros [k v] Hin.
    apply In_set in Hin. destruct Hin as [[-> ->]|Hin]; [assumption|].
    rewrite Forall_forall in Hall. now apply Hall.
  - intros k Hin. rewrite has_set, (Hk k Hin). apply orb_true_r.
Qed.

Lemma Inv_setNode_has K st n :
  nodeOk P (Node.id n, n) -> Inv P K st -> Inv P (Node.id n :: K) (setNode st n).
Proof.
  intros Hok HI. destruct (Inv_setNode Hok HI) as (Hn & Hl & Hk).
  split; [exact Hn | split; [exact Hl|]].
  intros k [<-|Hin]; [|now apply Hk].
  unfold setNode; simpl. rewrite has_set, String.eqb_refl. reflexivity.
Qed.

Lemma find_sameEnds_None s t ls :
  find (sameEnds s t) ls = None -> ~ In (s, t) (map ends ls).
Proof.
  intros Hf Hin. apply in_map_iff in Hin. destruct Hin as (l & He & Hin).
  apply (find_none _ _ Hf) in Hin. unfold sameEnds, ends in *.
  injection He as <- <-. rewrite !String.eqb_refl in Hin. discriminate.
Qed.

Lemma Inv_pushLink K st l :
  linkOk l ->
  find (sameEnds (Link.source l) (Link.target l)) (links st) = None ->
  Inv P K st -> Inv P K (pushLink st l).
Proof.
  intros Hok Hf (Hn & (Hnd & Hall) & Hk). unfold pushLink, Inv; simpl.
  split; [exact Hn | split; [split | exact Hk]].
  - rewrite map_app. simpl. apply NoDup_app.
    + assumption.
    + constructor; [intros [] | constructor].
    + intros x Hx [<-|[]]. now apply (find_sameEnds_None _ _ _ Hf).
  - apply Forall_app. split; [assumption | now constructor].
Qed.

Lemma nodeOk_addSize k n : nodeOk P (k, n) -> nodeOk P (k, Node.addSize n).
Proof. unfold nodeOk. simpl. tauto. Qed.

Lemma Inv_bumpSize K st id : Inv P K st -> Inv P K (bumpSize st id).
Proof.
  intros HI. unfold bumpSize.
  destruct (JsMap.get id (nodes st)) as [node|] eqn:Hg; [|assumption].
  destruct HI as ((Hnd & Hall) & Hl & Hk). unfold Inv; simpl.
  assert (Hnode : nodeOk P (id, node)).
  { rewrite Forall_forall in Hall. apply Hall. now apply get_In. }
  split; [split | split; [exact Hl|]].
  - now apply NoDup_keys_set.
  - apply Forall_forall. intros [k v] Hin.
    apply In_set in Hin. destruct Hin as [[-> ->]|Hin].
    + now apply nodeOk_addSize.
    + rewrite Forall_forall in Hall. now apply Hall.
  - intros k Hin. rewrite has_set, (Hk k Hin). apply orb_true_r.
Qed.

Lemma Inv_getFolderColor K st path :
  Inv P K st -> Inv P K (snd (getFolderColor st path)).
Proof.
  intros HI. unfold getFolderColor. simpl.
  match goal with |- context [if ?c then _ else _] => destruct c end;
    [eapply Inv_same; [| |exact HI]; reflexivity | exact HI].
Qed.

End Invariant.

(** Proves [nodeOk] of a node that is written out. *)
Ltac node_ok :=
  unfold nodeOk; simpl;
  repeat match goal with |- context [if ?c then _ else _] => destruct c end;
  repeat split; intros; solve [congruence | assumption | reflexivity].

Section ExtractionKeepsInv.

Variables (P K : list string).

Lemma Inv_typeStep content path st m :
  In path P -> Inv P K st -> Inv P K (typeStep content path st m).
Proof.
  intros HP HI. unfold typeStep.
  destruct (negb (JsMap.has _ (nodes st))); [|exact HI].
  apply Inv_setNode; [node_ok | exact HI].
Qed.

Lemma Inv_extractTypeScriptTypes st content path folderColor st' :
  In path P -> Inv P K st ->
  extractTypeScriptTypes st content path folderColor = Some st' ->
  Inv P K st'.
Proof.
  intros HP HI H. unfold extractTypeScriptTypes in H. bind_inv H.
  injection H as <-.
  apply forEach_inv; [|exact HI]. intros; now apply Inv_typeStep.
Qed.

Lemma Inv_methodStep content path lang folderColor className start acc m :
  In path P -> Inv P K (fst acc) ->
  Inv P K (fst (methodStep content path lang folderColor className start acc m)).
Proof.
  intros HP HI. destruct acc as [st methods]. simpl in *.
  apply Inv_setNode; [node_ok | exact HI].
Qed.

Lemma Inv_classStep content path lang folderColor st m st' :
  In path P -> Inv P K st ->
  classStep content path lang folderColor st m = Some st' -> Inv P K st'.
Proof.
  intros HP HI H. unfold classStep in H. bind_inv H. bind_inv H.
  match type of H with
  | context [forEach ?f ?xs ?s] =>
      assert (Hacc : Inv P K (fst (forEach f xs s)))
        by (apply (forEach_inv (fun acc => Inv P K (fst acc)));
            [intros; now apply Inv_methodStep | exact HI]);
      destruct (forEach f xs s) as [st1 methods]
  end.
  injection H as <-. eapply Inv_same; [| |exact Hacc]; reflexivity.
Qed.

Lemma Inv_extractClassMethods st content path lang folderColor st' :
  In path P -> Inv P K st ->
  extractClassMethods st content path lang folderColor = Some st' ->
  Inv P K st'.
Proof.
  intros HP HI H. unfold extractClassMethods in H. bind_inv H.
  eapply forEachM_inv; [|exact HI|exact H].
  intros; eapply Inv_classStep; eauto.
Qed.

Lemma Inv_entityStep content path lang folderColor st m :
  In path P -> Inv P K st ->
  Inv P K (entityStep content path lang folderColor st m).
Proof.
  intros HP HI. unfold entityStep.
  destruct (orElse _ _) as [name|]; [|exact HI].
  destruct (negb (truthy name) || includesName reservedNames name) eqn:E;
    [exact HI|].
  apply orb_false_elim in E. destruct E as [_ E].
  apply Inv_setNode; [node_ok | exact HI].
Qed.

Lemma Inv_extractEntities st content path lang st' :
  In path P -> Inv P K st ->
  extractEntities st content path lang = Some st' -> Inv P K st'.
Proof.
  intros HP HI H. unfold extractEntities in H.
  pose proof (Inv_getFolderColor path HI) as HI0.
  destruct (getFolderColor st path) as [folderColor st0]. simpl in HI0.
  bind_inv H.
  assert (HI1 : Inv P K a).
  { destruct (Patterns.patterns lang) as [regex|].
    - bind_inv Ha. injection Ha as <-.
      apply forEach_inv; [|exact HI0]. intros; now apply Inv_entityStep.
    - injection Ha as <-. exact HI0. }
  destruct lang; try (injection H as <-; exact HI1).
  - bind_inv H.
    eapply Inv_extractTypeScriptTypes; [exact HP| |exact H].
    eapply Inv_extractClassMethods; [exact HP|exact HI1|exact Ha0].
  - eapply Inv_extractClassMethods; [exact HP|exact HI1|exact H].
Qed.

Lemma Inv_extractImports st content path lang st' :
  Inv P K st -> extractImports st content path lang = Some st' -> Inv P K st'.
Proof.
  intros HI H. unfold extractImports in H.
  destruct lang; try (injection H as <-; exact HI);
    bind_inv H; bind_inv H; injection H as <-;
    (eapply Inv_same; [| |exact HI]; reflexivity).
Qed.

Lemma Inv_probeExtensions st importingFile resolvedPath exts :
  Inv P K st -> Inv P K (probeExtensions st importingFile resolvedPath exts).
Proof.
  intros HI. induction exts as [|ext tl IH]; simpl; [exact HI|].
  destruct (JsMap.has _ (nodes st)); [|exact IH].
  destruct (find _ (links st)) eqn:Hf; [exact HI|].
  apply Inv_pushLink; [split; simpl; congruence | exact Hf | exact HI].
Qed.

Lemma Inv_createFileImportLinks st filePaths :
  Inv P K st -> Inv P K (createFileImportLinks st filePaths).
Proof.
  intros HI. unfold createFileImportLinks.
  apply forEach_inv; [|exact HI].
  intros s [importingFile imports] _ Hs. unfold importingFileStep.
  destruct (negb (JsMap.has importingFile (nodes s))); [exact Hs|].
  apply forEach_inv; [|exact Hs].
  intros; now apply Inv_probeExtensions.
Qed.

Lemma Inv_callStep content path targetNode st index :
  Inv P K st -> Inv P K (callStep content path targetNode st index).
Proof.
  intros HI. unfold callStep.
  destruct (findEnclosingEntity st path _) as [sourceNode|]; [|exact HI].
  destruct (String.eqb_spec (Node.id sourceNode) (Node.id targetNode)) as [|Hne];
    simpl; [exact HI|].
  destruct (find _ (links st)) eqn:Hf; [exact HI|].
  apply Inv_bumpSize, Inv_pushLink; [|exact Hf|exact HI].
  split; simpl; [congruence | intros _; exact Hne].
Qed.

Lemma Inv_extractCalls regExpExec st content path lang st' :
  Inv P K st -> extractCalls regExpExec st content path lang = Some st' ->
  Inv P K st'.
Proof.
  intros HI H. unfold extractCalls in H.
  eapply forEachM_inv; [|exact HI|exact H].
  intros s targetNode s' _ Hs Hb. unfold targetStep in Hb.
  destruct (visibleAs _ _ _ _); [|injection Hb as <-; exact Hs].
  bind_inv Hb. injection Hb as <-.
  apply forEach_inv; [|exact Hs]. intros; now apply Inv_callStep.
Qed.

Lemma Inv_fileNodeStep st f :
  Inv P K st -> Inv P (fcPath f :: K) (fileNodeStep st f).
Proof.
  intros HI. unfold fileNodeStep.
  pose proof (Inv_getFolderColor (fcPath f) HI) as HI0.
  destruct (getFolderColor st (fcPath f)) as [folderColor st0]. simpl in HI0.
  match goal with |- Inv _ _ (setNode _ ?n) =>
    change (fcPath f) with (Node.id n) at 1 end.
  apply Inv_setNode_has; [node_ok | exact HI0].
Qed.

End ExtractionKeepsInv.

(* ================================================================== *)
(** * The graph of a run *)
(* ================================================================== *)

Lemma forEach_structureStep all vs ls :
  forEach (structureStep all) vs ls = ls ++ structureLinks all vs.
Proof.
  unfold forEach. revert ls.
  induction vs as [|v tl IH]; intros ls; simpl.
  - now rewrite app_nil_r.
  - rewrite IH. unfold structureStep, structureLink.
    destruct (negb (isFile (Node.type v)) && JsMap.has (Node.file v) all); simpl.
    + now rewrite <- app_assoc.
    + reflexivity.
Qed.

Lemma Inv_emptyParser P : Inv P [] emptyParser.
Proof.
  unfold Inv, nodesInv, linksInv; simpl.
  repeat split; try constructor. intros k [].
Qed.

Lemma Inv_fileNodes P fcs : forall K st,
  Inv P K st ->
  Inv P (List.rev (map fcPath fcs) ++ K) (forEach fileNodeStep fcs st).
Proof.
  unfold forEach.
  induction fcs as [|f tl IH]; intros K st HI; simpl; [exact HI|].
  rewrite <- app_assoc. simpl. apply IH. now apply Inv_fileNodeStep.
Qed.

(** What [analyzeFiles] returns: the nodes of a parser that satisfies the
    invariant, and its edges followed by the containment edges. *)
Lemma analyzeFiles_graph regExpExec files mainLanguage g :
  analyzeFiles regExpExec files mainLanguage = Some g ->
  exists st,
    Inv (pathsOf files mainLanguage) (pathsOf files mainLanguage) st
    /\ graphNodes g = JsMap.values (nodes st)
    /\ graphLinks g =
       links st ++ structureLinks (nodes st) (JsMap.values (nodes st)).
Proof.
  intros H. unfold analyzeFiles in H.
  set (fcs := map (readFile mainLanguage) files) in *.
  set (P := pathsOf files mainLanguage).
  assert (HP : forall f, In f fcs -> In (fcPath f) P)
    by (intros f Hf; unfold P, pathsOf; now apply in_map).
  assert (H1 : Inv P P (forEach fileNodeStep fcs emptyParser)).
  { eapply Inv_weaken; [|apply Inv_fileNodes, Inv_emptyParser].
    intros k Hk. apply in_or_app. left. rewrite <- in_rev. exact Hk. }
  bind_inv H. rename a into st2, Ha into H2.
  bind_inv H. rename a into st3, Ha into H3.
  bind_inv H. rename a into st5, Ha into H5.
  injection H as <-. simpl.
  exists st5. split; [|split; [reflexivity | apply forEach_structureStep]].
  eapply forEachM_inv; [| |exact H5].
  { intros s f s' _ Hs Hb. cbv beta in Hb. eapply Inv_extractCalls; eauto. }
  apply Inv_createFileImportLinks.
  eapply forEachM_inv; [| |exact H3].
  { intros s f s' _ Hs Hb. cbv beta in Hb. eapply Inv_extractImports; eauto. }
  eapply forEachM_inv; [| |exact H2]; [|exact H1].
  intros s f s' Hf Hs Hb. cbv beta in Hb. eapply Inv_extractEntities; eauto.
Qed.

Lemma In_values_entry {V : Type} (v : V) (m : JsMap.t V) :
  In v (JsMap.values m) -> exists k, In (k, v) m.
Proof.
  unfold JsMap.values. intros H. apply in_map_iff in H.
  destruct H as ([k v'] & <- & Hin). now exists k.
Qed.

Lemma nodesInv_ids P ns :
  nodesInv P ns -> map Node.id (JsMap.values ns) = JsMap.keys ns.
Proof.
  intros [_ Hall]. unfold JsMap.values, JsMap.keys. rewrite map_map.
  apply map_ext_in. intros [k v] Hin. rewrite Forall_forall in Hall.
  apply (Hall _ Hin).
Qed.

Lemma isFile_false t : t <> Tfile -> isFile t = false.
Proof. destruct t; simpl; congruence. Qed.

Lemma In_structureLinks all vs l :
  In l (structureLinks all vs) ->
  exists node, In node vs /\ l = structureLink node.
Proof.
  unfold structureLinks. intros H. apply in_flat_map in H.
  destruct H as (node & Hin & Hl). exists node. split; [exact Hin|].
  destruct (negb (isFile (Node.type node)) && JsMap.has (Node.file node) all);
    simpl in Hl; [destruct Hl as [<-|[]]; reflexivity | destruct Hl].
Qed.

(** The containment edges of nodes with different ids are different. *)
Lemma NoDup_structureLinks all vs :
  NoDup (map Node.id vs) -> NoDup (map triple (structureLinks all vs)).
Proof.
  induction vs as [|v tl IH]; simpl; intros Hnd; [constructor|].
  inversion Hnd as [|? ? Hnotin Hnd']; subst.
  destruct (negb (isFile (Node.type v)) && JsMap.has (Node.file v) all); simpl;
    [|now apply IH].
  constructor; [|now apply IH].
  intros Hin. apply in_map_iff in Hin. destruct Hin as (l & Ht & Hl).
  apply In_structureLinks in Hl. destruct Hl as (node & Hnode & ->).
  apply Hnotin. apply in_map_iff. exists node. split; [|exact Hnode].
  unfold triple, structureLink in Ht. simpl in Ht. congruence.
Qed.

Lemma NoDup_triple_of_ends ls : NoDup (map ends ls) -> NoDup (map triple ls).
Proof.
  intros H. apply (NoDup_map_inv (fun t => (snd (fst t), snd t))).
  rewrite map_map. exact H.
Qed.

(* ================================================================== *)
(** * The graph of the example project *)
(* ================================================================== *)

Lemma analyzeFiles_example :
  analyzeFiles Patterns.callSites [aTs; bTs] typescript = Some exampleGraph.
Proof. vm_compute. reflexivity. Qed.

(* ================================================================== *)
(** * Properties of every run *)
(* ================================================================== *)

(** C4 (edge uniqueness). In the graph that a run of [analyzeFiles]
    returns, whatever the files, the main language and the behaviour of
    the call pattern, no two edges have the same kind, source and target:
    the list of the (kind, source, target) triples of the edges has no
    repetition. *)
Theorem edge_uniqueness regExpExec files mainLanguage g :
  analyzeFiles regExpExec files mainLanguage = Some g ->
  NoDup (map triple (graphLinks g)).
Proof.
  intros H. apply analyzeFiles_graph in H.
  destruct H as (st & (Hn & (Hnd & Hall) & _) & _ & ->).
  rewrite map_app. apply NoDup_app.
  - now apply NoDup_triple_of_ends.
  - apply NoDup_structureLinks.
    rewrite (nodesInv_ids Hn). apply Hn.
  - intros t Ht Hs.
    apply in_map_iff in Ht. destruct Ht as (l & <- & Hl).
    apply in_map_iff in Hs. destruct Hs as (l' & Heq & Hl').
    apply In_structureLinks in Hl'. destruct Hl' as (node & _ & ->).
    rewrite Forall_forall in Hall. destruct (Hall l Hl) as [Hns _].
    apply Hns. unfold triple, structureLink in Heq. simpl in Heq. congruence.
Qed.

Lemma edge_uniqueness_witness :
  analyzeFiles Patterns.callSites [aTs; bTs] typescript = Some exampleGraph
  /\ NoDup (map triple (graphLinks exampleGraph)).
Proof.
  split; [exact analyzeFiles_example|].
  apply (edge_uniqueness Patterns.callSites [aTs; bTs] typescript).
  exact analyzeFiles_example.
Defined.

(** C7 (no self-loops). In the graph that a run returns, a call edge
    never has its source equal to its target. *)
Theorem no_self_loops regExpExec files mainLanguage g l :
  analyzeFiles regExpExec files mainLanguage = Some g ->
  In l (graphLinks g) ->
  Link.type l = Some Lcall ->
  Link.source l <> Link.target l.
Proof.
  intros H Hl Ht. apply analyzeFiles_graph in H.
  destruct H as (st & (_ & (_ & Hall) & _) & _ & Hg). rewrite Hg in Hl.
  apply in_app_or in Hl. destruct Hl as [Hl|Hl].
  - rewrite Forall_forall in Hall. now apply (Hall l Hl).
  - apply In_structureLinks in Hl. destruct Hl as (node & _ & ->).
    discriminate Ht.
Qed.

Lemma no_self_loops_witness :
  (analyzeFiles Patterns.callSites [aTs; bTs] typescript = Some exampleGraph
   /\ In callEdge (graphLinks exampleGraph)
   /\ Link.type callEdge = Some Lcall)
  /\ Link.source callEdge <> Link.target callEdge.
Proof.
  assert (Hin : In callEdge (graphLinks exampleGraph))
    by (simpl; right; left; reflexivity).
  split; [split; [exact analyzeFiles_example | split; [exact Hin | reflexivity]]|].
  exact (no_self_loops Patterns.callSites [aTs; bTs] typescript callEdge
           analyzeFiles_example Hin eq_refl).
Defined.

(** C9, as the code has it. In the graph that a run returns, every node
    of kind file has the language tag [system]. *)
Theorem file_nodes_language_system regExpExec files mainLanguage g n :
  analyzeFiles regExpExec files mainLanguage = Some g ->
  In n (graphNodes g) ->
  Node.type n = Tfile ->
  Node.language n = "system".
Proof.
  intros H Hn Ht. apply analyzeFiles_graph in H.
  destruct H as (st & ((_ & Hall) & _) & Hg & _). rewrite Hg in Hn.
  destruct (In_values_entry _ _ Hn) as (k & Hin).
  rewrite Forall_forall in Hall. now apply (Hall _ Hin).
Qed.

Lemma file_nodes_language_system_witness :
  (analyzeFiles Patterns.callSites [aTs; bTs] typescript = Some exampleGraph
   /\ In aTsNode (graphNodes exampleGraph)
   /\ Node.type aTsNode = Tfile)
  /\ Node.language aTsNode = "system".
Proof.
  assert (Hin : In aTsNode (graphNodes exampleGraph))
    by (simpl; left; reflexivity).
  split; [split; [exact analyzeFiles_example | split; [exact Hin | reflexivity]]|].
  exact (file_nodes_language_system Patterns.callSites [aTs; bTs] typescript
           aTsNode analyzeFiles_example Hin eq_refl).
Defined.

(** C9 with the tag [structural] of the specification does not hold:
    the file node of [a.ts] in the graph
    of the example project does not have the language tag [structural]. *)
Lemma file_nodes_language_not_structural :
  analyzeFiles Patterns.callSites [aTs; bTs] typescript = Some exampleGraph
  /\ In aTsNode (graphNodes exampleGraph)
  /\ Node.type aTsNode = Tfile
  /\ Node.language aTsNode <> "structural".
Proof.
  split; [exact analyzeFiles_example|].
  split; [simpl; left; reflexivity|].
  split; [reflexivity | simpl; discriminate].
Qed.

(* ================================================================== *)
(** * Call sites without an enclosing entity *)
(* ================================================================== *)

Lemma findEnclosingEntity_None st path line :
  (forall n, In n (JsMap.values (nodes st)) ->
             Node.file n = path -> Node.type n <> Tfile ->
             line < Node.line n) ->
  findEnclosingEntity st path line = None.
Proof.
  intros H. unfold findEnclosingEntity.
  match goal with |- find ?p ?l = None =>
    destruct (find p l) as [n|] eqn:Hf; [|reflexivity] end.
  apply find_some in Hf. destruct Hf as [Hin Hle].
  apply In_sort, filter_In in Hin. destruct Hin as [Hin Hc].
  apply andb_prop in Hc. destruct Hc as [Hfile Htype].
  apply String.eqb_eq in Hfile.
  assert (Hnf : Node.type n <> Tfile)
    by (intros E; rewrite E in Htype; discriminate).
  specialize (H n Hin Hfile Hnf). apply Nat.leb_le in Hle. lia.
Qed.

(** C10. For every file text, path, target entity and call-site match at
    [index]: when no entity of the file other than the file node is
    declared at a line less than or equal to the line of the match, the
    body of the loop leaves the parser as it is: no edge is pushed and no
    size is increased. *)
Theorem call_without_enclosing_entity_dropped
        content path targetNode st index :
  (forall n, In n (JsMap.values (nodes st)) ->
             Node.file n = path -> Node.type n <> Tfile ->
             lineAt content index < Node.line n) ->
  callStep content path targetNode st index = st.
Proof.
  intros H. unfold callStep.
  now rewrite (@findEnclosingEntity_None st path (lineAt content index) H).
Qed.

Lemma call_without_enclosing_entity_dropped_witness :
  callStep lateDeclaration "a.ts" helperNode lateParser 0 = lateParser.
Proof.
  apply (@call_without_enclosing_entity_dropped
           lateDeclaration "a.ts" helperNode lateParser 0).
  intros n Hin Hfile Htype. simpl in Hin.
  destruct Hin as [<-|[<-|[<-|[]]]].
  - exfalso. apply Htype. reflexivity.
  - vm_compute. lia.
  - discriminate Hfile.
Defined.

(* ================================================================== *)
(** * Visibility in files without extracted imports *)
(* ================================================================== *)

(** C3, as the code has it. In a [python] file every entity that is not a
    file is looked for, whatever file declared it, and under its own
    name when the file has no import bindings. In a [go], [java] or
    [rust] file, which has no import bindings either, an entity is looked
    for exactly when the file itself declares it. And a call in a
    [python] file does give an edge to an entity of another file: the
    graph of [a.py] and [b.py] has the call edge from [a.py:run] to
    [b.py:helper]. *)
Theorem visibility_without_imports :
  (forall path fileImports targetNode,
      Node.type targetNode <> Tfile ->
      exists callName,
        visibleAs path python fileImports targetNode = Some callName
        /\ (fileImports = None -> callName = Node.name targetNode))
  /\ (forall path lang targetNode,
        Node.type targetNode <> Tfile ->
        withoutImports lang = true -> lang <> python ->
        visibleAs path lang None targetNode =
        if String.eqb (Node.file targetNode) path
        then Some (Node.name targetNode) else None)
  /\ (exists g,
        analyzeFiles Patterns.callSites [aPy; bPy] python = Some g
        /\ In (Link.Build "a.py:run" "b.py:helper" 1 (Some Lcall))
              (graphLinks g)).
Proof.
  split; [|split].
  - intros path fileImports targetNode Ht. apply isFile_false in Ht.
    unfold visibleAs. rewrite Ht. simpl. rewrite andb_false_r.
    eexists. split; [reflexivity|]. intros ->. reflexivity.
  - intros path lang targetNode Ht Hw Hp. apply isFile_false in Ht.
    unfold visibleAs. rewrite Ht.
    destruct lang; try discriminate Hw; try congruence;
      destruct (String.eqb (Node.file targetNode) path); reflexivity.
  - eexists. split; [vm_compute; reflexivity|].
    simpl. left. reflexivity.
Qed.

Lemma visibility_without_imports_witness :
  Node.type helperPy <> Tfile
  /\ (exists callName,
         visibleAs "a.py" python None helperPy = Some callName
         /\ (@None (JsMap.t ImportMeta) = None -> callName = Node.name helperPy))
  /\ (withoutImports rust = true /\ rust <> python)
  /\ visibleAs "a.py" rust None helperPy =
     if String.eqb (Node.file helperPy) "a.py"
     then Some (Node.name helperPy) else None.
Proof.
  assert (Ht : Node.type helperPy <> Tfile) by (simpl; discriminate).
  assert (Hr : rust <> python) by discriminate.
  split; [exact Ht|].
  split; [exact (proj1 visibility_without_imports "a.py" None helperPy Ht)|].
  split; [split; [reflexivity | exact Hr]|].
  exact (proj1 (proj2 visibility_without_imports) "a.py" rust helperPy Ht
               eq_refl Hr).
Defined.

(** C3 as the specification words it does not hold for [rust]: [extractImports] reads no
    import of a [rust] file, and yet the entity [helper] of [b.rs] is not
    looked for in [a.rs]; the call in [run] gives no edge, the graph has
    the two containment edges only. *)
Lemma rust_entity_not_visible :
  withoutImports rust = true
  /\ Node.type helperRs <> Tfile
  /\ visibleAs "a.rs" rust None helperRs = None
  /\ Patterns.callSites "helper" (fileText aRs) = Some [11]
  /\ analyzeFiles Patterns.callSites [aRs; bRs] rust = Some rustGraph.
Proof.
  split; [reflexivity|].
  split; [simpl; discriminate|].
  split; [reflexivity|].
  split; vm_compute; reflexivity.
Qed.

(* ================================================================== *)
(** * The import and call examples *)
(* ================================================================== *)

(** C1 (call resolution). For [a.ts], which imports [helper] from [./b]
    as [h] and has the text [h()] in the function [run], and [b.ts],
    which declares [helper]: the graph has the call edge from [a.ts:run]
    to [b.ts:helper]. The entity is looked for in [a.ts] under the local
    name [h], found at index 51, on line 2; with [helper()] written in
    [run] instead, the graph has no call edge at all. *)
Theorem call_resolution_example :
  (exists g,
      analyzeFiles Patterns.callSites [aTs; bTs] typescript = Some g
      /\ In (Link.Build "a.ts:run" "b.ts:helper" 1 (Some Lcall)) (graphLinks g))
  /\ visibleAs "a.ts" typescript (Some aTsImports) helperDeclared = Some "h"
  /\ Patterns.callSites "h" (fileText aTs) = Some [51]
  /\ lineAt (fileText aTs) 51 = 2
  /\ (exists g',
         analyzeFiles Patterns.callSites [aTsOriginalName; bTs] typescript
         = Some g'
         /\ forall l, In l (graphLinks g') -> Link.type l <> Some Lcall).
Proof.
  split.
  { exists exampleGraph. split; [exact analyzeFiles_example|].
    simpl. right. left. reflexivity. }
  split; [vm_compute; reflexivity|].
  split; [vm_compute; reflexivity|].
  split; [vm_compute; reflexivity|].
  eexists. split; [vm_compute; reflexivity|].
  intros l Hl. simpl in Hl.
  repeat (destruct Hl as [<-|Hl]; [discriminate|]). destruct Hl.
Qed.

(** C2, as the code has it (import resolution). Resolving the imports of
    [a.ts] binds [h] to the source file [b], the specifier resolved
    against the directory of [a.ts] and without an extension, and the
    original name [helper]; and the graph of [a.ts] and [b.ts] has the
    import edge from [a.ts] to [b.ts], found by trying the extensions. *)
Theorem import_resolution_example :
  extractImports emptyParser (fileText aTs) "a.ts" typescript
  = Some (withImportRegistry emptyParser [("a.ts", aTsImports)])
  /\ JsMap.get "h" aTsImports = Some (Build_ImportMeta "b" "helper")
  /\ (exists g,
         analyzeFiles Patterns.callSites [aTs; bTs] typescript = Some g
         /\ In (Link.Build "a.ts" "b.ts" 3 (Some Limport)) (graphLinks g)).
Proof.
  split; [vm_compute; reflexivity|].
  split; [reflexivity|].
  exists exampleGraph. split; [exact analyzeFiles_example|].
  simpl. left. reflexivity.
Qed.

(** C2 with the source file [b.ts] of the specification does not hold:
    the binding of [h] that resolving the
    imports of [a.ts] registers does not have the source file [b.ts]. *)
Lemma import_binding_has_no_extension :
  (exists st,
      extractImports emptyParser (fileText aTs) "a.ts" typescript = Some st
      /\ exists imports,
           JsMap.get "a.ts" (importRegistry st) = Some imports
           /\ JsMap.get "h" imports = Some (Build_ImportMeta "b" "helper"))
  /\ Build_ImportMeta "b" "helper" <> Build_ImportMeta "b.ts" "helper".
Proof.
  split; [|discriminate].
  eexists. split; [vm_compute; reflexivity|].
  eexists. split; reflexivity.
Qed.

(* ================================================================== *)
(** * Reserved words *)
(* ================================================================== *)

(** What the test of [extractEntities] gives: in the graph that a run
    returns, no function entity has a reserved name. *)
Lemma function_entities_not_reserved regExpExec files mainLanguage g n :
  analyzeFiles regExpExec files mainLanguage = Some g ->
  In n (graphNodes g) ->
  Node.type n = Tfunction ->
  ~ In (Node.name n) reservedNames.
Proof.
  intros H Hn Ht Hr. apply analyzeFiles_graph in H.
  destruct H as (st & ((_ & Hall) & _) & Hg & _). rewrite Hg in Hn.
  destruct (In_values_entry _ _ Hn) as (k & Hin).
  rewrite Forall_forall in Hall.
  destruct (Hall _ Hin) as (_ & _ & _ & Hres). cbn [snd] in Hres.
  specialize (Hres Ht). unfold includesName in Hres.
  assert (Ht' : existsb (String.eqb (Node.name n)) reservedNames = true).
  { apply existsb_exists. exists (Node.name n). split; [exact Hr|].
    apply String.eqb_refl. }
  rewrite Ht' in Hres. discriminate Hres.
Qed.

(** C5 at a class body. [methodPattern] matches the text [if (x) {] of
    the class [A] with the captured name [if], and [extractClassMethods],
    which has no test on reserved names, registers the method entity
    [A.if]: it is a node of the graph. [extractEntities] applies the
    test to function declarations only. *)
Theorem reserved_word_method_entity :
  option_map (map (capture 1))
    (JsRegExp.execAll Patterns.methodPattern (fileText classTs))
  = Some ["m"; "if"]
  /\ includesName reservedNames "if" = true
  /\ exists g,
       analyzeFiles Patterns.callSites [classTs] typescript = Some g
       /\ In ifNode (graphNodes g).
Proof.
  split; [vm_compute; reflexivity|].
  split; [reflexivity|].
  eexists. split; [vm_compute; reflexivity|].
  simpl. right. right. left. reflexivity.
Qed.

(* ================================================================== *)
(** * Termination *)
(* ================================================================== *)

Section Progress.
Import JsRegExp.

Lemma starLoop_reached runBody gs :
  (forall st k res, runBody st k = Some res ->
     exists st', k st' = Some res /\ reached 0 st st') ->
  forall n k st res, starLoop runBody gs k n st = Some res ->
    exists st', k st' = Some res /\ reached 0 st st'.
Proof.
  intros Hbody. unfold reached.
  induction n as [|n IH]; intros k st res H; simpl in H.
  - exists st. split; [exact H | lia].
  - destruct (runBody (clearCaps gs st) _) as [x|] eqn:E.
    + injection H as ->. apply Hbody in E. destruct E as (st1 & E & Hle).
      destruct (pos st <? pos st1); [|discriminate].
      apply IH in E. destruct E as (st' & E & Hle').
      exists st'. split; [exact E|].
      unfold reached, remaining in *. simpl in *. lia.
    + exists st. split; [exact H | lia].
Qed.

(** A successful run hands the continuation a state further on, strictly
    so for a pattern that consumes. *)
Lemma run_reached r : forall st k res,
  run r st k = Some res ->
  exists st', k st' = Some res /\ reached (cost r) st st'.
Proof.
  unfold reached, cost.
  induction r as [|p|r1 IH1 r2 IH2|r1 IH1 r2 IH2|r1 IH1|r1 IH1|i r1 IH1| |];
    intros st k res H; simpl in H.
  - exists st. split; [exact H | simpl; lia].
  - unfold remaining. destruct (rest st) as [|c tl] eqn:Er; [discriminate|].
    destruct (p c); [|discriminate].
    eexists. split; [exact H|]. simpl. lia.
  - apply IH1 in H. destruct H as (st1 & H & Hle1).
    apply IH2 in H. destruct H as (st' & H & Hle2).
    exists st'. split; [exact H|]. simpl.
    destruct (consumes r1), (consumes r2); simpl; lia.
  - destruct (run r1 st k) as [x|] eqn:E.
    + injection H as ->. apply IH1 in E. destruct E as (st' & E & Hle).
      exists st'. split; [exact E|]. simpl.
      destruct (consumes r1), (consumes r2); simpl; lia.
    + apply IH2 in H. destruct H as (st' & H & Hle).
      exists st'. split; [exact H|]. simpl.
      destruct (consumes r1), (consumes r2); simpl; lia.
  - apply starLoop_reached in H.
    + destruct H as (st' & H & Hle). exists st'. split; [exact H|].
      unfold reached in Hle. simpl. lia.
    + intros st0 k0 res0 H0. apply IH1 in H0.
      destruct H0 as (st' & H0 & Hle). exists st'. split; [exact H0|].
      unfold reached. lia.
  - destruct (run r1 (clearCaps (groupsOf r1) st) _) as [x|] eqn:E.
    + injection H as ->. apply IH1 in E. destruct E as (st1 & E & Hle).
      destruct (pos st <? pos st1); [|discriminate].
      exists st1. split; [exact E|]. unfold remaining in *. simpl in *. lia.
    + exists st. split; [exact H | simpl; lia].
  - apply IH1 in H. destruct H as (st1 & H & Hle).
    eexists. split; [exact H|]. unfold remaining in *. simpl in *. exact Hle.
  - destruct (xorb _ _); [|discriminate].
    exists st. split; [exact H | simpl; lia].
  - destruct (rest st); [|discriminate].
    exists st. split; [exact H | simpl; lia].
Qed.

Lemma matchAt_reached r p pv s m :
  matchAt r p pv s = Some m -> remaining (stop m) + cost r <= String.length s.
Proof.
  unfold matchAt. intros H.
  destruct (run r (MState p s pv []) Some) as [st|] eqn:E; [|discriminate].
  injection H as <-. simpl.
  apply run_reached in E. destruct E as (st' & [= ->] & Hle). exact Hle.
Qed.

Lemma search_reached r : forall s p pv m,
  search r p pv s = Some m -> remaining (stop m) + cost r <= String.length s.
Proof.
  induction s as [|c tl IH]; intros p pv m H; simpl in H.
  - destruct (matchAt r p pv "") as [m'|] eqn:E; [|discriminate].
    injection H as ->. now apply matchAt_reached in E.
  - destruct (matchAt r p pv (String c tl)) as [m'|] eqn:E.
    + injection H as ->. now apply matchAt_reached in E.
    + apply IH in H. simpl. lia.
Qed.

(** The [exec] loop of a pattern that consumes ends: every match moves
    [lastIndex] forward, so there are at most as many matches as
    characters. *)
Lemma execLoop_total r : consumes r = true ->
  forall fuel p pv s, String.length s < fuel ->
    exists ms, execLoop fuel r p pv s = Some ms.
Proof.
  intros Hc. induction fuel as [|fuel IH]; intros p pv s Hlt; [lia|].
  simpl. destruct (search r p pv s) as [m|] eqn:E; [|eauto].
  apply search_reached in E. unfold cost in E. rewrite Hc in E.
  destruct (IH (pos (stop m)) (prev (stop m)) (rest (stop m))) as [ms ->];
    [unfold remaining in E; lia | eauto].
Qed.

Lemma execAll_total r s :
  consumes r = true -> exists ms, execAll r s = Some ms.
Proof. intros Hc. unfold execAll. apply execLoop_total; [exact Hc | lia]. Qed.

End Progress.

(** The walk over a class body ends within as many iterations as there
    are characters from [classEndIdx] on, with the index at most at the
    end of the text. *)
Lemma scanBraces_total content : forall fuel braceCount classEndIdx,
  String.length content - classEndIdx < fuel ->
  exists e, scanBraces fuel content braceCount classEndIdx = Some e
            /\ classEndIdx <= e
            /\ e <= Nat.max classEndIdx (String.length content).
Proof.
  induction fuel as [|fuel IH]; intros braceCount classEndIdx Hlt; [lia|].
  simpl.
  destruct ((0 <? braceCount)%Z && (classEndIdx <? String.length content))
    eqn:Hguard.
  - apply andb_prop in Hguard. destruct Hguard as [_ Hidx].
    apply Nat.ltb_lt in Hidx.
    match goal with |- context [scanBraces fuel content ?b ?i] =>
      destruct (IH b i) as (e & -> & Hle & Hmax); [lia|] end.
    exists e. split; [reflexivity | lia].
  - exists classEndIdx. split; [reflexivity | lia].
Qed.

(** More fuel than the walk needs does not change where it stops. *)
Lemma scanBraces_fuel content : forall fuel fuel' braceCount classEndIdx e,
  scanBraces fuel content braceCount classEndIdx = Some e ->
  fuel <= fuel' ->
  scanBraces fuel' content braceCount classEndIdx = Some e.
Proof.
  induction fuel as [|fuel IH]; intros fuel' braceCount classEndIdx e H Hle;
    [discriminate|].
  destruct fuel' as [|fuel']; [lia|]. simpl in *.
  destruct ((0 <? braceCount)%Z && (classEndIdx <? String.length content));
    [|exact H].
  apply IH; [exact H | lia].
Qed.

Lemma extractTypeScriptTypes_total st content path folderColor :
  exists st', extractTypeScriptTypes st content path folderColor = Some st'.
Proof.
  unfold extractTypeScriptTypes.
  destruct (@execAll_total Patterns.interfacePattern content eq_refl)
    as [ms ->].
  simpl. eauto.
Qed.

Lemma classStep_total content path lang folderColor st m :
  exists st', classStep content path lang folderColor st m = Some st'.
Proof.
  unfold classStep.
  match goal with |- context [scanBraces ?f content ?b ?i] =>
    destruct (@scanBraces_total content f b i) as (e & -> & _); [lia|] end.
  simpl.
  match goal with |- context [JsRegExp.execAll Patterns.methodPattern ?s] =>
    destruct (@execAll_total Patterns.methodPattern s eq_refl)
      as [ms ->] end.
  simpl. destruct (forEach _ ms _) as [st1 methods]. eauto.
Qed.

Lemma extractClassMethods_total st content path lang folderColor :
  exists st', extractClassMethods st content path lang folderColor = Some st'.
Proof.
  unfold extractClassMethods.
  destruct (@execAll_total Patterns.classPattern content eq_refl)
    as [cs ->].
  simpl. apply forEachM_total. intros; apply classStep_total.
Qed.

Lemma patterns_consume lang regex :
  Patterns.patterns lang = Some regex -> consumes regex = true.
Proof. destruct lang; intros [= <-]; reflexivity. Qed.

Lemma extractEntities_total st content path lang :
  exists st', extractEntities st content path lang = Some st'.
Proof.
  unfold extractEntities.
  destruct (getFolderColor st path) as [folderColor st0].
  assert (H1 : exists st1,
             match Patterns.patterns lang with
             | Some regex =>
                 ms <- JsRegExp.execAll regex content ;;
                 Some (forEach (entityStep content path lang folderColor) ms st0)
             | None => Some st0
             end = Some st1).
  { destruct (Patterns.patterns lang) as [regex|] eqn:E; [|eauto].
    destruct (@execAll_total regex content (patterns_consume _ E))
      as [ms ->].
    simpl. eauto. }
  destruct H1 as [st1 ->]. simpl.
  destruct lang; eauto using extractClassMethods_total.
  destruct (@extractClassMethods_total st1 content path typescript folderColor)
    as [st2 ->].
  simpl. apply extractTypeScriptTypes_total.
Qed.

(** C8 (termination on unbalanced delimiters). For every text, every
    brace count and every start index, the walk that looks for the end
    of a class body ends within as many iterations as there are
    characters from the start index on ([S n] units of fuel are [n]
    iterations and the final test), at an index from the start index
    on that is not beyond the end of the text; more fuel gives the same
    index. With it, [extractClassMethods] and [extractEntities] return
    a parser for every text, balanced or not. *)
Theorem class_body_scan_terminates content braceCount classEndIdx :
  (exists e,
      scanBraces (S (String.length content - classEndIdx)) content
                 braceCount classEndIdx = Some e
      /\ scanBraces (S (String.length content)) content
                    braceCount classEndIdx = Some e
      /\ classEndIdx <= e
      /\ e <= Nat.max classEndIdx (String.length content))
  /\ (forall st path lang folderColor, exists st',
         extractClassMethods st content path lang folderColor = Some st')
  /\ (forall st path lang, exists st',
         extractEntities st content path lang = Some st').
Proof.
  split; [|split].
  - destruct (@scanBraces_total content
                (S (String.length content - classEndIdx))
                braceCount classEndIdx) as (e & He & Hle & Hmax); [lia|].
    exists e. split; [exact He | split; [|split; assumption]].
    eapply scanBraces_fuel; [exact He | lia].
  - intros. apply extractClassMethods_total.
  - intros. apply extractEntities_total.
Qed.

Lemma unbalanced_class_example :
  scanBraces (S (String.length (fileText unbalancedTs)))
             (fileText unbalancedTs) 1 9
  = Some (String.length (fileText unbalancedTs))
  /\ option_map (fun g => map Node.id (graphNodes g))
       (analyzeFiles Patterns.callSites [unbalancedTs] typescript)
     = Some ["u.ts"; "u.ts:A.m"].
Proof. split; vm_compute; reflexivity. Qed.

(* ================================================================== *)
(** * Line numbers *)
(* ================================================================== *)

Lemma length_splitWith isSep : forall s cur,
  List.length (splitWith isSep cur s) = S (countChars isSep s).
Proof.
  induction s as [|c tl IH]; intros cur; simpl; [reflexivity|].
  destruct (isSep c); simpl; now rewrite IH.
Qed.

Lemma countChars_substring0 p : forall s i d,
  countChars p (substring0 i s) <= countChars p (substring0 (i + d) s).
Proof.
  unfold substring0.
  induction s as [|c tl IH]; intros i d.
  - destruct i, d; simpl; lia.
  - destruct i as [|i]; simpl.
    + destruct d; simpl; lia.
    + specialize (IH i d). lia.
Qed.

(** X1. The line of an index is one more than the number of line feeds
    before it: lines are counted from 1, and the line does not decrease
    when the index grows. *)
Theorem lineAt_counts_line_feeds content index d :
  lineAt content index
  = S (countChars (Ascii.eqb (ascii_of_nat 10)) (substring0 index content))
  /\ lineAt content 0 = 1
  /\ lineAt content index <= lineAt content (index + d).
Proof.
  unfold lineAt, JsString.split. rewrite !length_splitWith.
  split; [reflexivity | split].
  - unfold substring0. destruct content; reflexivity.
  - apply le_n_S, countChars_substring0.
Qed.

(* ================================================================== *)
(** * The enclosing entity *)
(* ================================================================== *)

Section FirstGreatest.
Context {A : Type}.
Variables (key : A -> nat) (L : nat).

Let p (a : A) : bool := key a <=? L.
Let before (a b : A) : bool := key b <=? key a.

Lemma find_insertSorted x : forall s,
  find p (insertSorted before x s) =
  if p x then
    match find p s with
    | Some y => if key x <? key y then Some y else Some x
    | None => Some x
    end
  else find p s.
Proof.
  induction s as [|y tl IH]; simpl.
  - destruct (p x); reflexivity.
  - unfold before at 1. destruct (key y <=? key x) eqn:Hyx; simpl.
    + destruct (p x) eqn:Hx; [|reflexivity].
      destruct (p y) eqn:Hy.
      * apply Nat.leb_le in Hyx.
        destruct (key x <? key y) eqn:Hlt; [|reflexivity].
        apply Nat.ltb_lt in Hlt. lia.
      * unfold p in Hx, Hy. apply Nat.leb_le in Hyx, Hx.
        apply Nat.leb_gt in Hy. lia.
    + rewrite IH. destruct (p y) eqn:Hy; [|reflexivity].
      destruct (p x); [|reflexivity].
      apply Nat.leb_gt in Hyx. apply Nat.ltb_lt in Hyx. now rewrite Hyx.
Qed.

Lemma find_sort l : find p (sort before l) = pick key L l.
Proof.
  unfold sort. induction l as [|x tl IH]; simpl; [reflexivity|].
  rewrite find_insertSorted, IH. reflexivity.
Qed.

Lemma pick_None l : pick key L l = None -> forall m, In m l -> L < key m.
Proof.
  induction l as [|x tl IH]; simpl; intros H m Hm; [destruct Hm|].
  destruct (key x <=? L) eqn:Hx.
  - destruct (pick key L tl) as [y|]; [destruct (key x <? key y)|]; discriminate.
  - destruct Hm as [<-|Hm]; [now apply Nat.leb_gt in Hx | now apply IH].
Qed.

(** [pick] returns an element of greatest key among those of key at
    most [L], and the first of them. *)
Lemma pick_Some : forall l n, pick key L l = Some n ->
  key n <= L
  /\ exists l1 l2,
       l = l1 ++ n :: l2
       /\ (forall m, In m l1 -> key m <= L -> key m < key n)
       /\ (forall m, In m l2 -> key m <= L -> key m <= key n).
Proof.
  induction l as [|x tl IH]; simpl; intros n H; [discriminate|].
  destruct (key x <=? L) eqn:Hx.
  - apply Nat.leb_le in Hx.
    destruct (pick key L tl) as [y|] eqn:Hy.
    + destruct (IH y eq_refl) as (HyL & l1 & l2 & -> & H1 & H2).
      destruct (key x <? key y) eqn:Hlt; injection H as <-.
      * apply Nat.ltb_lt in Hlt. split; [exact HyL|].
        exists (x :: l1), l2. split; [reflexivity | split; [|exact H2]].
        intros m [<-|Hm] Hle; [exact Hlt | now apply H1].
      * apply Nat.ltb_ge in Hlt. split; [exact Hx|].
        exists [], (l1 ++ y :: l2). split; [reflexivity | split].
        -- intros m [].
        -- intros m Hm Hle. apply in_app_or in Hm.
           destruct Hm as [Hm|[<-|Hm]].
           ++ specialize (H1 m Hm Hle). lia.
           ++ exact Hlt.
           ++ specialize (H2 m Hm Hle). lia.
    + injection H as <-. split; [exact Hx|].
      exists [], tl. split; [reflexivity | split].
      * intros m [].
      * intros m Hm Hle. pose proof (pick_None _ Hy m Hm). lia.
  - destruct (IH n H) as (HnL & l1 & l2 & -> & H1 & H2).
    split; [exact HnL|]. exists (x :: l1), l2.
    split; [reflexivity | split; [|exact H2]].
    intros m [<-|Hm] Hle; [apply Nat.leb_gt in Hx; lia | now apply H1].
Qed.

End FirstGreatest.

Lemma findEnclosingEntity_candidate st path line n :
  findEnclosingEntity st path line = Some n -> In n (candidates st path).
Proof.
  unfold findEnclosingEntity. fold (candidates st path).
  rewrite (find_sort Node.line line). intros Hp.
  destruct (pick_Some _ _ _ Hp) as (_ & l1 & l2 & -> & _).
  apply in_or_app. right. now left.
Qed.

(** X2. When [findEnclosingEntity] returns a node, it is an entity of the
    file other than the file node, declared at a line at most the given
    one; no such entity is declared at a greater line, and of those
    declared at the same line it is the one registered first. When it
    returns nothing, every such entity is declared after the line. *)
Theorem findEnclosingEntity_first_greatest st path line :
  match findEnclosingEntity st path line with
  | Some n =>
      Node.file n = path /\ Node.type n <> Tfile /\ Node.line n <= line
      /\ exists l1 l2,
           candidates st path = l1 ++ n :: l2
           /\ (forall m, In m l1 -> Node.line m <= line ->
                         Node.line m < Node.line n)
           /\ (forall m, In m l2 -> Node.line m <= line ->
                         Node.line m <= Node.line n)
  | None => forall m, In m (candidates st path) -> line < Node.line m
  end.
Proof.
  unfold findEnclosingEntity. fold (candidates st path).
  rewrite (find_sort Node.line line).
  destruct (pick Node.line line (candidates st path)) as [n|] eqn:Hp.
  - destruct (pick_Some _ _ _ Hp) as (Hle & l1 & l2 & Heq & H1 & H2).
    assert (Hin : In n (candidates st path))
      by (rewrite Heq; apply in_or_app; right; now left).
    unfold candidates in Hin. apply filter_In in Hin. destruct Hin as [_ Hc].
    apply andb_prop in Hc. destruct Hc as [Hf Ht].
    apply String.eqb_eq in Hf.
    split; [exact Hf | split; [|split; [exact Hle|]]].
    + intros E. rewrite E in Ht. discriminate.
    + exists l1, l2. auto.
  - apply pick_None. exact Hp.
Qed.

(* ================================================================== *)
(** * Folder colours *)
(* ================================================================== *)

Lemma palette_nth i : i < 10 -> In (nth i greenPalette "") greenPalette.
Proof. intros H. apply nth_In. simpl. exact H. Qed.

Lemma palette_truthy c : In c greenPalette -> truthy c = true.
Proof.
  simpl. intros H.
  repeat (destruct H as [<-|H]; [reflexivity|]). destruct H.
Qed.

(** X3. Asking for the colour of a second path of the same folder gives
    the colour of the first and leaves the parser as the first call left
    it, whether the folder had a colour before the first call or not; and
    a call changes the colour of no folder that had one. *)
Theorem getFolderColor_stable st path path' :
  (folderOf path' = folderOf path ->
   getFolderColor (snd (getFolderColor st path)) path' = getFolderColor st path)
  /\ (forall folder c,
        JsMap.get folder (folderColors st) = Some c ->
        JsMap.get folder (folderColors (snd (getFolderColor st path)))
        = Some c).
Proof.
  unfold getFolderColor. fold (folderOf path) (folderOf path'). cbn [snd].
  destruct (JsMap.has (folderOf path) (folderColors st)) eqn:Hh; cbn [negb].
  - split; [|intros folder c Hg; exact Hg].
    intros ->. rewrite Hh. reflexivity.
  - cbn [folderColors withFolderColors]. split.
    + intros ->. rewrite has_set, String.eqb_refl. reflexivity.
    + intros folder c Hg. rewrite get_set.
      destruct (String.eqb_spec folder (folderOf path)) as [->|]; [|exact Hg].
      unfold JsMap.has in Hh. rewrite Hg in Hh. discriminate.
Qed.

(* ================================================================== *)
(** * Normalized paths *)
(* ================================================================== *)

Lemma string_app_nil_r (s : string) : (s ++ "")%string = s.
Proof. induction s as [|c tl IH]; simpl; [reflexivity | now rewrite IH]. Qed.

Lemma rev_onto_rev_onto : forall s acc b,
  rev_onto acc (rev_onto b s) = rev_onto (s ++ acc)%string b.
Proof.
  induction s as [|c tl IH]; intros acc b; simpl; [reflexivity|].
  now rewrite IH.
Qed.

Lemma rev_rev (s : string) : JsString.rev (JsString.rev s) = s.
Proof.
  unfold JsString.rev. rewrite rev_onto_rev_onto. simpl.
  apply string_app_nil_r.
Qed.

Lemma allChars_rev_onto p : forall s acc,
  allChars p (rev_onto acc s) = allChars p s && allChars p acc.
Proof.
  induction s as [|c tl IH]; intros acc; simpl; [reflexivity|].
  rewrite IH. simpl. destruct (p c), (allChars p tl); reflexivity.
Qed.

Section SplitRuns.
Variable isSep : ascii -> bool.

Let notSep (c : ascii) : bool := negb (isSep c).

(** The pieces that [splitRunsWith] cuts have no separator in them. *)
Lemma splitRunsWith_no_separator : forall s cur inSep,
  allChars notSep cur = true ->
  Forall (fun part => allChars notSep part = true)
         (splitRunsWith isSep cur inSep s).
Proof.
  induction s as [|c tl IH]; intros cur inSep Hcur; simpl.
  - constructor; [|constructor]. unfold JsString.rev.
    rewrite allChars_rev_onto, Hcur. reflexivity.
  - destruct (isSep c) eqn:Hc.
    + destruct inSep; [now apply IH|].
      constructor; [|now apply IH].
      unfold JsString.rev. rewrite allChars_rev_onto, Hcur. reflexivity.
    + apply IH. simpl. unfold notSep at 1. now rewrite Hc.
Qed.

(** Reading a piece without separators moves it to the piece at hand. *)
Lemma splitRunsWith_piece : forall x cur inSep r,
  allChars notSep x = true ->
  splitRunsWith isSep cur inSep (x ++ r)%string =
  splitRunsWith isSep (rev_onto cur x)
                (match x with EmptyString => inSep | _ => false end) r.
Proof.
  induction x as [|c tl IH]; intros cur inSep r Hx; simpl; [reflexivity|].
  simpl in Hx. apply andb_prop in Hx. destruct Hx as [Hc Hx].
  unfold notSep in Hc. apply negb_true_iff in Hc. rewrite Hc.
  rewrite (IH _ _ _ Hx). destruct tl; reflexivity.
Qed.

(** Splitting what [join] made of pieces without separators, none of
    them empty, gives the pieces back. *)
Lemma splitRunsWith_join (sep : ascii) : isSep sep = true ->
  forall parts x inSep,
    Forall (fun part => part <> "" /\ allChars notSep part = true) (x :: parts) ->
    splitRunsWith isSep "" inSep (join (String sep "") (x :: parts))
    = x :: parts.
Proof.
  intros Hsep.
  induction parts as [|y tl IH]; intros x inSep Hall;
    inversion Hall as [|? ? [Hne Hx] Hall']; subst.
  - unfold join. simpl. rewrite <- (string_app_nil_r x) at 1.
    rewrite (splitRunsWith_piece _ _ _ _ Hx). simpl.
    change (rev_onto "" x) with (JsString.rev x). now rewrite rev_rev.
  - unfold join in *. cbn [String.concat].
    rewrite (splitRunsWith_piece _ _ _ _ Hx).
    destruct x as [|c x']; [contradiction|].
    cbn [append splitRunsWith]. rewrite Hsep.
    change (rev_onto "" (String c x')) with (JsString.rev (String c x')).
    rewrite rev_rev. f_equal. now apply IH.
Qed.

End SplitRuns.

Lemma forEach_normalizeStep_segments : forall parts stack,
  Forall segmentOk parts ->
  forEach normalizeStep parts stack = stack ++ parts.
Proof.
  unfold forEach.
  induction parts as [|x tl IH]; intros stack Hall; simpl.
  - now rewrite app_nil_r.
  - inversion Hall as [|? ? (Hne & Hd & Hdd & _) Hall']; subst.
    rewrite IH by assumption. unfold normalizeStep.
    destruct x as [|c x']; [contradiction|]. cbn [truthy negb orb].
    destruct (String.eqb_spec (String c x') "."); [contradiction|].
    destruct (String.eqb_spec (String c x') ".."); [contradiction|].
    now rewrite <- app_assoc.
Qed.

Lemma Forall_removelast {A : Type} (Q : A -> Prop) (l : list A) :
  Forall Q l -> Forall Q (removelast l).
Proof.
  induction l as [|x tl IH]; simpl; intros H; [constructor|].
  inversion H; subst. destruct tl; [constructor|].
  constructor; [assumption | now apply IH].
Qed.

Lemma forEach_normalizeStep_ok : forall parts stack,
  Forall (fun part =>
            allChars (fun c => negb (Patterns.isSlash c)) part = true) parts ->
  Forall segmentOk stack ->
  Forall segmentOk (forEach normalizeStep parts stack).
Proof.
  unfold forEach.
  induction parts as [|x tl IH]; intros stack Hparts Hstack; simpl;
    [exact Hstack|].
  inversion Hparts as [|? ? Hx Hparts']; subst.
  apply IH; [exact Hparts'|]. unfold normalizeStep.
  destruct x as [|c x']; [exact Hstack|]. cbn [truthy negb orb].
  destruct (String.eqb_spec (String c x') "."); [exact Hstack|].
  destruct (String.eqb_spec (String c x') "..");
    [now apply Forall_removelast|].
  apply Forall_app. split; [exact Hstack|].
  constructor; [|constructor]. repeat split; try assumption. discriminate.
Qed.

Lemma normalizePath_join stack :
  Forall segmentOk stack -> normalizePath (join "/" stack) = join "/" stack.
Proof.
  intros Hall. unfold normalizePath, splitRuns.
  destruct stack as [|x tl]; [reflexivity|].
  rewrite (@splitRunsWith_join Patterns.isSlash "/" eq_refl tl x false).
  - now rewrite forEach_normalizeStep_segments.
  - eapply Forall_impl; [|exact Hall].
    intros seg (Hne & _ & _ & Hs). split; assumption.
Qed.

Lemma normalizePath_stack rawPath :
  Forall segmentOk
         (forEach normalizeStep (splitRuns Patterns.isSlash rawPath) []).
Proof.
  apply forEach_normalizeStep_ok; [|constructor].
  apply splitRunsWith_no_separator. reflexivity.
Qed.

(** X4. A normalized path is made of segments joined by slashes; no
    segment is empty, [.] or [..], and none has a slash or a backslash
    in it. *)
Theorem normalizePath_segments rawPath :
  exists stack,
    normalizePath rawPath = join "/" stack /\ Forall segmentOk stack.
Proof.
  unfold normalizePath. eexists. split; [reflexivity|].
  apply normalizePath_stack.
Qed.

(** X5. Normalizing a normalized path changes nothing; so the path that
    [resolveImportPath] gives for a specifier that starts with a dot is
    normalized. *)
Theorem normalizePath_idempotent rawPath filePath importPath :
  normalizePath (normalizePath rawPath) = normalizePath rawPath
  /\ (startsWith "." importPath = true ->
      normalizePath (resolveImportPath filePath importPath)
      = resolveImportPath filePath importPath).
Proof.
  assert (Hidem : forall p, normalizePath (normalizePath p) = normalizePath p).
  { intros p. unfold normalizePath at 2 3. cbv zeta.
    apply normalizePath_join, normalizePath_stack. }
  split; [apply Hidem|].
  intros Hs. unfold resolveImportPath. rewrite Hs. cbn [negb]. apply Hidem.
Qed.

(* ================================================================== *)
(** * The shape of nodes and edges *)
(* ================================================================== *)

Lemma lineAt_pos content index : 1 <= lineAt content index.
Proof. unfold lineAt, JsString.split. rewrite length_splitWith. lia. Qed.

Lemma In_get_NoDup {V : Type} (k : string) (v : V) (m : JsMap.t V) :
  NoDup (JsMap.keys m) -> In (k, v) m -> JsMap.get k m = Some v.
Proof.
  induction m as [|[k0 v0] tl IH]; simpl; intros Hnd Hin; [destruct Hin|].
  inversion Hnd as [|? ? Hnotin Hnd']; subst.
  destruct Hin as [[= -> ->]|Hin].
  - now rewrite String.eqb_refl.
  - destruct (String.eqb_spec k k0) as [->|]; [|now apply IH].
    exfalso. apply Hnotin. unfold JsMap.keys. apply in_map_iff.
    now exists (k0, v).
Qed.

Lemma callsTo_push k ls l :
  callsTo k (ls ++ [l]) =
  callsTo k ls + (if isCall l && String.eqb (Link.target l) k then 1 else 0).
Proof.
  unfold callsTo. rewrite filter_app, length_app. simpl.
  destruct (isCall l && String.eqb (Link.target l) k); reflexivity.
Qed.

Lemma getFolderColor_nodes_links st path :
  nodes (snd (getFolderColor st path)) = nodes st
  /\ links (snd (getFolderColor st path)) = links st.
Proof.
  unfold getFolderColor. cbn [snd].
  destruct (negb (JsMap.has _ (folderColors st))); split; reflexivity.
Qed.

Section ShapeKept.

Variable P : list string.

Lemma Shape_same st st' :
  nodes st' = nodes st -> links st' = links st ->
  folderColors st' = folderColors st -> Shape P st -> Shape P st'.
Proof. unfold Shape. intros -> -> ->. tauto. Qed.

Lemma Shape_getFolderColor st path :
  Shape P st ->
  Shape P (snd (getFolderColor st path))
  /\ In (fst (getFolderColor st path)) greenPalette.
Proof.
  intros (Hn & Hl & Hc).
  assert (Hc' : forall folder c,
             JsMap.get folder (folderColors (snd (getFolderColor st path)))
             = Some c -> In c greenPalette).
  { unfold getFolderColor. cbn [snd]. fold (folderOf path).
    destruct (negb (JsMap.has (folderOf path) (folderColors st)));
      [|exact Hc].
    cbn [folderColors withFolderColors]. intros folder c Hg.
    rewrite get_set in Hg. destruct (String.eqb folder (folderOf path));
      [|now apply (Hc folder)].
    injection Hg as <-.
    assert (Hlt : JsMap.size (folderColors st) mod 10 < 10)
      by (apply Nat.mod_upper_bound; discriminate).
    exact (palette_nth Hlt). }
  destruct (getFolderColor_nodes_links st path) as [En El].
  split.
  - unfold Shape. rewrite En, El. auto.
  - revert Hc'. unfold getFolderColor. cbn [fst snd]. fold (folderOf path).
    set (st' := if negb (JsMap.has (folderOf path) (folderColors st))
                then _ else st).
    intros Hc'.
    destruct (JsMap.get (folderOf path) (folderColors st')) as [c|] eqn:Hg;
      simpl.
    + specialize (Hc' _ _ Hg). rewrite (palette_truthy Hc'). exact Hc'.
    + left. reflexivity.
Qed.

(** Registering a node while there is no edge yet. *)
Lemma Shape_setNode st n :
  Shape P st -> links st = [] ->
  nodeShape P (Node.id n) n -> Node.sizeAdds n = 0 ->
  Shape P (setNode st n) /\ links (setNode st n) = [].
Proof.
  intros (Hn & Hl & Hc) Hnil Hshape Hsize.
  split; [|exact Hnil]. unfold Shape, setNode; simpl.
  rewrite Hnil in *. split; [|split; [constructor | exact Hc]].
  intros k n0 Hg. rewrite get_set in Hg.
  destruct (String.eqb_spec k (Node.id n)) as [->|].
  - injection Hg as <-. split; [exact Hshape | exact Hsize].
  - now apply Hn.
Qed.

End ShapeKept.

(** Proves [nodeShape] of a node that is written out. *)
Ltac shape_ok :=
  unfold nodeShape, generateId; simpl;
  repeat split;
  try reflexivity; try assumption; try apply lineAt_pos;
  try (eexists; reflexivity); try (do 2 eexists; reflexivity).

Section ExtractionKeepsShape.

Variable P : list string.

(** The state of the passes that come before the edges. *)
Let fresh (st : Parser) : Prop := Shape P st /\ links st = [].

Lemma fresh_typeStep content path st m :
  In path P -> fresh st -> fresh (typeStep content path st m).
Proof.
  intros HP [HS Hnil]. unfold typeStep.
  destruct (negb (JsMap.has _ (nodes st))); [|split; assumption].
  destruct (includes "interface" (JsRegExp.text m));
    (apply Shape_setNode; [assumption | assumption | shape_ok | reflexivity]).
Qed.

Lemma fresh_extractTypeScriptTypes st content path folderColor st' :
  In path P -> fresh st ->
  extractTypeScriptTypes st content path folderColor = Some st' -> fresh st'.
Proof.
  intros HP HI H. unfold extractTypeScriptTypes in H. bind_inv H.
  injection H as <-.
  apply forEach_inv; [|exact HI]. intros; now apply fresh_typeStep.
Qed.

Lemma fresh_methodStep content path lang folderColor className start acc m :
  In path P -> In folderColor greenPalette -> fresh (fst acc) ->
  fresh (fst (methodStep content path lang folderColor className start acc m)).
Proof.
  intros HP Hcol [HS Hnil]. destruct acc as [st methods]. simpl in *.
  apply Shape_setNode; [assumption | assumption | shape_ok | reflexivity].
Qed.

Lemma fresh_classStep content path lang folderColor st m st' :
  In path P -> In folderColor greenPalette -> fresh st ->
  classStep content path lang folderColor st m = Some st' -> fresh st'.
Proof.
  intros HP Hcol HI H. unfold classStep in H. bind_inv H. bind_inv H.
  match type of H with
  | context [forEach ?f ?xs ?s] =>
      assert (Hacc : fresh (fst (forEach f xs s)))
        by (apply (forEach_inv (fun acc => fresh (fst acc)));
            [intros; now apply fresh_methodStep | exact HI]);
      destruct (forEach f xs s) as [st1 methods]
  end.
  injection H as <-. destruct Hacc as [HS Hnil].
  split; [|exact Hnil]. eapply Shape_same; [| | |exact HS]; reflexivity.
Qed.

Lemma fresh_extractClassMethods st content path lang folderColor st' :
  In path P -> In folderColor greenPalette -> fresh st ->
  extractClassMethods st content path lang folderColor = Some st' -> fresh st'.
Proof.
  intros HP Hcol HI H. unfold extractClassMethods in H. bind_inv H.
  eapply forEachM_inv; [|exact HI|exact H].
  intros; eapply fresh_classStep; eauto.
Qed.

Lemma fresh_entityStep content path lang folderColor st m :
  In path P -> In folderColor greenPalette -> fresh st ->
  fresh (entityStep content path lang folderColor st m).
Proof.
  intros HP Hcol [HS Hnil]. unfold entityStep.
  destruct (orElse _ _) as [name|]; [|split; assumption].
  destruct (negb (truthy name) || includesName reservedNames name);
    [split; assumption|].
  apply Shape_setNode; [assumption | assumption | shape_ok | reflexivity].
Qed.

Lemma fresh_getFolderColor st path :
  fresh st ->
  fresh (snd (getFolderColor st path))
  /\ In (fst (getFolderColor st path)) greenPalette.
Proof.
  intros [HS Hnil]. destruct (Shape_getFolderColor path HS) as [HS' Hcol].
  split; [split; [exact HS'|] | exact Hcol].
  now rewrite (proj2 (getFolderColor_nodes_links st path)).
Qed.

Lemma fresh_extractEntities st content path lang st' :
  In path P -> fresh st ->
  extractEntities st content path lang = Some st' -> fresh st'.
Proof.
  intros HP HI H. unfold extractEntities in H.
  destruct (fresh_getFolderColor path HI) as [HI0 Hcol].
  destruct (getFolderColor st path) as [folderColor st0]. simpl in HI0, Hcol.
  bind_inv H.
  assert (HI1 : fresh a).
  { destruct (Patterns.patterns lang) as [regex|].
    - bind_inv Ha. injection Ha as <-.
      apply forEach_inv; [|exact HI0]. intros; now apply fresh_entityStep.
    - injection Ha as <-. exact HI0. }
  destruct lang; try (injection H as <-; exact HI1).
  - bind_inv H.
    eapply fresh_extractTypeScriptTypes; [exact HP| |exact H].
    eapply fresh_extractClassMethods; [exact HP|exact Hcol|exact HI1|exact Ha0].
  - eapply fresh_extractClassMethods; [exact HP|exact Hcol|exact HI1|exact H].
Qed.

Lemma fresh_extractImports st content path lang st' :
  fresh st -> extractImports st content path lang = Some st' -> fresh st'.
Proof.
  intros [HS Hnil] H. unfold extractImports in H.
  destruct lang; try (injection H as <-; split; assumption);
    bind_inv H; bind_inv H; injection H as <-;
    (split; [eapply Shape_same; [| | |exact HS]; reflexivity | exact Hnil]).
Qed.

Lemma fresh_fileNodeStep st f :
  In (fcPath f) P -> fresh st -> fresh (fileNodeStep st f).
Proof.
  intros HP HI. unfold fileNodeStep.
  destruct (fresh_getFolderColor (fcPath f) HI) as [[HS Hnil] Hcol].
  destruct (getFolderColor st (fcPath f)) as [folderColor st0].
  simpl in HS, Hnil, Hcol.
  apply Shape_setNode; [assumption | assumption | shape_ok | reflexivity].
Qed.

End ExtractionKeepsShape.

Section EdgesKeepShape.

Variable P : list string.

Lemma Shape_pushLink_import st s t :
  Shape P st ->
  JsMap.has s (nodes st) = true -> JsMap.has t (nodes st) = true ->
  Shape P (pushLink st (Link.Build s t 3 (Some Limport))).
Proof.
  intros (Hn & Hl & Hc) Hs Ht. unfold Shape, pushLink; simpl.
  split; [|split; [|exact Hc]].
  - intros k n Hg. destruct (Hn k n Hg) as [Hshape Hsize].
    split; [exact Hshape|]. rewrite callsTo_push. simpl. lia.
  - apply Forall_app. split; [exact Hl|].
    constructor; [|constructor]. unfold linkShape; simpl. auto.
Qed.

Lemma Shape_probeExtensions st importingFile resolvedPath exts :
  JsMap.has importingFile (nodes st) = true ->
  Shape P st -> Shape P (probeExtensions st importingFile resolvedPath exts).
Proof.
  intros Hfile HS. induction exts as [|ext tl IH]; simpl; [exact HS|].
  destruct (JsMap.has (resolvedPath ++ ext)%string (nodes st)) eqn:Ht;
    [|exact IH].
  destruct (find _ (links st)); [exact HS|].
  now apply Shape_pushLink_import.
Qed.

Lemma nodes_probeExtensions st importingFile resolvedPath exts :
  nodes (probeExtensions st importingFile resolvedPath exts) = nodes st.
Proof.
  induction exts as [|ext tl IH]; simpl; [reflexivity|].
  destruct (JsMap.has _ (nodes st)); [|exact IH].
  destruct (find _ (links st)); reflexivity.
Qed.

Lemma Shape_createFileImportLinks st filePaths :
  Shape P st -> Shape P (createFileImportLinks st filePaths).
Proof.
  intros HS. unfold createFileImportLinks.
  apply forEach_inv; [|exact HS].
  intros s [importingFile imports] _ Hs. unfold importingFileStep.
  destruct (JsMap.has importingFile (nodes s)) eqn:Hfile; simpl; [|exact Hs].
  apply (forEach_inv (fun s' => Shape P s' /\ nodes s' = nodes s));
    [|split; [exact Hs | reflexivity]].
  intros s' entry _ [Hs' En]. unfold importLinkStep.
  split; [apply Shape_probeExtensions; [now rewrite En | exact Hs']|].
  now rewrite nodes_probeExtensions.
Qed.

Lemma nonFileAt_bump k id tn ns :
  JsMap.get id ns = Some tn ->
  nonFileAt k ns -> nonFileAt k (JsMap.set id (Node.addSize tn) ns).
Proof.
  intros Hg (n & Hk & Ht). unfold nonFileAt. rewrite get_set.
  destruct (String.eqb_spec k id) as [->|]; [|now exists n].
  exists (Node.addSize tn). split; [reflexivity|].
  rewrite Hg in Hk. injection Hk as <-. exact Ht.
Qed.

Lemma linkShape_bump id tn ns l :
  JsMap.get id ns = Some tn ->
  linkShape ns l -> linkShape (JsMap.set id (Node.addSize tn) ns) l.
Proof.
  intros Hg (Hs & Ht & Hk). unfold linkShape.
  rewrite !has_set, Hs, Ht, !orb_true_r.
  split; [reflexivity | split; [reflexivity|]].
  destruct Hk as [Hk|(H1 & H2 & H3 & H4)]; [now left | right].
  repeat split; try assumption; now apply nonFileAt_bump.
Qed.

Lemma nodeShape_addSize k n : nodeShape P k n -> nodeShape P k (Node.addSize n).
Proof. unfold nodeShape. simpl. tauto. Qed.

(** What one match does to the nodes: nothing, or one more addition to
    the size of the target. *)
Lemma nodes_callStep content path targetNode st index :
  nodes (callStep content path targetNode st index) = nodes st
  \/ exists tn,
       JsMap.get (Node.id targetNode) (nodes st) = Some tn
       /\ nodes (callStep content path targetNode st index)
          = JsMap.set (Node.id targetNode) (Node.addSize tn) (nodes st).
Proof.
  unfold callStep.
  destruct (findEnclosingEntity st path _) as [sourceNode|]; [|now left].
  destruct (negb _); [|now left].
  destruct (find _ (links st)); [now left|].
  unfold bumpSize. cbn [nodes pushLink withLinks].
  destruct (JsMap.get (Node.id targetNode) (nodes st)) as [tn|] eqn:Hg;
    [right; now exists tn | now left].
Qed.

Lemma nonFileAt_callStep content path targetNode st index k :
  nonFileAt k (nodes st) ->
  nonFileAt k (nodes (callStep content path targetNode st index)).
Proof.
  intros H.
  destruct (nodes_callStep content path targetNode st index)
    as [->|(tn & Hg & ->)]; [exact H | now apply nonFileAt_bump].
Qed.

Lemma findEnclosingEntity_nonFileAt K st path line sourceNode :
  Inv P K st ->
  findEnclosingEntity st path line = Some sourceNode ->
  nonFileAt (Node.id sourceNode) (nodes st).
Proof.
  intros ((Hnd & Hall) & _) Hf.
  pose proof (findEnclosingEntity_candidate _ _ _ Hf) as Hc.
  unfold candidates in Hc. apply filter_In in Hc. destruct Hc as [Hin Hc].
  apply andb_prop in Hc. destruct Hc as [_ Hty].
  assert (Ht : Node.type sourceNode <> Tfile)
    by (intros E; rewrite E in Hty; discriminate).
  destruct (In_values_entry _ _ Hin) as (k & Hk).
  rewrite Forall_forall in Hall. destruct (Hall _ Hk) as [Hid _].
  simpl in Hid. subst k.
  exists sourceNode. split; [now apply In_get_NoDup | exact Ht].
Qed.

Lemma nonFileAt_has k ns : nonFileAt k ns -> JsMap.has k ns = true.
Proof. intros (n & Hg & _). unfold JsMap.has. now rewrite Hg. Qed.

Lemma Shape_callStep K content path targetNode st index :
  Inv P K st -> Shape P st ->
  nonFileAt (Node.id targetNode) (nodes st) ->
  Shape P (callStep content path targetNode st index).
Proof.
  intros HI HS Htarget. unfold callStep.
  destruct (findEnclosingEntity st path _) as [sourceNode|] eqn:Hf;
    [|exact HS].
  pose proof (findEnclosingEntity_nonFileAt _ _ HI Hf) as Hsource.
  destruct (negb _); [|exact HS].
  destruct (find _ (links st)); [exact HS|].
  destruct Htarget as (tn & Hg & Htn).
  destruct HS as (Hn & Hl & Hc).
  unfold bumpSize. cbn [nodes pushLink withLinks]. rewrite Hg.
  unfold Shape. cbn [nodes links folderColors withNodes withLinks pushLink].
  split; [|split; [|exact Hc]].
  - intros k n Hk. rewrite get_set in Hk. rewrite callsTo_push.
    cbn [isCall Link.type Link.target andb].
    destruct (String.eqb_spec k (Node.id targetNode)) as [->|Hne].
    + injection Hk as <-. destruct (Hn _ _ Hg) as [Hshape Hsize].
      split; [now apply nodeShape_addSize|].
      rewrite String.eqb_refl. simpl. lia.
    + destruct (Hn _ _ Hk) as [Hshape Hsize]. split; [exact Hshape|].
      destruct (String.eqb_spec (Node.id targetNode) k); [congruence|]. lia.
  - apply Forall_app. split.
    + eapply Forall_impl; [|exact Hl]. intros l. now apply linkShape_bump.
    + constructor; [|constructor]. apply linkShape_bump; [exact Hg|].
      unfold linkShape. cbn [Link.source Link.target Link.type Link.value].
      assert (Ht' : nonFileAt (Node.id targetNode) (nodes st))
        by (exists tn; auto).
      split; [now apply nonFileAt_has | split; [now apply nonFileAt_has|]].
      right. auto.
Qed.

Lemma visibleAs_not_file path lang fileImports targetNode callName :
  visibleAs path lang fileImports targetNode = Some callName ->
  Node.type targetNode <> Tfile.
Proof.
  unfold visibleAs. intros H E. rewrite E in H. discriminate.
Qed.

Lemma Shape_extractCalls K regExpExec st content path lang st' :
  Inv P K st -> Shape P st ->
  extractCalls regExpExec st content path lang = Some st' ->
  Shape P st'.
Proof.
  intros HI HS H. unfold extractCalls in H.
  set (allNodes := JsMap.values (nodes st)) in *.
  set (J := fun s : Parser =>
              Inv P K s /\ Shape P s
              /\ forall t, In t allNodes -> Node.type t <> Tfile ->
                           nonFileAt (Node.id t) (nodes s)).
  assert (HJ : J st).
  { split; [exact HI | split; [exact HS|]]. intros t Ht Hty.
    destruct (In_values_entry _ _ Ht) as (k & Hk).
    destruct HI as ((Hnd & Hall) & _). rewrite Forall_forall in Hall.
    destruct (Hall _ Hk) as [Hid _]. simpl in Hid. subst k.
    exists t. split; [now apply In_get_NoDup | exact Hty]. }
  assert (HJ' : J st');
    [|exact (proj1 (proj2 HJ'))].
  eapply forEachM_inv; [|exact HJ|exact H].
  intros s targetNode s' Hin Hs Hb. unfold targetStep in Hb.
  destruct (visibleAs _ _ _ _) as [callName|] eqn:Hv;
    [|injection Hb as <-; exact Hs].
  apply visibleAs_not_file in Hv.
  bind_inv Hb. injection Hb as <-.
  apply forEach_inv; [|exact Hs].
  intros s0 index _ (HI0 & HS0 & Hall0).
  split; [now apply Inv_callStep | split].
  - eapply Shape_callStep; [exact HI0 | exact HS0 | now apply Hall0].
  - intros t Ht Hty. apply nonFileAt_callStep. now apply Hall0.
Qed.

End EdgesKeepShape.

(* ================================================================== *)
(** * The nodes and edges of every run *)
(* ================================================================== *)

Lemma Shape_emptyParser P : Shape P emptyParser.
Proof.
  unfold Shape; simpl. split; [|split; [constructor|]]; intros; discriminate.
Qed.

(** [analyzeFiles_graph] with the second invariant. *)
Lemma analyzeFiles_shape regExpExec files mainLanguage g :
  analyzeFiles regExpExec files mainLanguage = Some g ->
  exists st,
    Inv (pathsOf files mainLanguage) (pathsOf files mainLanguage) st
    /\ Shape (pathsOf files mainLanguage) st
    /\ graphNodes g = JsMap.values (nodes st)
    /\ graphLinks g =
       links st ++ structureLinks (nodes st) (JsMap.values (nodes st)).
Proof.
  intros H. unfold analyzeFiles in H.
  set (fcs := map (readFile mainLanguage) files) in *.
  set (P := pathsOf files mainLanguage).
  assert (HP : forall f, In f fcs -> In (fcPath f) P)
    by (intros f Hf; unfold P, pathsOf; now apply in_map).
  set (fresh := fun s : Parser => Inv P P s /\ Shape P s /\ links s = []).
  assert (H1 : fresh (forEach fileNodeStep fcs emptyParser)).
  { split.
    - eapply Inv_weaken; [|apply Inv_fileNodes, Inv_emptyParser].
      intros k Hk. apply in_or_app. left. rewrite <- in_rev. exact Hk.
    - apply (forEach_inv (fun s => Shape P s /\ links s = []));
        [|split; [apply Shape_emptyParser | reflexivity]].
      intros s f Hf Hs. apply fresh_fileNodeStep; auto. }
  bind_inv H. rename a into st2, Ha into H2.
  bind_inv H. rename a into st3, Ha into H3.
  bind_inv H. rename a into st5, Ha into H5.
  injection H as <-. simpl.
  assert (HI2 : fresh st2).
  { eapply forEachM_inv; [| |exact H2]; [|exact H1].
    intros s f s' Hf (Hs1 & Hs2) Hb. cbv beta in Hb. split.
    - eapply Inv_extractEntities; eauto.
    - eapply fresh_extractEntities; eauto. }
  assert (HI3 : fresh st3).
  { eapply forEachM_inv; [| |exact H3]; [|exact HI2].
    intros s f s' Hf (Hs1 & Hs2) Hb. cbv beta in Hb. split.
    - eapply Inv_extractImports; eauto.
    - eapply fresh_extractImports; eauto. }
  destruct HI3 as (HI3 & HS3 & _).
  assert (HI5 : Inv P P st5 /\ Shape P st5).
  { eapply (forEachM_inv (fun s => Inv P P s /\ Shape P s)); [| |exact H5].
    - intros s f s' _ (Hs1 & Hs2) Hb. cbv beta in Hb. split.
      + eapply Inv_extractCalls; eauto.
      + eapply Shape_extractCalls; eauto.
    - split; [now apply Inv_createFileImportLinks
             | now apply Shape_createFileImportLinks]. }
  exists st5. destruct HI5 as [HI5 HS5].
  split; [exact HI5 | split; [exact HS5 | split]];
    [reflexivity | apply forEach_structureStep].
Qed.

(** A node of the graph sits in [nodes] under its id. *)
Lemma graph_node_get P K st n :
  Inv P K st -> In n (JsMap.values (nodes st)) ->
  JsMap.get (Node.id n) (nodes st) = Some n.
Proof.
  intros ((Hnd & Hall) & _) Hin.
  destruct (In_values_entry _ _ Hin) as (k & Hk).
  rewrite Forall_forall in Hall. destruct (Hall _ Hk) as [Hid _].
  simpl in Hid. subst k. now apply In_get_NoDup.
Qed.

Lemma has_node {V : Type} (k : string) (m : JsMap.t V) :
  JsMap.has k m = true -> exists v, In (k, v) m.
Proof.
  intros H. apply has_keys in H. unfold JsMap.keys in H.
  apply in_map_iff in H. destruct H as ([k' v] & Hk & Hin).
  simpl in Hk. subst k'. now exists v.
Qed.

(** A key of [nodes] is the id of a node of the graph. *)
Lemma has_graph_node P K st k :
  Inv P K st -> JsMap.has k (nodes st) = true ->
  exists n, In n (JsMap.values (nodes st)) /\ Node.id n = k.
Proof.
  intros ((_ & Hall) & _) H. destruct (has_node _ _ H) as (n & Hin).
  exists n. split.
  - unfold JsMap.values. apply in_map_iff. now exists (k, n).
  - rewrite Forall_forall in Hall. apply (Hall _ Hin).
Qed.

(** X6 (unique ids). In the graph that a run returns no two nodes have
    the same id. *)
Theorem node_ids_unique regExpExec files mainLanguage g :
  analyzeFiles regExpExec files mainLanguage = Some g ->
  NoDup (map Node.id (graphNodes g)).
Proof.
  intros H. apply analyzeFiles_graph in H.
  destruct H as (st & (Hn & _) & -> & _).
  rewrite (nodesInv_ids Hn). apply Hn.
Qed.

(** X7 (shape of the nodes). Every node of the graph that a run returns
    was declared in one of the files of the run, has [linesOfCode] 0 and
    one of five kinds. A file node has its path as id, line 0 and size
    15; any other node has the id [file:name], a line from 1 on, and
    size 8 (functions and methods, whose colour is one of the palette)
    or 6 (interfaces and types); the name of a method is
    [Class.method]. *)
Theorem node_shape regExpExec files mainLanguage g n :
  analyzeFiles regExpExec files mainLanguage = Some g ->
  In n (graphNodes g) ->
  nodeShape (pathsOf files mainLanguage) (Node.id n) n.
Proof.
  intros H Hin. apply analyzeFiles_shape in H.
  destruct H as (st & HI & (Hn & _) & Hg & _). rewrite Hg in Hin.
  apply (Hn _ _ (@graph_node_get _ _ _ _ HI Hin)).
Qed.

Lemma callsTo_app k ls ls' : callsTo k (ls ++ ls') = callsTo k ls + callsTo k ls'.
Proof. unfold callsTo. now rewrite filter_app, length_app. Qed.

Lemma callsTo_structureLinks k all vs : callsTo k (structureLinks all vs) = 0.
Proof.
  unfold callsTo, structureLinks.
  induction vs as [|v tl IH]; simpl; [reflexivity|].
  destruct (negb (isFile (Node.type v)) && JsMap.has (Node.file v) all);
    simpl; exact IH.
Qed.

(** X8 (weight). In the graph that a run returns, the number of times
    0.3 was added to the size of a node is the number of call edges
    into it. *)
Theorem size_counts_inbound_calls regExpExec files mainLanguage g n :
  analyzeFiles regExpExec files mainLanguage = Some g ->
  In n (graphNodes g) ->
  Node.sizeAdds n = callsTo (Node.id n) (graphLinks g).
Proof.
  intros H Hin. apply analyzeFiles_shape in H.
  destruct H as (st & HI & (Hn & _) & Hg & ->). rewrite Hg in Hin.
  rewrite callsTo_app, callsTo_structureLinks, Nat.add_0_r.
  apply (Hn _ _ (@graph_node_get _ _ _ _ HI Hin)).
Qed.

(** X9 (no dangling edge). In the graph that a run returns, the source
    and the target of every edge are ids of nodes of the graph. *)
Theorem edge_ends_are_nodes regExpExec files mainLanguage g l :
  analyzeFiles regExpExec files mainLanguage = Some g ->
  In l (graphLinks g) ->
  (exists s, In s (graphNodes g) /\ Node.id s = Link.source l)
  /\ (exists t, In t (graphNodes g) /\ Node.id t = Link.target l).
Proof.
  intros H Hin. apply analyzeFiles_shape in H.
  destruct H as (st & HI & (_ & Hl & _) & -> & Hg). rewrite Hg in Hin.
  apply in_app_or in Hin. destruct Hin as [Hin|Hin].
  - rewrite Forall_forall in Hl. destruct (Hl _ Hin) as (Hs & Ht & _).
    split; eapply has_graph_node; eauto.
  - unfold structureLinks in Hin. apply in_flat_map in Hin.
    destruct Hin as (node & Hnode & Hin).
    destruct (negb (isFile (Node.type node)) && JsMap.has (Node.file node) (nodes st))
      eqn:Hc; [|destruct Hin].
    destruct Hin as [<-|[]]. apply andb_prop in Hc. destruct Hc as [_ Hc].
    split; [eapply has_graph_node; eauto | now exists node].
Qed.

(** X10 (kinds and values). Every edge of the graph that a run returns
    is an import edge of value 3, a call edge of value 1 or a
    containment edge of value 2. *)
Theorem edge_kinds_and_values regExpExec files mainLanguage g l :
  analyzeFiles regExpExec files mainLanguage = Some g ->
  In l (graphLinks g) ->
  (Link.type l = Some Limport /\ Link.value l = 3)
  \/ (Link.type l = Some Lcall /\ Link.value l = 1)
  \/ (Link.type l = Some Lstructure /\ Link.value l = 2).
Proof.
  intros H Hin. apply analyzeFiles_shape in H.
  destruct H as (st & HI & (_ & Hl & _) & _ & Hg). rewrite Hg in Hin.
  apply in_app_or in Hin. destruct Hin as [Hin|Hin].
  - rewrite Forall_forall in Hl.
    destruct (Hl _ Hin) as (_ & _ & [Hk|(H1 & H2 & _)]); auto.
  - apply In_structureLinks in Hin. destruct Hin as (node & _ & ->).
    right. right. split; reflexivity.
Qed.

(** X11 (call edges join entities). In the graph that a run returns,
    both ends of a call edge are nodes that are not files. *)
Theorem call_edges_join_entities regExpExec files mainLanguage g l :
  analyzeFiles regExpExec files mainLanguage = Some g ->
  In l (graphLinks g) ->
  Link.type l = Some Lcall ->
  exists s t,
    In s (graphNodes g) /\ In t (graphNodes g)
    /\ Node.id s = Link.source l /\ Node.id t = Link.target l
    /\ Node.type s <> Tfile /\ Node.type t <> Tfile.
Proof.
  intros H Hin Hty. apply analyzeFiles_shape in H.
  destruct H as (st & HI & (Hn & Hl & _) & -> & Hg). rewrite Hg in Hin.
  apply in_app_or in Hin. destruct Hin as [Hin|Hin].
  - rewrite Forall_forall in Hl.
    destruct (Hl _ Hin) as (_ & _ & [[Hk _]|(_ & _ & Hs & Ht)]);
      [congruence|].
    destruct Hs as (s & Hgs & Hts). destruct Ht as (t & Hgt & Htt).
    exists s, t.
    assert (Hin_s : In s (JsMap.values (nodes st)))
      by (unfold JsMap.values; apply in_map_iff;
          exists (Link.source l, s); split; [reflexivity | now apply get_In]).
    assert (Hin_t : In t (JsMap.values (nodes st)))
      by (unfold JsMap.values; apply in_map_iff;
          exists (Link.target l, t); split; [reflexivity | now apply get_In]).
    repeat split; try assumption.
    + apply (Hn _ _ Hgs).
    + apply (Hn _ _ Hgt).
  - apply In_structureLinks in Hin. destruct Hin as (node & _ & ->).
    discriminate Hty.
Qed.

Lemma length_structureLinks all vs :
  List.length (filter isStructure (structureLinks all vs))
  = List.length
      (filter (fun n => negb (isFile (Node.type n))
                        && JsMap.has (Node.file n) all) vs).
Proof.
  unfold structureLinks.
  induction vs as [|v tl IH]; simpl; [reflexivity|].
  destruct (negb (isFile (Node.type v)) && JsMap.has (Node.file v) all);
    simpl; now rewrite IH.
Qed.

Lemma filter_nil_iff {A : Type} (f : A -> bool) (l : list A) :
  (forall x, In x l -> f x = false) -> filter f l = [].
Proof.
  induction l as [|x tl IH]; simpl; intros H; [reflexivity|].
  rewrite (H x (or_introl eq_refl)). apply IH. intros; apply H; now right.
Qed.

(** X12 (the counts of [updateStats]). For the graph that a run returns:
    [totalFunctions] is the number of containment edges, each node that
    is not a file having one; and [totalFiles] is at most the number of
    files handed to [analyzeFiles]. *)
Theorem stats_of_a_run regExpExec files mainLanguage g :
  analyzeFiles regExpExec files mainLanguage = Some g ->
  totalFunctions g = List.length (filter isStructure (graphLinks g))
  /\ totalFiles g <= List.length files.
Proof.
  intros H. apply analyzeFiles_shape in H.
  destruct H as (st & HI & (Hn & Hl & _) & Hg & Hlinks).
  assert (Hfile : forall n, In n (JsMap.values (nodes st)) ->
                            In (Node.file n) (pathsOf files mainLanguage)).
  { intros n Hin. apply (Hn _ _ (@graph_node_get _ _ _ _ HI Hin)). }
  split.
  - unfold totalFunctions. rewrite Hlinks, Hg, filter_app, length_app.
    rewrite (filter_nil_iff isStructure (links st)).
    + rewrite length_structureLinks. simpl.
      f_equal. apply filter_ext_in. intros n Hin.
      destruct (isFile (Node.type n)); [reflexivity|]. simpl.
      symmetry. apply (proj2 (proj2 HI)). now apply Hfile.
    + intros l Hin. rewrite Forall_forall in Hl.
      destruct (Hl _ Hin) as (_ & _ & [[Hk _]|(Hk & _)]);
        unfold isStructure; now rewrite Hk.
  - unfold totalFiles. rewrite Hg.
    transitivity (List.length (pathsOf files mainLanguage));
      [|unfold pathsOf; now rewrite !length_map].
    apply NoDup_incl_length; [apply NoDup_nodup|].
    intros p Hp. apply nodup_In in Hp. apply in_map_iff in Hp.
    destruct Hp as (n & <- & Hin). now apply Hfile.
Qed.

(* ================================================================== *)
(** * Projects without entities *)
(* ================================================================== *)

Lemma search_empty r p pv :
  consumes r = true -> JsRegExp.search r p pv "" = None.
Proof.
  intros Hc. simpl.
  destruct (JsRegExp.matchAt r p pv "") as [m|] eqn:E; [|reflexivity].
  apply matchAt_reached in E. unfold cost in E. rewrite Hc in E.
  simpl in E. lia.
Qed.

Lemma execAll_empty r : consumes r = true -> JsRegExp.execAll r "" = Some [].
Proof.
  intros Hc. unfold JsRegExp.execAll. simpl JsRegExp.execLoop.
  destruct (JsRegExp.matchAt r 0 None "") as [m|] eqn:E; [|reflexivity].
  apply matchAt_reached in E. unfold cost in E. rewrite Hc in E.
  simpl in E. lia.
Qed.

Lemma quiet_same st st' :
  nodes st' = nodes st -> links st' = links st ->
  importRegistry st' = importRegistry st -> quiet st -> quiet st'.
Proof. unfold quiet. intros -> -> ->. tauto. Qed.

Lemma getFolderColor_importRegistry st path :
  importRegistry (snd (getFolderColor st path)) = importRegistry st.
Proof.
  unfold getFolderColor. cbn [snd].
  destruct (negb (JsMap.has _ (folderColors st))); reflexivity.
Qed.

Lemma quiet_getFolderColor st path :
  quiet st -> quiet (snd (getFolderColor st path)).
Proof.
  apply quiet_same;
    [apply getFolderColor_nodes_links | apply getFolderColor_nodes_links
    | apply getFolderColor_importRegistry].
Qed.

Lemma quiet_fileNodeStep st f : quiet st -> quiet (fileNodeStep st f).
Proof.
  intros Hq. unfold fileNodeStep.
  pose proof (quiet_getFolderColor (fcPath f) Hq) as Hq0.
  destruct (getFolderColor st (fcPath f)) as [folderColor st0]. simpl in Hq0.
  destruct Hq0 as (Hn & Hl & Hr). unfold quiet, setNode; simpl.
  split; [|split; assumption].
  intros n Hin. destruct (In_values_entry _ _ Hin) as (k & Hk).
  apply In_set in Hk. destruct Hk as [[_ ->]|Hk]; [reflexivity|].
  apply Hn. unfold JsMap.values. apply in_map_iff. now exists (k, n).
Qed.

(** Nothing is extracted from an empty text, or for [go] and [java]. *)
Lemma extractEntities_silent st content path lang :
  content = "" \/ lang = go \/ lang = java ->
  extractEntities st content path lang = Some (snd (getFolderColor st path)).
Proof.
  intros H. unfold extractEntities.
  destruct (getFolderColor st path) as [folderColor st0]. cbn [snd].
  destruct H as [->|[->| ->]]; [|reflexivity|reflexivity].
  assert (H1 : match Patterns.patterns lang with
               | Some regex =>
                   ms <- JsRegExp.execAll regex "" ;;
                   Some (forEach (entityStep "" path lang folderColor) ms st0)
               | None => Some st0
               end = Some st0).
  { destruct (Patterns.patterns lang) as [regex|] eqn:E; [|reflexivity].
    now rewrite (@execAll_empty regex (@patterns_consume lang regex E)). }
  rewrite H1. cbn [obind].
  unfold extractClassMethods, extractTypeScriptTypes.
  rewrite (@execAll_empty Patterns.classPattern eq_refl).
  rewrite (@execAll_empty Patterns.interfacePattern eq_refl).
  destruct lang; reflexivity.
Qed.

Lemma extractImports_silent st content path lang :
  content = "" \/ lang = go \/ lang = java ->
  quiet st ->
  exists st', extractImports st content path lang = Some st' /\ quiet st'.
Proof.
  intros H Hq. unfold extractImports.
  destruct H as [->|[->| ->]]; [|eauto|eauto].
  rewrite (@execAll_empty Patterns.importRegex eq_refl).
  destruct lang; eauto; cbn [obind forEachM];
    (eexists; split; [reflexivity|]);
    destruct Hq as (Hn & Hl & Hr);
    (split; [exact Hn | split; [exact Hl|]]);
    cbn [importRegistry withImportRegistry]; intros [k v] Hin;
    apply In_set in Hin; (destruct Hin as [[_ ->]|Hin];
                          [reflexivity | now apply Hr]).
Qed.

Lemma importingFileSteps_no_binding entries : forall st,
  (forall entry, In entry entries -> snd entry = []) ->
  forEach importingFileStep entries st = st.
Proof.
  unfold forEach.
  induction entries as [|[file imports] tl IH]; intros st Hin;
    [reflexivity|].
  assert (E : imports = []) by (apply (Hin (file, imports)); now left).
  subst imports. simpl.
  destruct (negb (JsMap.has file (nodes st)));
    (apply IH; intros e He; apply Hin; now right).
Qed.

Lemma createFileImportLinks_quiet st filePaths :
  quiet st -> createFileImportLinks st filePaths = st.
Proof.
  intros (_ & _ & Hr). unfold createFileImportLinks.
  now apply importingFileSteps_no_binding.
Qed.

Lemma extractCalls_quiet regExpExec st content path lang :
  quiet st -> extractCalls regExpExec st content path lang = Some st.
Proof.
  intros (Hn & _). unfold extractCalls.
  generalize (JsMap.values (nodes st)) Hn. clear Hn.
  intros allNodes. induction allNodes as [|t tl IH]; intros Hn;
    [reflexivity|].
  simpl. unfold targetStep at 1, visibleAs.
  rewrite (Hn t (or_introl eq_refl)). cbn [isFile obind].
  apply IH. intros; apply Hn; now right.
Qed.

Lemma structureLinks_quiet all vs :
  (forall n, In n vs -> Node.type n = Tfile) -> structureLinks all vs = [].
Proof.
  unfold structureLinks. induction vs as [|v tl IH]; intros H;
    [reflexivity|].
  simpl. rewrite (H v (or_introl eq_refl)). simpl.
  apply IH. intros; apply H; now right.
Qed.

(** X13 (empty files and languages without patterns). When every file is
    empty or is a [go] or [java] file, the run returns, whatever the call
    pattern does; the graph has no edge, every node is a file node, and
    every path of the run is the id of one of them. *)
Theorem silent_project regExpExec files mainLanguage :
  (forall f, In f files -> silentFile mainLanguage f) ->
  exists g,
    analyzeFiles regExpExec files mainLanguage = Some g
    /\ graphLinks g = []
    /\ (forall n, In n (graphNodes g) -> Node.type n = Tfile)
    /\ (forall p, In p (pathsOf files mainLanguage) ->
                  exists n, In n (graphNodes g) /\ Node.id n = p).
Proof.
  intros Hsilent. unfold analyzeFiles.
  set (fcs := map (readFile mainLanguage) files).
  set (P := pathsOf files mainLanguage).
  assert (Hfcs : forall f, In f fcs ->
                           fcContent f = "" \/ fcLang f = go \/ fcLang f = java).
  { intros f Hf. unfold fcs in Hf. apply in_map_iff in Hf.
    destruct Hf as (f0 & <- & Hf0). exact (Hsilent f0 Hf0). }
  set (st1 := forEach fileNodeStep fcs emptyParser).
  assert (Hq1 : quiet st1).
  { apply forEach_inv; [intros; now apply quiet_fileNodeStep|].
    unfold quiet; simpl. split; [|split; [reflexivity|]]; intros ? []. }
  assert (HI1 : Inv P P st1).
  { eapply Inv_weaken; [|apply Inv_fileNodes, Inv_emptyParser].
    intros k Hk. apply in_or_app. left. rewrite <- in_rev. exact Hk. }
  assert (H2 : forall l s, (forall f, In f l -> In f fcs) ->
             Inv P P s -> quiet s ->
             exists s', forEachM (fun st f => extractEntities st (fcContent f)
                                                (fcPath f) (fcLang f)) l s
                        = Some s' /\ Inv P P s' /\ quiet s').
  { induction l as [|f tl IH]; intros s Hl HI Hq; [simpl; eauto|].
    cbn [forEachM].
    rewrite (@extractEntities_silent s (fcContent f) (fcPath f) (fcLang f)
               (Hfcs f (Hl f (or_introl eq_refl)))).
    cbn [obind]. apply IH; [intros; apply Hl; now right | |].
    - now apply Inv_getFolderColor.
    - now apply quiet_getFolderColor. }
  destruct (H2 fcs st1 (fun f Hf => Hf) HI1 Hq1) as (st2 & -> & HI2 & Hq2).
  cbn [obind].
  assert (H3 : forall l s, (forall f, In f l -> In f fcs) ->
             Inv P P s -> quiet s ->
             exists s', forEachM (fun st f => extractImports st (fcContent f)
                                                (fcPath f) (fcLang f)) l s
                        = Some s' /\ Inv P P s' /\ quiet s').
  { induction l as [|f tl IH]; intros s Hl HI Hq; [simpl; eauto|].
    cbn [forEachM].
    destruct (@extractImports_silent s (fcContent f) (fcPath f) (fcLang f)
                (Hfcs f (Hl f (or_introl eq_refl))) Hq) as (s1 & E & Hq').
    rewrite E. cbn [obind]. apply IH; [intros; apply Hl; now right | |exact Hq'].
    eapply Inv_extractImports; eauto. }
  destruct (H3 fcs st2 (fun f Hf => Hf) HI2 Hq2) as (st3 & -> & HI3 & Hq3).
  cbn [obind]. rewrite (@createFileImportLinks_quiet st3 _ Hq3).
  assert (H5 : forall l,
             forEachM (fun st f => extractCalls regExpExec st (fcContent f)
                                     (fcPath f) (fcLang f)) l st3 = Some st3).
  { induction l as [|f tl IH]; [reflexivity|].
    cbn [forEachM]. rewrite (@extractCalls_quiet regExpExec st3 _ _ _ Hq3). exact IH. }
  rewrite H5. cbn [obind]. eexists. split; [reflexivity|].
  destruct Hq3 as (Hn & Hl & _). simpl.
  rewrite forEach_structureStep, Hl, (@structureLinks_quiet _ _ Hn).
  split; [reflexivity | split; [exact Hn|]].
  intros p Hp. eapply has_graph_node; [exact HI3|].
  apply (proj2 (proj2 HI3)). exact Hp.
Qed.

(* ================================================================== *)
(** * The run returns *)
(* ================================================================== *)

Lemma splitLoop_total r : consumes r = true ->
  forall fuel p cur q pv sq, String.length sq < fuel ->
    exists pieces, JsRegExp.splitLoop fuel r p cur q pv sq = Some pieces.
Proof.
  intros Hc. induction fuel as [|fuel IH]; intros p cur q pv sq Hlt; [lia|].
  simpl. destruct sq as [|c tl]; [eauto|].
  simpl in Hlt.
  assert (Hskip : exists pieces,
             JsRegExp.splitLoop fuel r p (String c cur) (S q) (Some c) tl
             = Some pieces) by (apply IH; lia).
  destruct (JsRegExp.matchAt r q pv (String c tl)) as [m|] eqn:E;
    [|exact Hskip].
  destruct (JsRegExp.pos (JsRegExp.stop m) =? p); [exact Hskip|].
  apply matchAt_reached in E. unfold cost, remaining in E. rewrite Hc in E.
  simpl in E.
  match goal with |- context [JsRegExp.splitLoop fuel r ?p' ?c' ?q' ?v' ?s'] =>
    destruct (IH p' c' q' v' s') as [pieces ->]; [lia | eauto] end.
Qed.

Lemma split_total r s :
  consumes r = true -> exists pieces, JsRegExp.split r s = Some pieces.
Proof.
  intros Hc. unfold JsRegExp.split. destruct s as [|c tl].
  - destruct (JsRegExp.matchAt r 0 None ""); eauto.
  - apply splitLoop_total; [exact Hc | simpl; lia].
Qed.

Lemma importStep_total path fileImports m :
  exists fileImports', importStep path fileImports m = Some fileImports'.
Proof.
  unfold importStep.
  destruct (JsRegExp.group 2 m) as [named|]; [|eauto].
  destruct (truthy named); [|eauto].
  apply forEachM_total. intros fi p _. unfold namedImportStep.
  destruct (@split_total Patterns.asPattern (trim p) eq_refl) as [pieces ->].
  cbn [obind]. destruct (orElse _ _); eauto.
Qed.

Lemma extractImports_total st content path lang :
  exists st', extractImports st content path lang = Some st'.
Proof.
  unfold extractImports.
  destruct (@execAll_total Patterns.importRegex content eq_refl) as [ms Hms].
  destruct (@forEachM_total _ _ (importStep path) ms
              (fun fi m _ => importStep_total path fi m) JsMap.empty)
    as [fileImports Hfi].
  destruct lang; eauto; rewrite Hms; cbn [obind]; rewrite Hfi; cbn [obind];
    eauto.
Qed.

(* ================================================================== *)
(** * Names with a dollar sign *)
(* ================================================================== *)

Section Dollar.
Import JsRegExp.

Lemma run_seqs_cons x l st k :
  run (seqs (x :: l)) st k = run x st (fun st1 => run (seqs l) st1 k).
Proof. destruct l; reflexivity. Qed.

Lemma consumes_seqs_cons x l :
  l <> [] -> consumes (seqs (x :: l)) = consumes x || consumes (seqs l).
Proof. destruct l; [contradiction | reflexivity]. Qed.

Lemma consumes_seqs_end c : forall l a,
  consumes (seqs (l ++ [a; Lit c])) = true.
Proof.
  induction l as [|x tl IH]; intros a.
  - simpl. apply orb_true_r.
  - change ((x :: tl) ++ [a; Lit c]) with (x :: (tl ++ [a; Lit c])).
    rewrite consumes_seqs_cons, IH; [apply orb_true_r|].
    destruct tl; discriminate.
Qed.

(** After [$] has matched there is no character left for a pattern that
    consumes. *)
Lemma run_after_end_of_input ys : consumes (seqs ys) = true ->
  forall xs st k, run (seqs (xs ++ EndOfInput :: ys)) st k = None.
Proof.
  intros Hc. induction xs as [|x tl IH]; intros st k.
  - cbn [app]. rewrite run_seqs_cons. simpl.
    destruct (rest st) eqn:Er; [|reflexivity].
    destruct (run (seqs ys) st k) as [res|] eqn:E; [|reflexivity].
    apply run_reached in E. destruct E as (st' & _ & Hle).
    unfold reached, cost, remaining in Hle. rewrite Hc, Er in Hle.
    simpl in Hle. lia.
  - change ((x :: tl) ++ EndOfInput :: ys)
      with (x :: (tl ++ EndOfInput :: ys)).
    rewrite run_seqs_cons.
    destruct (run x st _) as [res|] eqn:E; [|reflexivity].
    apply run_reached in E. destruct E as (st' & E & _).
    rewrite IH in E. discriminate E.
Qed.

Lemma search_None r : (forall st k, run r st k = None) ->
  forall s p pv, search r p pv s = None.
Proof.
  intros Hr. induction s as [|c tl IH]; intros p pv; simpl;
    unfold matchAt; rewrite Hr; [reflexivity | apply IH].
Qed.

Lemma includes_dollar_cons c tl :
  includes "$" (String c tl) = true -> c = "$"%char \/ includes "$" tl = true.
Proof.
  intros H.
  change (includes "$" (String c tl))
    with (String.prefix "$" (String c tl) || includes "$" tl) in H.
  apply orb_prop in H. destruct H as [H|H]; [left | now right].
  change (String.prefix "$" (String c tl))
    with (if Ascii.ascii_dec "$" c then String.prefix "" tl else false) in H.
  destruct (Ascii.ascii_dec "$" c); [auto | discriminate].
Qed.

Lemma namePattern_dollar : forall name atoms,
  includes "$" name = true ->
  Patterns.namePattern name = Some atoms ->
  exists xs ys, atoms = xs ++ EndOfInput :: ys.
Proof.
  induction name as [|c tl IH]; intros atoms Hinc Hp; [discriminate Hinc|].
  destruct (includes_dollar_cons _ _ Hinc) as [->|Hinc'].
  - simpl in Hp. bind_inv Hp. injection Hp as <-. now exists [], a.
  - cbn [Patterns.namePattern] in Hp. bind_inv Hp. bind_inv Hp.
    injection Hp as <-.
    destruct (IH _ Hinc' Ha0) as (xs & ys & ->).
    now exists (a :: xs), ys.
Qed.

End Dollar.

Lemma namePattern_readable : forall callName,
  readable callName = true ->
  exists atoms, Patterns.namePattern callName = Some atoms.
Proof.
  unfold readable.
  induction callName as [|c tl IH]; intros H; [now exists []|].
  cbn [allChars] in H. apply andb_prop in H. destruct H as [Hc Htl].
  destruct (IH Htl) as [atoms Ha]. cbn [Patterns.namePattern]. rewrite Ha.
  destruct (Ascii.eqb c "."); [cbn [obind]; eauto|].
  destruct (Ascii.eqb c "$"); [cbn [obind]; eauto|].
  cbn [orb] in Hc. apply negb_true_iff in Hc. rewrite Hc.
  cbn [obind]. eauto.
Qed.

(** The pattern of a readable name reads an opening parenthesis in every
    match, so the loop over its matches ends. *)
Lemma callSites_readable callName content :
  readable callName = true ->
  exists sites, Patterns.callSites callName content = Some sites.
Proof.
  intros H. destruct (namePattern_readable _ H) as [atoms Ha].
  unfold Patterns.callSites, Patterns.callRegex. rewrite Ha. cbn [obind].
  match goal with |- context [JsRegExp.execAll ?re content] =>
    destruct (@execAll_total re content) as [ms ->] end.
  - change ([JsRegExp.WordB] ++ atoms
            ++ [JsRegExp.Star JsRegExp.ws; JsRegExp.Lit "("])
      with ((JsRegExp.WordB :: atoms)
            ++ [JsRegExp.Star JsRegExp.ws; JsRegExp.Lit "("]).
    apply consumes_seqs_end.
  - cbn [obind]. eauto.
Qed.

(** X15 (call names with a dollar sign). Take a call name whose
    characters stand for themselves in a pattern or are [.] or [$], with a
    [$] in it. The loop over the pattern built from it returns without a
    match, whatever the text: in the pattern the character stands for the
    end of the input, and what comes after it still has to read an opening
    parenthesis. So [extractCalls] leaves the parser as it is for a target
    that it looks for under such a name, as for the entity [$el] called
    under its own name. *)
Theorem dollar_name_never_matches callName content :
  readable callName = true ->
  includes "$" callName = true ->
  Patterns.callSites callName content = Some []
  /\ forall path lang fileImports st targetNode,
       visibleAs path lang fileImports targetNode = Some callName ->
       targetStep Patterns.callSites content path lang fileImports st
                  targetNode
       = Some st.
Proof.
  intros Hr Hinc.
  assert (Hsites : Patterns.callSites callName content = Some []).
  { destruct (namePattern_readable _ Hr) as [atoms Ha].
    unfold Patterns.callSites, Patterns.callRegex. rewrite Ha. cbn [obind].
    destruct (namePattern_dollar _ Hinc Ha) as (xs & ys & ->).
    assert (Hnone : forall st k,
               JsRegExp.run
                 (JsRegExp.seqs
                    ([JsRegExp.WordB] ++ (xs ++ JsRegExp.EndOfInput :: ys)
                     ++ [JsRegExp.Star JsRegExp.ws; JsRegExp.Lit "("]))
                 st k = None).
    { intros st k.
      replace ([JsRegExp.WordB] ++ (xs ++ JsRegExp.EndOfInput :: ys)
               ++ [JsRegExp.Star JsRegExp.ws; JsRegExp.Lit "("])
        with ((JsRegExp.WordB :: xs) ++ JsRegExp.EndOfInput
                :: (ys ++ [JsRegExp.Star JsRegExp.ws; JsRegExp.Lit "("]))
        by (simpl; now rewrite <- app_assoc).
      apply run_after_end_of_input. apply consumes_seqs_end. }
    unfold JsRegExp.execAll.
    replace (String.length content + 2) with (S (S (String.length content)))
      by lia.
    cbn [JsRegExp.execLoop].
    rewrite (search_None _ Hnone). reflexivity. }
  split; [exact Hsites|].
  intros path lang fileImports st targetNode Hv.
  unfold targetStep. rewrite Hv, Hsites. reflexivity.
Qed.

(* ================================================================== *)
(** * The files that are analysed *)
(* ================================================================== *)

Lemma rev_onto_app : forall a b acc,
  rev_onto acc (a ++ b)%string = rev_onto (rev_onto acc a) b.
Proof.
  induction a as [|c tl IH]; intros b acc; simpl; [reflexivity | apply IH].
Qed.

Lemma string_app_assoc (a b c : string) :
  ((a ++ b) ++ c)%string = (a ++ (b ++ c))%string.
Proof. induction a as [|x tl IH]; simpl; [reflexivity | now rewrite IH]. Qed.

Lemma rev_onto_acc : forall s acc,
  rev_onto acc s = (JsString.rev s ++ acc)%string.
Proof.
  unfold JsString.rev.
  induction s as [|c tl IH]; intros acc; simpl; [reflexivity|].
  rewrite IH, (IH (String c "")).
  rewrite string_app_assoc. reflexivity.
Qed.

Lemma prefix_before_slash : forall e n d,
  allChars (fun c => negb (Ascii.eqb c "/")) e = true ->
  String.prefix e (n ++ String "/" d) = true ->
  String.prefix e n = true.
Proof.
  induction e as [|c e' IH]; intros n d Hall H; [destruct n; reflexivity|].
  simpl in Hall. apply andb_prop in Hall. destruct Hall as [Hc Hall].
  destruct n as [|c2 n'].
  - cbn [append String.prefix] in H.
    destruct (Ascii.ascii_dec c "/") as [->|]; [discriminate Hc | discriminate H].
  - cbn [append String.prefix] in H. cbn [String.prefix].
    destruct (Ascii.ascii_dec c c2); [now apply (IH n' d) | discriminate H].
Qed.

(** An extension at the end of [dir/name] is at the end of [name]. *)
Lemma endsWith_name ext dir name :
  allChars (fun c => negb (Ascii.eqb c "/")) ext = true ->
  endsWith ext (dir ++ "/" ++ name)%string = true ->
  endsWith ext name = true.
Proof.
  unfold endsWith. intros Hall H.
  unfold JsString.rev at 2 in H. rewrite rev_onto_app in H.
  cbn [append rev_onto] in H. rewrite rev_onto_acc in H.
  apply (prefix_before_slash _ _ _) in H; [exact H|].
  unfold JsString.rev. rewrite allChars_rev_onto, Hall. reflexivity.
Qed.

(** X16 (the language of a selected file). A file that the filter lets
    through, whose path is its name or ends with a slash and its name,
    gets its language from its extension: the language chosen in the
    interface plays no part. *)
Theorem selected_file_language f l1 l2 :
  isSelected f = true ->
  (filePathOf f = fileName f
   \/ exists dir, filePathOf f = (dir ++ "/" ++ fileName f)%string) ->
  detectLanguage (fileName f) l1 = detectLanguage (fileName f) l2.
Proof.
  intros Hsel Hpath. unfold isSelected in Hsel.
  apply andb_prop in Hsel. destruct Hsel as [_ Hext].
  assert (Hname : existsb (fun ext => endsWith ext (fileName f))
                          supportedExtensions = true).
  { apply existsb_exists in Hext. destruct Hext as (ext & Hin & He).
    apply existsb_exists. exists ext. split; [exact Hin|].
    destruct Hpath as [<-|(dir & Hp)]; [exact He|].
    rewrite Hp in He. apply (endsWith_name _ _ _) in He; [exact He|].
    unfold supportedExtensions in Hin. simpl in Hin.
    repeat (destruct Hin as [<-|Hin]; [reflexivity|]). destruct Hin. }
  unfold supportedExtensions in Hname. cbn [existsb] in Hname.
  unfold detectLanguage.
  destruct (endsWith ".ts" (fileName f)), (endsWith ".tsx" (fileName f)),
    (endsWith ".js" (fileName f)), (endsWith ".jsx" (fileName f)),
    (endsWith ".py" (fileName f)), (endsWith ".go" (fileName f)),
    (endsWith ".java" (fileName f)), (endsWith ".rs" (fileName f));
    try reflexivity; discriminate Hname.
Qed.

(* ================================================================== *)
(** * Import edges *)
(* ================================================================== *)

(** A loop reaches [Q] when one of its steps brings it about from any
    state in [R], every step keeps [R], and every step keeps [Q]. *)
Lemma forEach_reaches {A S : Type} (R Q : S -> Prop) (body : S -> A -> S)
      (xs : list A) (x : A) :
  In x xs ->
  (forall s y, R s -> R (body s y)) ->
  (forall s y, Q s -> Q (body s y)) ->
  (forall s, R s -> Q (body s x)) ->
  forall s, R s -> Q (forEach body xs s).
Proof.
  intros Hin HR HQ Hx. unfold forEach.
  induction xs as [|y tl IH]; intros s Hs; [destruct Hin|].
  simpl. destruct Hin as [->|Hin].
  - apply (forEach_inv Q); [intros; now apply HQ | now apply Hx].
  - apply IH; [exact Hin | now apply HR].
Qed.

(** [probeExtensions] stops at the first extension that gives a key of
    [nodes]. *)
Lemma probeExtensions_first st importingFile resolvedPath exts :
  probeExtensions st importingFile resolvedPath exts =
  match find (fun ext => JsMap.has (resolvedPath ++ ext)%string (nodes st)) exts with
  | Some ext =>
      match find (sameEnds importingFile (resolvedPath ++ ext)%string) (links st) with
      | None => pushLink st (Link.Build importingFile (resolvedPath ++ ext)%string
                                        3 (Some Limport))
      | Some _ => st
      end
  | None => st
  end.
Proof.
  induction exts as [|ext tl IH]; simpl; [reflexivity|].
  destruct (JsMap.has (resolvedPath ++ ext)%string (nodes st));
    [reflexivity | exact IH].
Qed.

Lemma links_probeExtensions st importingFile resolvedPath exts l :
  In l (links st) ->
  In l (links (probeExtensions st importingFile resolvedPath exts)).
Proof.
  intros Hin. rewrite probeExtensions_first.
  destruct (find _ exts); [|exact Hin].
  destruct (find _ (links st)); [exact Hin|].
  simpl. apply in_or_app. now left.
Qed.

Lemma nodes_importingFileStep st entry :
  nodes (importingFileStep st entry) = nodes st.
Proof.
  destruct entry as [file imports]. unfold importingFileStep.
  destruct (negb (JsMap.has file (nodes st))); [reflexivity|].
  apply (forEach_inv (fun s => nodes s = nodes st)); [|reflexivity].
  intros s e _ Hs. unfold importLinkStep.
  now rewrite nodes_probeExtensions.
Qed.

Lemma links_importingFileStep st entry l :
  In l (links st) -> In l (links (importingFileStep st entry)).
Proof.
  intros Hin. destruct entry as [file imports]. unfold importingFileStep.
  destruct (negb (JsMap.has file (nodes st))); [exact Hin|].
  apply (forEach_inv (fun s => In l (links s))); [|exact Hin].
  intros s e _ Hs. now apply links_probeExtensions.
Qed.

(** X17 (an import edge for every binding that resolves). After
    [createFileImportLinks], for every file that is a key of [nodes] and
    every binding of it whose source, with the first extension of the
    list that gives a key of [nodes], is such a key: the edges have one
    from the file to that key. *)
Theorem import_edge_for_binding st filePaths file imports name meta ext :
  In (file, imports) (importRegistry st) ->
  JsMap.has file (nodes st) = true ->
  In (name, meta) imports ->
  find (fun e => JsMap.has (sourceFile meta ++ e)%string (nodes st)) extensions
  = Some ext ->
  exists l,
    In l (links (createFileImportLinks st filePaths))
    /\ Link.source l = file
    /\ Link.target l = (sourceFile meta ++ ext)%string.
Proof.
  intros Hfile Hhas Hbinding Hext. unfold createFileImportLinks.
  set (Q := fun s : Parser =>
              exists l, In l (links s) /\ Link.source l = file
                        /\ Link.target l = (sourceFile meta ++ ext)%string).
  set (R := fun s : Parser => nodes s = nodes st).
  assert (HQprobe : forall s f r exts, Q s -> Q (probeExtensions s f r exts)).
  { intros s f r exts (l & Hl & Hs & Ht). exists l.
    split; [now apply links_probeExtensions | auto]. }
  apply (forEach_reaches R Q _ _ (file, imports) Hfile); [| | |reflexivity].
  - intros s y Hs. unfold R. now rewrite nodes_importingFileStep.
  - intros s y (l & Hl & Hs & Ht). exists l.
    split; [now apply links_importingFileStep | auto].
  - intros s Hs. unfold importingFileStep. unfold R in Hs.
    rewrite Hs, Hhas. cbn [negb].
    apply (forEach_reaches R Q _ _ (name, meta) Hbinding); [| | |exact Hs].
    + intros s0 y Hs0. unfold R, importLinkStep.
      now rewrite nodes_probeExtensions.
    + intros s0 y. apply HQprobe.
    + intros s0 Hs0. unfold importLinkStep. cbn [snd].
      rewrite probeExtensions_first. unfold R in Hs0. rewrite Hs0, Hext.
      destruct (find _ (links s0)) as [l|] eqn:Hf.
      * apply find_some in Hf. destruct Hf as [Hin Hends].
        unfold sameEnds in Hends. apply andb_prop in Hends.
        destruct Hends as [Hs' Ht']. apply String.eqb_eq in Hs', Ht'.
        now exists l.
      * eexists. split; [simpl; apply in_or_app; right; now left|].
        split; reflexivity.
Qed.

(** X18 (where import edges come from). [createFileImportLinks] leaves
    [nodes] as it is, whether it adds an edge or not; and every edge that
    it adds is an import edge of value 3, from a file that is a key of
    [nodes] to the source of one of its bindings with the first extension
    that gives a key of [nodes]. *)
Theorem import_edges_from_bindings st filePaths :
  nodes (createFileImportLinks st filePaths) = nodes st
  /\ forall l,
       In l (links (createFileImportLinks st filePaths)) ->
       In l (links st)
       \/ (Link.type l = Some Limport /\ Link.value l = 3
           /\ JsMap.has (Link.source l) (nodes st) = true
           /\ exists imports name meta ext,
                In (Link.source l, imports) (importRegistry st)
                /\ In (name, meta) imports
                /\ find (fun e => JsMap.has (sourceFile meta ++ e)%string
                                            (nodes st)) extensions = Some ext
                /\ Link.target l = (sourceFile meta ++ ext)%string).
Proof.
  set (new := fun l : CodeLink =>
                Link.type l = Some Limport /\ Link.value l = 3
                /\ JsMap.has (Link.source l) (nodes st) = true
                /\ exists imports name meta ext,
                     In (Link.source l, imports) (importRegistry st)
                     /\ In (name, meta) imports
                     /\ find (fun e => JsMap.has (sourceFile meta ++ e)%string
                                                 (nodes st)) extensions = Some ext
                     /\ Link.target l = (sourceFile meta ++ ext)%string).
  set (J := fun s : Parser =>
              nodes s = nodes st
              /\ forall l, In l (links s) -> In l (links st) \/ new l).
  assert (HJ : J (createFileImportLinks st filePaths)).
  { unfold createFileImportLinks.
    apply forEach_inv; [|split; [reflexivity | now left]].
    intros s [file imports] Hentry [Hn Hl]. unfold importingFileStep.
    destruct (JsMap.has file (nodes s)) eqn:Hhas; cbn [negb];
      [|split; assumption].
    assert (Hsub : forall e, In e (JsMap.entries imports) ->
                             In e (JsMap.entries imports)) by auto.
    revert Hsub. generalize (JsMap.entries imports) at 1 3.
    intros entries Hsub.
    apply forEach_inv; [|split; assumption].
    intros s0 [name meta] He [Hn0 Hl0]. unfold importLinkStep. cbn [snd].
    split; [now rewrite nodes_probeExtensions|].
    rewrite probeExtensions_first, Hn0.
    destruct (find _ extensions) as [ext|] eqn:Hext; [|exact Hl0].
    destruct (find _ (links s0)); [exact Hl0|].
    simpl. intros l0 Hin. apply in_app_or in Hin.
    destruct Hin as [Hin|[<-|[]]]; [now apply Hl0|].
    right. unfold new. cbn [Link.type Link.value Link.source Link.target].
    rewrite <- Hn. split; [reflexivity | split; [reflexivity|]].
    split; [exact Hhas|].
    exists imports, name, meta, ext. rewrite Hn.
    repeat split; try assumption. now apply Hsub. }
  exact HJ.
Qed.

(* ================================================================== *)
(** * The end of a class body *)
(* ================================================================== *)

Lemma substring_zero : forall s n, String.substring n 0 s = "".
Proof.
  induction s as [|c tl IH]; intros [|n]; simpl; try reflexivity. apply IH.
Qed.

Lemma substring_step : forall s n m c,
  String.get n s = Some c ->
  String.substring n (S m) s = String c (String.substring (S n) m s).
Proof.
  induction s as [|c0 tl IH]; intros n m c Hg; [destruct n; discriminate|].
  destruct n as [|n]; simpl in *.
  - injection Hg as <-. reflexivity.
  - now apply IH.
Qed.

Lemma get_in_bounds : forall s n,
  n < String.length s -> exists c, String.get n s = Some c.
Proof.
  induction s as [|c0 tl IH]; intros n Hlt; simpl in Hlt; [lia|].
  destruct n as [|n]; simpl; [eauto | apply IH; lia].
Qed.

Lemma scanBraces_depth content : forall fuel braceCount start e,
  (0 <= braceCount)%Z ->
  scanBraces fuel content braceCount start = Some e ->
  start <= e
  /\ (forall i, start <= i -> i < e ->
        (0 < braceDepth braceCount (JsString.substring start i content))%Z)
  /\ (String.length content <= e
      \/ braceDepth braceCount (JsString.substring start e content) = 0%Z).
Proof.
  unfold JsString.substring.
  induction fuel as [|fuel IH]; intros bc start e Hbc H; [discriminate|].
  simpl in H.
  destruct (0 <? bc)%Z eqn:Hpos; cbn [andb] in H.
  - destruct (start <? String.length content) eqn:Hidx.
    + apply Z.ltb_lt in Hpos. apply Nat.ltb_lt in Hidx.
      destruct (get_in_bounds _ Hidx) as (c & Hc).
      unfold charAt in H. rewrite Hc in H.
      apply IH in H;
        [|destruct (Ascii.eqb c "{"), (Ascii.eqb c "}"); lia].
      destruct H as (Hle & Hbefore & Hend).
      assert (Hstep : forall i, S start <= i ->
                 braceDepth bc (String.substring start (i - start) content)
                 = braceDepth
                     (if Ascii.eqb c "}"
                      then ((if Ascii.eqb c "{" then bc + 1 else bc) - 1)%Z
                      else (if Ascii.eqb c "{" then (bc + 1)%Z else bc))
                     (String.substring (S start) (i - S start) content)).
      { intros i Hi. replace (i - start) with (S (i - S start)) by lia.
        rewrite (substring_step _ _ _ Hc). reflexivity. }
      split; [lia | split].
      * intros i Hi Hie. destruct (Nat.eq_dec i start) as [->|Hne].
        -- rewrite Nat.sub_diag, substring_zero. simpl. exact Hpos.
        -- rewrite Hstep by lia. apply Hbefore; lia.
      * destruct Hend as [Hend|Hend]; [now left | right].
        rewrite Hstep by lia. exact Hend.
    + injection H as <-. apply Nat.ltb_ge in Hidx.
      split; [lia | split; [intros; lia | now left]].
  - injection H as <-. apply Z.ltb_ge in Hpos.
    split; [lia | split; [intros; lia | right]].
    rewrite Nat.sub_diag, substring_zero. simpl. lia.
Qed.

(** X19 (where a class body ends). The index that the walk over a class
    body returns, started with the count 1 after the opening brace, is
    the first at which the braces read since then are balanced with
    that brace, when there is one: before it the count is positive, and
    at it the count is 0 or the text is at its end. *)
Theorem class_body_end content start e :
  scanBraces (S (String.length content)) content 1 start = Some e ->
  start <= e
  /\ (forall i, start <= i -> i < e ->
        (0 < braceDepth 1 (JsString.substring start i content))%Z)
  /\ (String.length content <= e
      \/ braceDepth 1 (JsString.substring start e content) = 0%Z).
Proof. apply scanBraces_depth. lia. Qed.

(* ================================================================== *)
(** * Type declarations *)
(* ================================================================== *)

(** X20 (a type never replaces an entity). The pass over the interface
    and type declarations leaves every node that was registered before
    it as it is, and adds no edge: of an entity and a type of one name
    in one file, the entity stays. *)
Theorem types_never_overwrite st content path folderColor st' k n :
  extractTypeScriptTypes st content path folderColor = Some st' ->
  JsMap.get k (nodes st) = Some n ->
  JsMap.get k (nodes st') = Some n /\ links st' = links st.
Proof.
  intros H Hg. unfold extractTypeScriptTypes in H. bind_inv H.
  injection H as <-.
  apply (forEach_inv
           (fun s => JsMap.get k (nodes s) = Some n /\ links s = links st));
    [|split; [exact Hg | reflexivity]].
  intros s m _ [Hs Hl]. unfold typeStep.
  destruct (JsMap.has (path ++ ":" ++ capture 1 m)%string (nodes s)) eqn:Hhas;
    cbn [negb]; [split; assumption|].
  split; [|exact Hl]. unfold setNode. cbn [nodes withNodes Node.id].
  rewrite get_set.
  destruct (String.eqb_spec k (path ++ ":" ++ capture 1 m)%string) as [->|];
    [|exact Hs].
  unfold JsMap.has in Hhas. rewrite Hs in Hhas. discriminate Hhas.
Qed.

(* ================================================================== *)
(** * The properties at the example projects *)
(* ================================================================== *)

Lemma getFolderColor_stable_witness :
  (folderOf "src/b.ts" = folderOf "src/a.ts"
   /\ JsMap.get "src" (folderColors colorParser) = Some "#00ff9f")
  /\ getFolderColor (snd (getFolderColor emptyParser "src/a.ts")) "src/b.ts"
     = getFolderColor emptyParser "src/a.ts"
  /\ JsMap.get "src" (folderColors (snd (getFolderColor colorParser "lib/a.ts")))
     = Some "#00ff9f".
Proof.
  assert (H1 : folderOf "src/b.ts" = folderOf "src/a.ts") by reflexivity.
  assert (H2 : JsMap.get "src" (folderColors colorParser) = Some "#00ff9f")
    by reflexivity.
  split; [split; assumption|].
  split.
  - exact (proj1 (getFolderColor_stable emptyParser "src/a.ts" "src/b.ts") H1).
  - exact (proj2 (getFolderColor_stable colorParser "lib/a.ts" "lib/a.ts")
                 "src" "#00ff9f" H2).
Defined.

Lemma normalizePath_idempotent_witness :
  startsWith "." "./b" = true
  /\ normalizePath (resolveImportPath "src/a.ts" "./b")
     = resolveImportPath "src/a.ts" "./b".
Proof.
  assert (H : startsWith "." "./b" = true) by reflexivity.
  split; [exact H|].
  exact (proj2 (normalizePath_idempotent "src/../src" "src/a.ts" "./b") H).
Defined.

Lemma node_ids_unique_witness :
  analyzeFiles Patterns.callSites [aTs; bTs] typescript = Some exampleGraph
  /\ NoDup (map Node.id (graphNodes exampleGraph)).
Proof.
  split; [exact analyzeFiles_example|].
  exact (@node_ids_unique Patterns.callSites [aTs; bTs] typescript
           exampleGraph analyzeFiles_example).
Defined.

Lemma helperNode_in_example : In helperNode (graphNodes exampleGraph).
Proof. simpl. right. right. right. left. reflexivity. Qed.

Lemma callEdge_in_example : In callEdge (graphLinks exampleGraph).
Proof. simpl. right. left. reflexivity. Qed.

Lemma node_shape_witness :
  (analyzeFiles Patterns.callSites [aTs; bTs] typescript = Some exampleGraph
   /\ In helperNode (graphNodes exampleGraph))
  /\ nodeShape (pathsOf [aTs; bTs] typescript) (Node.id helperNode) helperNode.
Proof.
  split; [split; [exact analyzeFiles_example | exact helperNode_in_example]|].
  exact (@node_shape Patterns.callSites [aTs; bTs] typescript exampleGraph
           helperNode analyzeFiles_example helperNode_in_example).
Defined.

Lemma size_counts_inbound_calls_witness :
  (analyzeFiles Patterns.callSites [aTs; bTs] typescript = Some exampleGraph
   /\ In helperNode (graphNodes exampleGraph))
  /\ Node.sizeAdds helperNode
     = callsTo (Node.id helperNode) (graphLinks exampleGraph).
Proof.
  split; [split; [exact analyzeFiles_example | exact helperNode_in_example]|].
  exact (@size_counts_inbound_calls Patterns.callSites [aTs; bTs] typescript
           exampleGraph helperNode analyzeFiles_example helperNode_in_example).
Defined.

Lemma edge_ends_are_nodes_witness :
  (analyzeFiles Patterns.callSites [aTs; bTs] typescript = Some exampleGraph
   /\ In callEdge (graphLinks exampleGraph))
  /\ (exists s, In s (graphNodes exampleGraph)
                /\ Node.id s = Link.source callEdge)
  /\ (exists t, In t (graphNodes exampleGraph)
                /\ Node.id t = Link.target callEdge).
Proof.
  split; [split; [exact analyzeFiles_example | exact callEdge_in_example]|].
  exact (@edge_ends_are_nodes Patterns.callSites [aTs; bTs] typescript
           exampleGraph callEdge analyzeFiles_example callEdge_in_example).
Defined.

Lemma edge_kinds_and_values_witness :
  (analyzeFiles Patterns.callSites [aTs; bTs] typescript = Some exampleGraph
   /\ In callEdge (graphLinks exampleGraph))
  /\ ((Link.type callEdge = Some Limport /\ Link.value callEdge = 3)
      \/ (Link.type callEdge = Some Lcall /\ Link.value callEdge = 1)
      \/ (Link.type callEdge = Some Lstructure /\ Link.value callEdge = 2)).
Proof.
  split; [split; [exact analyzeFiles_example | exact callEdge_in_example]|].
  exact (@edge_kinds_and_values Patterns.callSites [aTs; bTs] typescript
           exampleGraph callEdge analyzeFiles_example callEdge_in_example).
Defined.

Lemma call_edges_join_entities_witness :
  (analyzeFiles Patterns.callSites [aTs; bTs] typescript = Some exampleGraph
   /\ In callEdge (graphLinks exampleGraph)
   /\ Link.type callEdge = Some Lcall)
  /\ exists s t,
       In s (graphNodes exampleGraph) /\ In t (graphNodes exampleGraph)
       /\ Node.id s = Link.source callEdge /\ Node.id t = Link.target callEdge
       /\ Node.type s <> Tfile /\ Node.type t <> Tfile.
Proof.
  split; [split; [exact analyzeFiles_example
                 | split; [exact callEdge_in_example | reflexivity]]|].
  exact (@call_edges_join_entities Patterns.callSites [aTs; bTs] typescript
           exampleGraph callEdge analyzeFiles_example callEdge_in_example
           eq_refl).
Defined.

Lemma stats_of_a_run_witness :
  analyzeFiles Patterns.callSites [aTs; bTs] typescript = Some exampleGraph
  /\ totalFunctions exampleGraph
     = List.length (filter isStructure (graphLinks exampleGraph))
  /\ totalFiles exampleGraph <= List.length [aTs; bTs].
Proof.
  split; [exact analyzeFiles_example|].
  exact (@stats_of_a_run Patterns.callSites [aTs; bTs] typescript
           exampleGraph analyzeFiles_example).
Defined.

Lemma silent_files_example f :
  In f [emptyTs; mainGo] -> silentFile typescript f.
Proof.
  intros [<-|[<-|[]]]; [left; reflexivity | right; left; reflexivity].
Qed.

Lemma silent_project_witness :
  exists g,
    analyzeFiles Patterns.callSites [emptyTs; mainGo] typescript = Some g
    /\ graphLinks g = []
    /\ (forall n, In n (graphNodes g) -> Node.type n = Tfile)
    /\ (forall p, In p (pathsOf [emptyTs; mainGo] typescript) ->
                  exists n, In n (graphNodes g) /\ Node.id n = p).
Proof.
  exact (@silent_project Patterns.callSites [emptyTs; mainGo] typescript
           silent_files_example).
Defined.

Lemma dollar_name_never_matches_witness :
  (readable "$el" = true /\ includes "$" "$el" = true)
  /\ Patterns.callSites "$el" "$el(1)" = Some []
  /\ forall path lang fileImports st targetNode,
       visibleAs path lang fileImports targetNode = Some "$el" ->
       targetStep Patterns.callSites "$el(1)" path lang fileImports st
                  targetNode
       = Some st.
Proof.
  assert (H1 : readable "$el" = true) by reflexivity.
  assert (H2 : includes "$" "$el" = true) by reflexivity.
  split; [split; assumption|].
  exact (@dollar_name_never_matches "$el" "$el(1)" H1 H2).
Defined.

Lemma selected_file_language_witness :
  (isSelected srcBTs = true
   /\ (filePathOf srcBTs = fileName srcBTs
       \/ exists dir, filePathOf srcBTs = (dir ++ "/" ++ fileName srcBTs)%string))
  /\ detectLanguage (fileName srcBTs) python
     = detectLanguage (fileName srcBTs) rust.
Proof.
  assert (H1 : isSelected srcBTs = true) by (vm_compute; reflexivity).
  assert (H2 : filePathOf srcBTs = fileName srcBTs
               \/ exists dir,
                    filePathOf srcBTs = (dir ++ "/" ++ fileName srcBTs)%string)
    by (right; exists "src"; reflexivity).
  split; [split; assumption|].
  exact (@selected_file_language srcBTs python rust H1 H2).
Defined.

Lemma import_edge_for_binding_witness :
  exists l,
    In l (links (createFileImportLinks importParser ["a.ts"; "b.ts"]))
    /\ Link.source l = "a.ts"
    /\ Link.target l = ("b" ++ ".ts")%string.
Proof.
  apply (@import_edge_for_binding importParser ["a.ts"; "b.ts"] "a.ts"
           aTsImports "h" (Build_ImportMeta "b" "helper") ".ts").
  - simpl. left. reflexivity.
  - reflexivity.
  - simpl. left. reflexivity.
  - reflexivity.
Defined.

Lemma import_edges_from_bindings_witness :
  In importEdge (links (createFileImportLinks importParser ["a.ts"; "b.ts"]))
  /\ nodes (createFileImportLinks importParser ["a.ts"; "b.ts"])
     = nodes importParser
  /\ (In importEdge (links importParser)
      \/ (Link.type importEdge = Some Limport /\ Link.value importEdge = 3
          /\ JsMap.has (Link.source importEdge) (nodes importParser) = true
          /\ exists imports name meta ext,
               In (Link.source importEdge, imports) (importRegistry importParser)
               /\ In (name, meta) imports
               /\ find (fun e => JsMap.has (sourceFile meta ++ e)%string
                                           (nodes importParser)) extensions
                  = Some ext
               /\ Link.target importEdge = (sourceFile meta ++ ext)%string)).
Proof.
  assert (H : In importEdge
                 (links (createFileImportLinks importParser ["a.ts"; "b.ts"])))
    by (simpl; left; reflexivity).
  split; [exact H|].
  destruct (import_edges_from_bindings importParser ["a.ts"; "b.ts"])
    as [Hn Hl].
  split; [exact Hn | exact (Hl importEdge H)].
Defined.

Lemma class_body_end_witness :
  scanBraces (S (String.length classText)) classText 1 9 = Some 18
  /\ 9 <= 18
  /\ (forall i, 9 <= i -> i < 18 ->
        (0 < braceDepth 1 (JsString.substring 9 i classText))%Z)
  /\ (String.length classText <= 18
      \/ braceDepth 1 (JsString.substring 9 18 classText) = 0%Z).
Proof.
  assert (H : scanBraces (S (String.length classText)) classText 1 9 = Some 18)
    by reflexivity.
  split; [exact H|].
  exact (@class_body_end classText 9 18 H).
Defined.

Lemma types_never_overwrite_witness :
  (extractTypeScriptTypes fooParser "interface Foo {}" "t.ts" "#00ff41"
   = Some fooParser
   /\ JsMap.get "t.ts:Foo" (nodes fooParser) = Some fooNode)
  /\ JsMap.get "t.ts:Foo" (nodes fooParser) = Some fooNode
  /\ links fooParser = links fooParser.
Proof.
  assert (H1 : extractTypeScriptTypes fooParser "interface Foo {}" "t.ts"
                 "#00ff41" = Some fooParser) by (vm_compute; reflexivity).
  assert (H2 : JsMap.get "t.ts:Foo" (nodes fooParser) = Some fooNode)
    by reflexivity.
  split; [split; assumption|].
  exact (@types_never_overwrite fooParser "interface Foo {}" "t.ts" "#00ff41"
           fooParser "t.ts:Foo" fooNode H1 H2).
Defined.

(* ================================================================== *)
(** * Call edges *)
(* ================================================================== *)

Lemma forEachM_reaches {A S : Type} (R Q : S -> Prop)
      (body : S -> A -> option S) (xs : list A) (x : A) :
  In x xs ->
  (forall s y s', R s -> body s y = Some s' -> R s') ->
  (forall s y s', Q s -> body s y = Some s' -> Q s') ->
  (forall s s', R s -> body s x = Some s' -> Q s') ->
  forall s s', R s -> forEachM body xs s = Some s' -> Q s'.
Proof.
  intros Hin HR HQ Hx.
  induction xs as [|y tl IH]; intros s s' Hs H; [destruct Hin|].
  simpl in H. bind_inv H. destruct Hin as [->|Hin].
  - eapply (forEachM_inv Q); [|eapply Hx; eauto|exact H].
    intros; eapply HQ; eauto.
  - eapply IH; [exact Hin| |exact H]. eapply HR; eauto.
Qed.

Lemma pick_map {A B : Type} (f : A -> B) (key : A -> nat) (key' : B -> nat) L :
  (forall x, key x = key' (f x)) ->
  forall l, option_map f (pick key L l) = pick key' L (map f l).
Proof.
  intros Hk. induction l as [|x tl IH]; simpl; [reflexivity|].
  rewrite <- Hk, <- IH.
  destruct (key x <=? L); [|reflexivity].
  destruct (pick key L tl) as [y|]; simpl; [|reflexivity].
  rewrite <- Hk. destruct (key x <? key y); reflexivity.
Qed.

Lemma filter_map_commute {A B : Type} (f : A -> B) (p : A -> bool)
      (p' : B -> bool) :
  (forall x, p x = p' (f x)) ->
  forall l, map f (filter p l) = filter p' (map f l).
Proof.
  intros Hp. induction l as [|x tl IH]; simpl; [reflexivity|].
  rewrite <- Hp. destruct (p x); simpl; now rewrite IH.
Qed.

(** The enclosing entity, sizes apart, depends on the entities only. *)
Lemma findEnclosingEntity_entities st path line :
  option_map unsized (findEnclosingEntity st path line)
  = pick Node.line line
      (filter (fun n => String.eqb (Node.file n) path
                        && negb (isFile (Node.type n)))
              (entities st)).
Proof.
  unfold findEnclosingEntity, entities.
  rewrite (find_sort Node.line line).
  rewrite (pick_map unsized Node.line Node.line) by reflexivity.
  f_equal. now apply filter_map_commute.
Qed.

Lemma findEnclosingEntity_same_id st st' path line s :
  entities st' = entities st ->
  findEnclosingEntity st path line = Some s ->
  exists s', findEnclosingEntity st' path line = Some s'
             /\ Node.id s' = Node.id s.
Proof.
  intros He Hf.
  pose proof (findEnclosingEntity_entities st path line) as H1.
  pose proof (findEnclosingEntity_entities st' path line) as H2.
  rewrite He, <- H1, Hf in H2.
  destruct (findEnclosingEntity st' path line) as [s'|]; [|discriminate H2].
  exists s'. split; [reflexivity|].
  assert (Hu : unsized s' = unsized s) by (simpl in H2; congruence).
  apply (f_equal Node.id) in Hu. exact Hu.
Qed.

Lemma values_bump : forall (ns : JsMap.t CodeNode) id tn,
  JsMap.get id ns = Some tn ->
  map unsized (JsMap.values (JsMap.set id (Node.addSize tn) ns))
  = map unsized (JsMap.values ns).
Proof.
  unfold JsMap.values.
  induction ns as [|[k v] tl IH]; intros id tn Hg; simpl in *; [discriminate|].
  destruct (String.eqb id k).
  - injection Hg as <-. reflexivity.
  - simpl. now rewrite (IH _ _ Hg).
Qed.

Lemma entities_callStep content path targetNode st index :
  entities (callStep content path targetNode st index) = entities st.
Proof.
  unfold entities.
  destruct (nodes_callStep content path targetNode st index)
    as [->|(tn & Hg & ->)]; [reflexivity | now apply values_bump].
Qed.

Lemma links_callStep content path targetNode st index l :
  In l (links st) -> In l (links (callStep content path targetNode st index)).
Proof.
  intros Hin. unfold callStep.
  destruct (findEnclosingEntity st path _); [|exact Hin].
  destruct (negb _); [|exact Hin].
  destruct (find _ (links st)); [exact Hin|].
  unfold bumpSize. cbn [nodes pushLink withLinks].
  destruct (JsMap.get _ (nodes st)); simpl; apply in_or_app; now left.
Qed.

Lemma targetStep_keeps regExpExec content path lang fileImports st t st' :
  targetStep regExpExec content path lang fileImports st t = Some st' ->
  entities st' = entities st
  /\ forall l, In l (links st) -> In l (links st').
Proof.
  intros H. unfold targetStep in H.
  destruct (visibleAs _ _ _ _); [|injection H as <-; auto].
  bind_inv H. injection H as <-.
  apply (forEach_inv
           (fun s => entities s = entities st
                     /\ forall l, In l (links st) -> In l (links s)));
    [|auto].
  intros p index _ [He Hl]. split.
  - now rewrite entities_callStep.
  - intros l Hin. now apply links_callStep, Hl.
Qed.

(** X21 (an edge for every call site). After [extractCalls] on a file:
    for every entity that is visible from the file, and every index at
    which the pattern of its call name matches the text, when the file
    has an enclosing entity for the line of the match and that entity is
    not the target, the edges have one from the enclosing entity to the
    target. *)
Theorem call_edge_for_site
        regExpExec st content path lang st' t callName sites index s :
  extractCalls regExpExec st content path lang = Some st' ->
  In t (JsMap.values (nodes st)) ->
  visibleAs path lang (JsMap.get path (importRegistry st)) t = Some callName ->
  regExpExec callName content = Some sites ->
  In index sites ->
  findEnclosingEntity st path (lineAt content index) = Some s ->
  Node.id s <> Node.id t ->
  exists l,
    In l (links st')
    /\ Link.source l = Node.id s /\ Link.target l = Node.id t.
Proof.
  intros H Ht Hv Hsites Hindex Hf Hne. unfold extractCalls in H.
  set (Q := fun p : Parser =>
              exists l, In l (links p) /\ Link.source l = Node.id s
                        /\ Link.target l = Node.id t).
  set (R := fun p : Parser => entities p = entities st).
  assert (HQstep : forall p i t0, Q p -> Q (callStep content path t0 p i)).
  { intros p i t0 (l & Hl & He). exists l.
    split; [now apply links_callStep | exact He]. }
  apply (@forEachM_reaches _ _ R Q
           (targetStep regExpExec content path lang
                       (JsMap.get path (importRegistry st)))
           (JsMap.values (nodes st)) t Ht) with (s := st);
    [| | |reflexivity|exact H].
  - intros p y p' Hp Hb. unfold R.
    destruct (targetStep_keeps _ _ _ _ _ _ _ Hb) as [He _]. now rewrite He.
  - intros p y p' (l & Hl & He) Hb.
    destruct (targetStep_keeps _ _ _ _ _ _ _ Hb) as [_ Hls].
    exists l. split; [now apply Hls | exact He].
  - intros p p' Hp Hb. unfold targetStep in Hb. rewrite Hv, Hsites in Hb.
    cbn [obind] in Hb. injection Hb as <-.
    apply (forEach_reaches R Q _ _ index Hindex); [| | |exact Hp].
    + intros p0 i Hp0. unfold R. now rewrite entities_callStep.
    + intros p0 i. apply HQstep.
    + intros p0 Hp0. unfold callStep.
      destruct (@findEnclosingEntity_same_id st p0 path
                  (lineAt content index) s Hp0 Hf) as (s' & -> & Hid).
      rewrite Hid.
      destruct (String.eqb_spec (Node.id s) (Node.id t)) as [|_];
        [contradiction|].
      cbn [negb].
      destruct (find _ (links p0)) as [l|] eqn:Hfind.
      * apply find_some in Hfind. destruct Hfind as [Hin Hends].
        unfold sameEnds in Hends. apply andb_prop in Hends.
        destruct Hends as [Hs' Ht']. apply String.eqb_eq in Hs', Ht'.
        now exists l.
      * exists (Link.Build (Node.id s) (Node.id t) 1 (Some Lcall)).
        split; [|split; reflexivity].
        unfold bumpSize. cbn [nodes pushLink withLinks].
        destruct (JsMap.get _ (nodes p0)); simpl; apply in_or_app; right;
          now left.
Qed.

(** X22 (no call edge without a call site). Every edge that
    [extractCalls] adds for a file is a call edge of value 1 between two
    different ids: the target is an entity visible from the file, and the
    source is the enclosing entity of the line of an index at which the
    pattern of the call name of the target matches the text. *)
Theorem call_edges_from_sites regExpExec st content path lang st' l :
  extractCalls regExpExec st content path lang = Some st' ->
  In l (links st') ->
  In l (links st)
  \/ (Link.type l = Some Lcall /\ Link.value l = 1
      /\ Link.source l <> Link.target l
      /\ exists t callName sites index s,
           In t (JsMap.values (nodes st))
           /\ visibleAs path lang (JsMap.get path (importRegistry st)) t
              = Some callName
           /\ regExpExec callName content = Some sites
           /\ In index sites
           /\ findEnclosingEntity st path (lineAt content index) = Some s
           /\ Link.source l = Node.id s /\ Link.target l = Node.id t).
Proof.
  intros H. unfold extractCalls in H. revert l.
  set (new := fun l : CodeLink =>
                Link.type l = Some Lcall /\ Link.value l = 1
                /\ Link.source l <> Link.target l
                /\ exists t callName sites index s,
                     In t (JsMap.values (nodes st))
                     /\ visibleAs path lang (JsMap.get path (importRegistry st)) t
                        = Some callName
                     /\ regExpExec callName content = Some sites
                     /\ In index sites
                     /\ findEnclosingEntity st path (lineAt content index)
                        = Some s
                     /\ Link.source l = Node.id s
                     /\ Link.target l = Node.id t).
  set (J := fun p : Parser =>
              entities p = entities st
              /\ forall l, In l (links p) -> In l (links st) \/ new l).
  assert (HJ : J st') ; [|exact (proj2 HJ)].
  eapply (forEachM_inv J); [| |exact H]; [|split; [reflexivity | now left]].
  intros p t p' Ht Hp Hb. unfold targetStep in Hb.
  destruct (visibleAs _ _ _ t) as [callName|] eqn:Hv;
    [|injection Hb as <-; exact Hp].
  bind_inv Hb. rename a into sites, Ha into Hsites. injection Hb as <-.
  apply forEach_inv; [|exact Hp].
  intros p0 index Hindex [He Hl]. split; [now rewrite entities_callStep|].
  unfold callStep.
  destruct (findEnclosingEntity p0 path _) as [s'|] eqn:Hf; [|exact Hl].
  destruct (String.eqb_spec (Node.id s') (Node.id t)) as [|Hne];
    cbn [negb]; [exact Hl|].
  destruct (find _ (links p0)); [exact Hl|].
  intros l Hin.
  assert (Hin' : In l (links p0 ++ [Link.Build (Node.id s') (Node.id t) 1
                                               (Some Lcall)])).
  { revert Hin. unfold bumpSize. cbn [nodes pushLink withLinks].
    destruct (JsMap.get _ (nodes p0)); simpl; auto. }
  apply in_app_or in Hin'. destruct Hin' as [Hold|[<-|[]]]; [now apply Hl|].
  right. unfold new. cbn [Link.type Link.value Link.source Link.target].
  split; [reflexivity | split; [reflexivity | split; [exact Hne|]]].
  destruct (@findEnclosingEntity_same_id p0 st path (lineAt content index) s'
              (eq_sym He) Hf) as (s & Hs & Hid).
  exists t, callName, sites, index, s. auto 10.
Qed.

Lemma extractCalls_example :
  extractCalls Patterns.callSites callParser (fileText aTs) "a.ts" typescript
  = Some calledParser.
Proof. vm_compute. reflexivity. Qed.

Lemma call_edge_for_site_witness :
  (extractCalls Patterns.callSites callParser (fileText aTs) "a.ts" typescript
   = Some calledParser
   /\ In helperDeclared (JsMap.values (nodes callParser))
   /\ visibleAs "a.ts" typescript
                (JsMap.get "a.ts" (importRegistry callParser)) helperDeclared
      = Some "h"
   /\ Patterns.callSites "h" (fileText aTs) = Some [51]
   /\ In 51 [51]
   /\ findEnclosingEntity callParser "a.ts" (lineAt (fileText aTs) 51)
      = Some runNode
   /\ Node.id runNode <> Node.id helperDeclared)
  /\ exists l,
       In l (links calledParser)
       /\ Link.source l = Node.id runNode
       /\ Link.target l = Node.id helperDeclared.
Proof.
  assert (H1 : In helperDeclared (JsMap.values (nodes callParser)))
    by (simpl; right; right; right; left; reflexivity).
  assert (H2 : visibleAs "a.ts" typescript
                 (JsMap.get "a.ts" (importRegistry callParser)) helperDeclared
               = Some "h") by (vm_compute; reflexivity).
  assert (H3 : Patterns.callSites "h" (fileText aTs) = Some [51])
    by (vm_compute; reflexivity).
  assert (H4 : In 51 [51]) by (left; reflexivity).
  assert (H5 : findEnclosingEntity callParser "a.ts" (lineAt (fileText aTs) 51)
               = Some runNode) by (vm_compute; reflexivity).
  assert (H6 : Node.id runNode <> Node.id helperDeclared)
    by (simpl; discriminate).
  split; [repeat split; try assumption; exact extractCalls_example|].
  exact (@call_edge_for_site Patterns.callSites callParser (fileText aTs)
           "a.ts" typescript calledParser helperDeclared "h" [51] 51 runNode
           extractCalls_example H1 H2 H3 H4 H5 H6).
Defined.

Lemma call_edges_from_sites_witness :
  (extractCalls Patterns.callSites callParser (fileText aTs) "a.ts" typescript
   = Some calledParser
   /\ In callEdge (links calledParser))
  /\ (In callEdge (links callParser)
      \/ (Link.type callEdge = Some Lcall /\ Link.value callEdge = 1
          /\ Link.source callEdge <> Link.target callEdge
          /\ exists t callName sites index s,
               In t (JsMap.values (nodes callParser))
               /\ visibleAs "a.ts" typescript
                            (JsMap.get "a.ts" (importRegistry callParser)) t
                  = Some callName
               /\ Patterns.callSites callName (fileText aTs) = Some sites
               /\ In index sites
               /\ findEnclosingEntity callParser "a.ts"
                                      (lineAt (fileText aTs) index) = Some s
               /\ Link.source callEdge = Node.id s
               /\ Link.target callEdge = Node.id t)).
Proof.
  assert (H : In callEdge (links calledParser))
    by (simpl; right; left; reflexivity).
  split; [split; [exact extractCalls_example | exact H]|].
  exact (@call_edges_from_sites Patterns.callSites callParser (fileText aTs)
           "a.ts" typescript calledParser callEdge extractCalls_example H).
Defined.

(* ================================================================== *)
(** * Ids *)
(* ================================================================== *)

Lemma allChars_app_colon a b :
  allChars notColon (a ++ String ":" b)%string = false.
Proof.
  induction a as [|c a IH]; simpl; [reflexivity|].
  rewrite IH. apply andb_false_r.
Qed.

(** X23 (ids). For names without a colon, [generateId] gives one id to
    two entities only when they have the same file and the same name; and
    the id of an entity is never a path without a colon, so it is not the
    id of the node of such a file. *)
Theorem generateId_injective file1 name1 file2 name2 path :
  allChars notColon name1 = true ->
  allChars notColon name2 = true ->
  (generateId file1 name1 = generateId file2 name2 ->
   file1 = file2 /\ name1 = name2)
  /\ (allChars notColon path = true -> generateId file1 name1 <> path).
Proof.
  intros H1 H2. unfold generateId. split.
  - revert file2. induction file1 as [|c f1 IH]; intros [|d f2] E; simpl in E.
    + injection E as ->. split; reflexivity.
    + injection E as <- ->. rewrite allChars_app_colon in H1. discriminate.
    + injection E as -> <-. rewrite allChars_app_colon in H2. discriminate.
    + injection E as -> E. destruct (IH _ E) as [-> ->]. split; reflexivity.
  - intros Hp E. rewrite <- E in Hp.
    pose proof (allChars_app_colon file1 name1) as Hc.
    cbn [append] in Hc, Hp. congruence.
Qed.

Lemma generateId_injective_witness :
  (allChars notColon "helper" = true
   /\ allChars notColon "Box.get" = true
   /\ allChars notColon "src/a.ts" = true)
  /\ (generateId "src/a.ts" "helper" = generateId "src/a.ts" "Box.get" ->
      "src/a.ts" = "src/a.ts" /\ "helper" = "Box.get")
  /\ generateId "src/a.ts" "helper" <> "src/a.ts".
Proof.
  assert (H1 : allChars notColon "helper" = true) by reflexivity.
  assert (H2 : allChars notColon "Box.get" = true) by reflexivity.
  assert (H3 : allChars notColon "src/a.ts" = true) by reflexivity.
  split; [repeat split; assumption|].
  pose proof (@generateId_injective "src/a.ts" "helper" "src/a.ts" "Box.get"
                "src/a.ts" H1 H2) as [Hi Hn].
  split; [exact Hi | exact (Hn H3)].
Defined.

(* ================================================================== *)
(** * Containment *)
(* ================================================================== *)




(* ================================================================== *)
(** * When the run returns *)
(* ================================================================== *)

(** A loop returns exactly when every turn of its body does, for a body
    whose return depends on the state only through an invariant. *)
Lemma forEachM_returns_iff {A S : Type} (I : S -> Prop) (ok : A -> Prop)
      (body : S -> A -> option S) : forall xs,
  (forall s x s', In x xs -> I s -> body s x = Some s' -> I s') ->
  (forall s x, In x xs -> I s -> ((exists s', body s x = Some s') <-> ok x)) ->
  forall s, I s ->
    ((exists s', forEachM body xs s = Some s') <-> forall x, In x xs -> ok x).
Proof.
  induction xs as [|y tl IH]; intros HI Hok s Hs; simpl.
  - split; [intros _ x [] | eauto].
  - assert (HI' : forall s0 x s', In x tl -> I s0 -> body s0 x = Some s' -> I s')
      by (intros s0 x s' Hx; apply HI; now right).
    assert (Hok' : forall s0 x, In x tl -> I s0 ->
                     ((exists s', body s0 x = Some s') <-> ok x))
      by (intros s0 x Hx; apply Hok; now right).
    split.
    + intros [s' H]. bind_inv H. intros x [<-|Hx].
      * apply (Hok s y); [now left | exact Hs | eauto].
      * apply (IH HI' Hok' a); [|eauto|exact Hx].
        apply (HI s y a); [now left | exact Hs | exact Ha].
    + intros Hall.
      destruct (proj2 (Hok s y (or_introl eq_refl) Hs)
                      (Hall y (or_introl eq_refl))) as [s1 E].
      rewrite E. cbn [obind].
      apply (IH HI' Hok' s1).
      * apply (HI s y s1); [now left | exact Hs | exact E].
      * intros x Hx. apply Hall. now right.
Qed.

Lemma importedAs_unsized t : forall entries,
  importedAs (unsized t) entries = importedAs t entries.
Proof.
  induction entries as [|[localName meta] tl IH]; [reflexivity|].
  cbn [importedAs unsized Node.file Node.name]. now rewrite IH.
Qed.

Lemma visibleAs_unsized path lang fileImports t :
  visibleAs path lang fileImports (unsized t)
  = visibleAs path lang fileImports t.
Proof.
  unfold visibleAs.
  destruct fileImports as [imports|]; [|reflexivity].
  rewrite importedAs_unsized. reflexivity.
Qed.

Lemma flat_map_unsized {B : Type} (F : CodeNode -> list B) :
  (forall t, F (unsized t) = F t) ->
  forall l, flat_map F (map unsized l) = flat_map F l.
Proof.
  intros HF. induction l as [|t tl IH]; simpl; [reflexivity|].
  now rewrite HF, IH.
Qed.

Lemma callNames_same st s f :
  entities s = entities st -> importRegistry s = importRegistry st ->
  callNames s f = callNames st f.
Proof.
  unfold callNames, entities. intros He ->.
  match goal with |- flat_map ?F _ = _ =>
    rewrite <- (@flat_map_unsized _ F) by
      (intros t; now rewrite visibleAs_unsized);
    rewrite He;
    apply (@flat_map_unsized _ F);
    intros t; now rewrite visibleAs_unsized
  end.
Qed.

Lemma importRegistry_callStep content path targetNode st index :
  importRegistry (callStep content path targetNode st index)
  = importRegistry st.
Proof.
  unfold callStep.
  destruct (findEnclosingEntity st path _); [|reflexivity].
  destruct (negb _); [|reflexivity].
  destruct (find _ (links st)); [reflexivity|].
  unfold bumpSize. cbn [nodes pushLink withLinks].
  destruct (JsMap.get _ (nodes st)); reflexivity.
Qed.

Lemma extractCalls_keeps regExpExec st content path lang st' :
  extractCalls regExpExec st content path lang = Some st' ->
  entities st' = entities st /\ importRegistry st' = importRegistry st.
Proof.
  unfold extractCalls.
  apply (forEachM_inv
           (fun s => entities s = entities st
                     /\ importRegistry s = importRegistry st));
    [|split; reflexivity].
  intros s t s' _ [He Hr] H.
  destruct (targetStep_keeps _ _ _ _ _ _ _ H) as [He' _].
  split; [now rewrite He'|].
  unfold targetStep in H.
  destruct (visibleAs _ _ _ _); [|now injection H as <-].
  bind_inv H. injection H as <-.
  apply (forEach_inv (fun s0 => importRegistry s0 = importRegistry st));
    [|exact Hr].
  intros p index _ Hp. now rewrite importRegistry_callStep.
Qed.

(** [extractCalls] returns exactly when the loop over the call pattern
    returns for every name under which it looks for an entity. *)
Lemma extractCalls_returns_iff regExpExec st f :
  (exists st', extractCalls regExpExec st (fcContent f) (fcPath f) (fcLang f)
               = Some st')
  <-> forall callName, In callName (callNames st f) ->
        exists sites, regExpExec callName (fcContent f) = Some sites.
Proof.
  unfold extractCalls, callNames.
  rewrite (@forEachM_returns_iff _ _ (fun _ => True)
             (fun t => forall callName,
                  visibleAs (fcPath f) (fcLang f)
                            (JsMap.get (fcPath f) (importRegistry st)) t
                  = Some callName ->
                  exists sites, regExpExec callName (fcContent f) = Some sites));
    [| auto | | exact I].
  - split.
    + intros H callName Hin. apply in_flat_map in Hin.
      destruct Hin as (t & Ht & Hc). apply (H t Ht).
      destruct (visibleAs _ _ _ t) as [c|]; [|destruct Hc].
      destruct Hc as [->|[]]. reflexivity.
    + intros H t Ht callName Hv. apply H. apply in_flat_map.
      exists t. split; [exact Ht|]. rewrite Hv. now left.
  - intros s t _ _. unfold targetStep.
    destruct (visibleAs _ _ _ t) as [c|].
    + split.
      * intros [s' H]. bind_inv H. intros callName [= <-]. eauto.
      * intros H. destruct (H c eq_refl) as [sites ->]. cbn [obind]. eauto.
    + split; [intros _ callName [=] | eauto].
Qed.

(** X14 (when the run returns). The passes of [analyzeFiles] before the
    loop over [extractCalls] return for every list of files: the patterns
    of the code match no empty string, so none of their loops can go on
    for ever. With the parser that they leave, the run returns a graph
    exactly when the loop over the call pattern returns for every file
    and every name under which [extractCalls] looks for an entity in that
    file. *)
Theorem analyzeFiles_returns regExpExec files mainLanguage :
  exists st,
    parseFiles files mainLanguage = Some st
    /\ ((exists g, analyzeFiles regExpExec files mainLanguage = Some g)
        <-> forall f callName,
              In f (map (readFile mainLanguage) files) ->
              In callName (callNames st f) ->
              exists sites, regExpExec callName (fcContent f) = Some sites).
Proof.
  unfold analyzeFiles, parseFiles.
  match goal with |- context [forEachM ?body ?xs ?s] =>
    destruct (@forEachM_total _ _ body xs
                (fun s0 f _ => extractEntities_total s0 _ _ _) s)
      as [st2 ->] end.
  cbn [obind].
  match goal with |- context [forEachM ?body ?xs ?s] =>
    destruct (@forEachM_total _ _ body xs
                (fun s0 f _ => extractImports_total s0 _ _ _) s)
      as [st3 ->] end.
  cbn [obind].
  set (fcs := map (readFile mainLanguage) files).
  set (st4 := createFileImportLinks st3 (map fcPath fcs)).
  exists st4. split; [reflexivity|].
  pose proof
    (@forEachM_returns_iff _ _
       (fun s => entities s = entities st4
                 /\ importRegistry s = importRegistry st4)
       (fun f => forall callName, In callName (callNames st4 f) ->
                   exists sites, regExpExec callName (fcContent f) = Some sites)
       (fun st f => extractCalls regExpExec st (fcContent f) (fcPath f)
                                 (fcLang f))
       fcs) as Hloop.
  cbv beta in Hloop.
  assert (Hiff : (exists st5,
                     forEachM (fun st f =>
                                 extractCalls regExpExec st (fcContent f)
                                              (fcPath f) (fcLang f))
                              fcs st4 = Some st5)
                 <-> forall f, In f fcs ->
                       forall callName, In callName (callNames st4 f) ->
                         exists sites,
                           regExpExec callName (fcContent f) = Some sites).
  { apply Hloop; [| |split; reflexivity].
    - intros s f s' _ [He Hr] H.
      destruct (extractCalls_keeps _ _ _ _ _ H) as [He' Hr'].
      split; congruence.
    - intros s f _ [He Hr].
      rewrite extractCalls_returns_iff, (@callNames_same st4 s f He Hr).
      tauto. }
  split.
  - intros [g H] f callName Hf Hc. bind_inv H.
    apply (proj1 Hiff (ex_intro _ a Ha) f Hf callName Hc).
  - intros H.
    destruct (proj2 Hiff (fun f Hf callName Hc => H f callName Hf Hc))
      as [st5 ->].
    cbn [obind]. eauto.
Qed.

Lemma analyzeFiles_returns_witness :
  exists st,
    parseFiles [aTs; bTs] typescript = Some st
    /\ (forall f callName,
          In f (map (readFile typescript) [aTs; bTs]) ->
          In callName (callNames st f) ->
          exists sites, Patterns.callSites callName (fcContent f) = Some sites)
    /\ exists g, analyzeFiles Patterns.callSites [aTs; bTs] typescript = Some g.
Proof.
  destruct (analyzeFiles_returns Patterns.callSites [aTs; bTs] typescript)
    as (st & Hp & Hiff).
  exists st. split; [exact Hp|].
  assert (Hq : forall f callName,
             In f (map (readFile typescript) [aTs; bTs]) ->
             In callName (callNames st f) ->
             exists sites,
               Patterns.callSites callName (fcContent f) = Some sites).
  { intros f callName Hf Hc. apply callSites_readable.
    vm_compute in Hp. injection Hp as <-.
    cbn [map In] in Hf. destruct Hf as [<-|[<-|[]]]; vm_compute in Hc;
      repeat (destruct Hc as [<-|Hc]; [reflexivity|]); destruct Hc. }
  split; [exact Hq | exact (proj2 Hiff Hq)].
Defined.
